(** * RossScheduler: device links, link pools and the job scheduler

    A shallow embedding of the device-communication and scheduling core of
    the repository:

    - [electron/protocols/swp08.ts]    ([SWP08]: binary framed client and pool)
    - [electron/protocols/rosstalk.ts] ([RossTalk]: line-oriented client and pool)
    - [electron/database/schema.ts]    ([Database]: the flat record store)
    - [electron/scheduler/scheduler.ts] ([Scheduler]: the job scheduler)

    JavaScript numbers are modelled by [Z] (integral values), with the 32-bit
    wrap-around of the bitwise operators and the 8-bit truncation of
    [Buffer.from] written out.  Byte buffers are [list Z], strings are
    [string], a [Map<number, T>] is a [gmap Z T]. *)

From Stdlib Require Import ZArith List String Ascii Bool Lia.
From Stdlib Require Import DecimalString Sorted.
From stdpp Require Import gmap strings list.

Open Scope Z_scope.

(** ** JavaScript number primitives used by the clients *)

Module Js.

(** [ToInt32]: the operand conversion of [>>], [&], [^]. *)
Definition toInt32 (x : Z) : Z := (x + 2^31) mod 2^32 - 2^31.

(** The element conversion of [Buffer.from(array)]: keep the low 8 bits. *)
Definition toUint8 (x : Z) : Z := x mod 256.

(** [a >> n] *)
Definition shr (a n : Z) : Z := Z.shiftr (toInt32 a) n.

(** [a & b] *)
Definition and (a b : Z) : Z := toInt32 (Z.land (toInt32 a) (toInt32 b)).

(** [a ^ b] *)
Definition xor (a b : Z) : Z := toInt32 (Z.lxor (toInt32 a) (toInt32 b)).

(** [Number.MAX_SAFE_INTEGER] and [Number.isSafeInteger] for an integral
    number. *)
Definition MAX_SAFE_INTEGER : Z := 2^53 - 1.
Definition isSafeInteger (n : Z) : bool := Z.abs n <=? MAX_SAFE_INTEGER.

(** [`${n}`] for a safe integer: its decimal digits.  Beyond the safe
    integers JavaScript prints the shortest digits that identify the double,
    and the exponent form from 1e21 on; the text is the decimal expansion
    only where [isSafeInteger] holds. *)
Definition num_to_string (n : Z) : string := NilZero.string_of_int (Z.to_int n).

End Js.

(** ** The binary framed client (swp08.ts) *)

Module SWP08.

Definition SOM : Z := 0x10.
Definition EOM : Z := 0x10.
Definition EOM2 : Z := 0x11.
Definition COMMAND_CONNECT : Z := 0x02.

(** The fields of [SWP08Client] that the modelled methods read or write. *)
Record Client := mkClient {
  host : string;
  port : Z;
  matrix : Z;
  level : Z;
  connected : bool;
  responseBuffer : list Z
}.

(** [new SWP08Client({ host, port })]: matrix and level default to 0. *)
Definition new (h : string) (p : Z) : Client :=
  {| host := h; port := p; matrix := 0; level := 0;
     connected := false; responseBuffer := [] |}.

(** [Buffer.from(numbers)] *)
Definition Buffer_from (l : list Z) : list Z := map Js.toUint8 l.

(** [(value >> 7) & 0x7F] and [value & 0x7F] *)
Definition msb7 (value : Z) : Z := Js.and (Js.shr value 7) 0x7F.
Definition lsb7 (value : Z) : Z := Js.and value 0x7F.

(** [for (const byte of data) checksum ^= byte], starting from 0. *)
Definition checksum_of (data : list Z) : Z :=
  fold_left (fun checksum byte => Js.xor checksum byte) data 0.

Definition buildConnectCommand (c : Client) (source destination : Z) : list Z :=
  let destMsb := msb7 destination in
  let destLsb := lsb7 destination in
  let srcMsb := msb7 source in
  let srcLsb := lsb7 source in
  let data := [COMMAND_CONNECT; matrix c; level c; destMsb; destLsb; srcMsb; srcLsb] in
  let checksum := checksum_of data in
  Buffer_from ([SOM] ++ data ++ [checksum; EOM; EOM2]).

(** Reading a built frame back: the seven bytes after SOM, the byte before
    EOM, and the bitwise XOR of a run of bytes. *)
Definition frame_payload (frame : list Z) : list Z := firstn 7 (skipn 1 frame).
Definition frame_checksum (frame : list Z) : Z := nth 8 frame 0.
Definition xor_bytes (l : list Z) : Z := fold_right Z.lxor 0 l.

(** Recombining two 7-bit groups: [(MSB << 7) | LSB]. *)
Definition recombine (msb lsb : Z) : Z := Z.lor (Z.shiftl msb 7) lsb.

(** [buf.indexOf(b)]: [None] stands for -1. *)
Fixpoint indexOf (b : Z) (buf : list Z) : option nat :=
  match buf with
  | [] => None
  | x :: rest => if x =? b then Some O else option_map S (indexOf b rest)
  end.

(** The inner [for] loop of [processResponse], started at index [i] on the
    suffix [l] of the buffer that begins at [i]: the first [i' >= i] with
    [i' < length - 1], [buf[i'] = EOM] and [buf[i'+1] = EOM2]. *)
Fixpoint find_end (l : list Z) (i : nat) : option nat :=
  match l with
  | x :: ((y :: _) as tl) =>
      if (x =? EOM) && (y =? EOM2) then Some i else find_end tl (S i)
  | _ => None
  end.

(** [buf.subarray(from, to)] *)
Definition subarray (buf : list Z) (from to : nat) : list Z :=
  firstn (to - from) (skipn from buf).

(** [processResponse]: returns the responses emitted by the pass and the
    new [responseBuffer].  The body of the [while] ends in an unconditional
    [break], so it runs at most once. *)
Definition processResponse (buf : list Z) : list (list Z) * list Z :=
  match indexOf SOM buf with
  | None => ([], buf)
  | Some startIdx =>
      match find_end (skipn (S startIdx) buf) (S startIdx) with
      | Some i => ([subarray buf startIdx (i + 2)], skipn (i + 2) buf)
      | None => ([], buf)
      end
  end.

(** The socket's ['data'] listener: append, then one [processResponse]. *)
Definition onData (c : Client) (data : list Z) : list (list Z) * Client :=
  let '(emitted, buf) := processResponse (responseBuffer c ++ data) in
  (emitted,
   {| host := host c; port := port c; matrix := matrix c; level := level c;
      connected := connected c; responseBuffer := buf |}).

(** Delivering a sequence of chunks, one ['data'] event each. *)
Fixpoint deliver (c : Client) (chunks : list (list Z)) : list (list Z) * Client :=
  match chunks with
  | [] => ([], c)
  | data :: rest =>
      let '(e1, c1) := onData c data in
      let '(e2, c2) := deliver c1 rest in
      (e1 ++ e2, c2)
  end.

End SWP08.

(** ** The socket listeners set up by [connect]

    Both clients register the same listeners on a new socket; they differ in
    the [cleanup] that runs when the socket has connected. *)

Module Socket.

Inductive Event := ev_connect | ev_error | ev_timeout | ev_data | ev_close.

Definition event_eqb (a b : Event) : bool :=
  match a, b with
  | ev_connect, ev_connect | ev_error, ev_error | ev_timeout, ev_timeout
  | ev_data, ev_data | ev_close, ev_close => true
  | _, _ => false
  end.

(** The registrations of [connect()], in order: [once('connect')],
    [once('error')], [once('timeout')], [on('data')], [on('close')],
    [on('error')]. *)
Definition registered : list Event :=
  [ev_connect; ev_error; ev_timeout; ev_data; ev_close; ev_error].

(** [socket.removeAllListeners(event)] *)
Definition removeAllListeners_of (e : Event) (listeners : list Event) : list Event :=
  List.filter (fun l => negb (event_eqb l e)) listeners.

(** [cleanup] of [SWP08Client.connect]: the ['error'] and ['timeout']
    listeners go. *)
Definition cleanup_swp08 (listeners : list Event) : list Event :=
  removeAllListeners_of ev_timeout (removeAllListeners_of ev_error listeners).

(** [cleanup] of [RossTalkClient.connect]: [socket.removeAllListeners()]. *)
Definition cleanup_rosstalk (listeners : list Event) : list Event := [].

(** The ['connect'] event: the one-shot listener is taken off and runs
    [cleanup]. *)
Definition on_connect (cleanup : list Event -> list Event) (listeners : list Event)
  : list Event :=
  cleanup (removeAllListeners_of ev_connect listeners).

Definition has_listener (e : Event) (listeners : list Event) : bool :=
  existsb (event_eqb e) listeners.

End Socket.

(** ** What a device link does with one request

    The socket is outside the model: how the device answers one command is
    an input.  [Responded r] is a response received before the timeout,
    [Failed m] a rejected promise with [Error.message = m] (connection error
    or timeout). *)

Inductive Outcome (R : Type) : Type :=
  | Responded (r : R)
  | Failed (message : string).
Arguments Responded {R} r.
Arguments Failed {R} message.

(** [{ success: boolean; message: string }] *)
Record Result := mkResult { success : bool; message : string }.

(** ** The line-oriented client (rosstalk.ts) *)

Module RossTalk.

Open Scope string_scope.

Record Client := mkClient {
  host : string;
  port : Z;
  connected : bool;
  responseBuffer : string
}.

(** [new RossTalkClient({ host, port })] *)
Definition new (h : string) (p : Z) : Client :=
  {| host := h; port := p; connected := false; responseBuffer := EmptyString |}.

(** The code units below 256 that [String.prototype.trim] removes: TAB, LF,
    VT, FF, CR, SPACE and NBSP. *)
Definition is_whitespace (c : ascii) : bool :=
  let n := nat_of_ascii c in
  ((9 <=? n) && (n <=? 13) || (n =? 32) || (n =? 160))%nat.

Fixpoint trimStart (s : string) : string :=
  match s with
  | EmptyString => EmptyString
  | String c rest => if is_whitespace c then trimStart rest else s
  end.

Fixpoint trimEnd (s : string) : string :=
  match s with
  | EmptyString => EmptyString
  | String c rest =>
      match trimEnd rest with
      | EmptyString => if is_whitespace c then EmptyString else String c EmptyString
      | rest' => String c rest'
      end
  end.

(** [s.trim()] *)
Definition trim (s : string) : string := trimEnd (trimStart s).

(** Truthiness of a string: non-empty. *)
Definition truthy (s : string) : bool :=
  match s with EmptyString => false | _ => true end.

(** Putting a character in front of the first segment. *)
Definition cons_segment (c : ascii) (segments : list string) : list string :=
  match segments with
  | seg :: rest => String c seg :: rest
  | [] => [String c EmptyString]
  end.

(** [s.split('\r\n')]: always at least one segment. *)
Fixpoint split_crlf (s : string) : list string :=
  match s with
  | EmptyString => [EmptyString]
  | String c rest =>
      match rest with
      | String c2 rest2 =>
          if ((c =? "013") && (c2 =? "010"))%char
          then EmptyString :: split_crlf rest2
          else cons_segment c (split_crlf rest)
      | EmptyString => cons_segment c (split_crlf rest)
      end
  end.

(** Does the text begin with the separator ? *)
Definition starts_crlf (s : string) : bool :=
  match s with
  | String c (String c2 _) => ((c =? "013") && (c2 =? "010"))%char
  | _ => false
  end.

(** [lines.pop() || ''] and the array left after the pop. *)
Definition pop_last (lines : list string) : string := List.last lines EmptyString.
Definition pop_rest (lines : list string) : list string := removelast lines.

(** The lines the [for] loop emits: each line that is truthy after [trim],
    trimmed. *)
Definition emit_lines (lines : list string) : list string :=
  map trim (filter (fun line => truthy (trim line)) lines).

(** The socket's ['data'] listener: the ['response'] events emitted and the
    client with its new [responseBuffer]. *)
Definition onData (c : Client) (data : string) : list string * Client :=
  let buffer := responseBuffer c ++ data in
  let lines := split_crlf buffer in
  (emit_lines (pop_rest lines),
   {| host := host c; port := port c; connected := connected c;
      responseBuffer := pop_last lines |}).

(** The text carried by a sequence of chunks. *)
Definition received (chunks : list string) : string :=
  fold_right append EmptyString chunks.

(** The text of the complete segments, each with its terminator. *)
Definition terminated (segments : list string) : string :=
  fold_right (fun seg text => seg ++ String "013" (String "010" text)) EmptyString segments.

(** A sequence of ['data'] events handled by the listener. *)
Fixpoint deliver (c : Client) (chunks : list string) : list string * Client :=
  match chunks with
  | [] => ([], c)
  | data :: rest =>
      let '(e1, c1) := onData c data in
      let '(e2, c2) := deliver c1 rest in
      ((e1 ++ e2)%list, c2)
  end.

(** [command.endsWith('\r\n') ? command : command + '\r\n'] *)
Fixpoint endsWith_crlf (s : string) : bool :=
  match s with
  | String "013" (String "010" EmptyString) => true
  | String _ rest => endsWith_crlf rest
  | EmptyString => false
  end.

Definition fullCommand (command : string) : string :=
  if endsWith_crlf command then command else command ++ String "013" (String "010" EmptyString).

(** The promise of [sendCommand], given the ['response'] events emitted
    between the write and the timeout: the one-shot [responseHandler]
    resolves it with the first event; with none the timer rejects it. *)
Definition awaitResponse (events : list string) : Outcome string :=
  match events with
  | response :: _ => Responded response
  | [] => Failed "Command timeout"
  end.

(** The listeners on the socket of a connected client: [connected] is set
    by the ['connect'] handler alone, which then runs [cleanup], and nothing
    registers a socket listener after that. *)
Definition socket_listeners : list Socket.Event :=
  Socket.on_connect Socket.cleanup_rosstalk Socket.registered.

(** ['data'] events on a socket with the given listeners: handled by the
    listener of [connect] where it is registered; without a listener the
    chunks are dropped and no ['response'] is emitted. *)
Definition dispatch (listeners : list Socket.Event) (c : Client) (chunks : list string)
  : list string * Client :=
  if Socket.has_listener Socket.ev_data listeners then deliver c chunks else ([], c).

(** [sendCommand(command)].  From outside come: how [connect()] settles if
    it is awaited ([link]), the error the write callback reports if any
    ([write_error]), and the chunks that arrive on the socket while the
    command is outstanding ([arrivals]).  The result is the text written to
    the socket ([None] when [connect()] rejected and nothing was written),
    the settled promise, and the client afterwards. *)
Definition sendCommand (c : Client) (command : string) (link : Outcome unit)
    (write_error : option string) (arrivals : list string)
  : option string * Outcome string * Client :=
  match (if connected c then Responded tt else link) with
  | Failed m => (None, Failed m, c)
  | Responded _ =>
      let c1 := {| host := host c; port := port c; connected := true;
                   responseBuffer := responseBuffer c |} in
      let '(events, c2) := dispatch socket_listeners c1 arrivals in
      (Some (fullCommand command),
       match write_error with
       | Some m => Failed m
       | None => awaitResponse events
       end,
       c2)
  end.

(** [sendTake], with the settled promise of its [sendCommand] as input. *)
Definition sendTake (c : Client) (takeId : Z) (io : Outcome string) : Result * Client :=
  match io with
  | Responded response =>
      ({| success := true;
          message := if truthy response then response else "Command sent successfully" |},
       {| host := host c; port := port c; connected := true;
          responseBuffer := responseBuffer c |})
  | Failed m => ({| success := false; message := m |}, c)
  end.

Definition disconnect (c : Client) : Client :=
  {| host := host c; port := port c; connected := false;
     responseBuffer := responseBuffer c |}.

End RossTalk.

(** [SWP08Client.route] and [testConnection], with the settled promise of
    [sendCommand] (of [connect]) as input; [source] and [destination] print
    as numbers, and the separator of the success message is the three
    characters the source file has there. *)
Module SWP08Link.

Definition set_connected (c : SWP08.Client) (b : bool) : SWP08.Client :=
  {| SWP08.host := SWP08.host c; SWP08.port := SWP08.port c;
     SWP08.matrix := SWP08.matrix c; SWP08.level := SWP08.level c;
     SWP08.connected := b; SWP08.responseBuffer := SWP08.responseBuffer c |}.

Definition route (c : SWP08.Client) (source destination : Z) (io : Outcome (list Z))
  : Result * SWP08.Client :=
  match io with
  | Responded _ =>
      ({| success := true;
          message := ("Route " ++ Js.num_to_string source ++ " â†’ "
                      ++ Js.num_to_string destination ++ " executed")%string |},
       set_connected c true)
  | Failed m => ({| success := false; message := m |}, c)
  end.

Definition testConnection (c : SWP08.Client) (io : Outcome unit) : Result * SWP08.Client :=
  match io with
  | Responded _ =>
      ({| success := true; message := "Connected successfully" |}, set_connected c true)
  | Failed m => ({| success := false; message := m |}, c)
  end.

Inductive Request :=
  | Route (source destination : Z) (io : Outcome (list Z))
  | TestConnection (io : Outcome unit).

Definition perform (q : Request) (c : SWP08.Client) : Result * SWP08.Client :=
  match q with
  | Route source destination io => route c source destination io
  | TestConnection io => testConnection c io
  end.

End SWP08Link.

Module RossTalkLink.

Definition testConnection (c : RossTalk.Client) (io : Outcome unit)
  : Result * RossTalk.Client :=
  match io with
  | Responded _ =>
      ({| success := true; message := "Connected successfully" |},
       {| RossTalk.host := RossTalk.host c; RossTalk.port := RossTalk.port c;
          RossTalk.connected := true;
          RossTalk.responseBuffer := RossTalk.responseBuffer c |})
  | Failed m => ({| success := false; message := m |}, c)
  end.

Inductive Request :=
  | SendTake (takeId : Z) (io : Outcome string)
  | TestConnection (io : Outcome unit).

Definition perform (q : Request) (c : RossTalk.Client) : Result * RossTalk.Client :=
  match q with
  | SendTake takeId io => RossTalk.sendTake c takeId io
  | TestConnection io => testConnection c io
  end.

End RossTalkLink.

(** ** The link pools ([SWP08Pool], [RossTalkPool])

    Both pool classes are the same code over their client class, here the
    interface [Link].  A client is an object: an entry of the pool's [Map]
    is the object's identity (its allocation number) with its state, so
    that "the same client" is the same identity.  A client evicted from the
    map is unreachable, and its state is dropped with the entry. *)

Class Link (C : Type) := {
  link_new : string -> Z -> C;          (* new Client({ host, port }) *)
  link_host : C -> string;
  link_port : C -> Z;
  link_isConnected : C -> bool;
  link_request : Type;                  (* a method call and the socket's answer *)
  link_perform : link_request -> C -> Result * C
}.

#[export] Instance SWP08_Link : Link SWP08.Client := {
  link_new := SWP08.new;
  link_host := SWP08.host;
  link_port := SWP08.port;
  link_isConnected := SWP08.connected;
  link_request := SWP08Link.Request;
  link_perform := SWP08Link.perform
}.

#[export] Instance RossTalk_Link : Link RossTalk.Client := {
  link_new := RossTalk.new;
  link_host := RossTalk.host;
  link_port := RossTalk.port;
  link_isConnected := RossTalk.connected;
  link_request := RossTalkLink.Request;
  link_perform := RossTalkLink.perform
}.

Module Pool.

Section WithClient.
Context {C : Type} `{Link C}.

Record t := mk {
  clients : gmap Z (nat * C);   (* private clients = new Map<number, Client>() *)
  next_ref : nat                (* objects allocated so far *)
}.

Definition empty : t := {| clients := ∅; next_ref := O |}.

(** [getClient(deviceId, host, port)]: the client returned and the pool
    afterwards. *)
Definition getClient (deviceId : Z) (h : string) (p : Z) (pool : t) : (nat * C) * t :=
  match clients pool !! deviceId with
  | Some client => (client, pool)
  | None =>
      let client := (next_ref pool, link_new h p) in
      (client,
       {| clients := <[deviceId := client]> (clients pool);
          next_ref := S (next_ref pool) |})
  end.

(** [const client = this.getClient(deviceId, host, port); return client.m(...)]
    for the method call [q]. *)
Definition request (deviceId : Z) (h : string) (p : Z) (q : link_request) (pool : t)
  : Result * t :=
  let '((ref, c), pool1) := getClient deviceId h p pool in
  let '(r, c') := link_perform q c in
  (r, {| clients := <[deviceId := (ref, c')]> (clients pool1);
         next_ref := next_ref pool1 |}).

(** [getStatus(deviceId)]: [client?.isConnected() ?? false] *)
Definition getStatus (deviceId : Z) (pool : t) : bool :=
  match clients pool !! deviceId with
  | Some (_, c) => link_isConnected c
  | None => false
  end.

(** [disconnect(deviceId)] *)
Definition disconnect (deviceId : Z) (pool : t) : t :=
  match clients pool !! deviceId with
  | Some _ => {| clients := delete deviceId (clients pool); next_ref := next_ref pool |}
  | None => pool
  end.

(** [disconnectAll()] *)
Definition disconnectAll (pool : t) : t :=
  {| clients := ∅; next_ref := next_ref pool |}.

(** The address the commands for [deviceId] go to: that of its client. *)
Definition address (deviceId : Z) (pool : t) : option (string * Z) :=
  match clients pool !! deviceId with
  | Some (_, c) => Some (link_host c, link_port c)
  | None => None
  end.

(** The identity of the client registered for [deviceId]. *)
Definition registered (deviceId : Z) (pool : t) : option nat :=
  fst <$> clients pool !! deviceId.

(** The public operations of a pool. *)
Inductive Op :=
  | OpGetClient (deviceId : Z) (h : string) (p : Z)
  | OpRequest (deviceId : Z) (h : string) (p : Z) (q : link_request)
  | OpGetStatus (deviceId : Z)
  | OpDisconnect (deviceId : Z)
  | OpDisconnectAll.

Definition step (pool : t) (op : Op) : t :=
  match op with
  | OpGetClient d h p => snd (getClient d h p pool)
  | OpRequest d h p q => snd (request d h p q pool)
  | OpGetStatus _ => pool
  | OpDisconnect d => disconnect d pool
  | OpDisconnectAll => disconnectAll pool
  end.

Definition run (pool : t) (ops : list Op) : t := fold_left step ops pool.


End WithClient.

Arguments t C : clear implicits.

End Pool.

(** [swp08Pool.route] and [rossTalkPool.sendTake]. *)
Definition SWP08Pool_route (deviceId : Z) (h : string) (p : Z) (source destination : Z)
    (io : Outcome (list Z)) (pool : Pool.t SWP08.Client) : Result * Pool.t SWP08.Client :=
  Pool.request (C := SWP08.Client) deviceId h p (SWP08Link.Route source destination io) pool.

Definition RossTalkPool_sendTake (deviceId : Z) (h : string) (p : Z) (takeId : Z)
    (io : Outcome string) (pool : Pool.t RossTalk.Client) : Result * Pool.t RossTalk.Client :=
  Pool.request (C := RossTalk.Client) deviceId h p (RossTalkLink.SendTake takeId io) pool.

(** What [client.sendCommand(`TAKE ${takeId}`)] settles with inside
    [rossTalkPool.sendTake(deviceId, host, port, takeId)], for the client
    the pool hands out. *)
Definition RossTalkPool_take_promise (deviceId : Z) (h : string) (p : Z) (takeId : Z)
    (link : Outcome unit) (write_error : option string) (arrivals : list string)
    (pool : Pool.t RossTalk.Client) : Outcome string :=
  let c := snd (fst (Pool.getClient (C := RossTalk.Client) deviceId h p pool)) in
  snd (fst (RossTalk.sendCommand c ("TAKE " ++ Js.num_to_string takeId)%string
                                 link write_error arrivals)).

(** ** The JavaScript runtime and node-schedule

    What the scheduler takes from outside the repository: [JSON.parse],
    [new Date(string)] (the instant in milliseconds, [None] for an invalid
    date), [Date.prototype.toISOString], and node-schedule's next fire time
    of a cron expression after an instant ([None] when the expression is
    rejected or never fires). *)

(** The optional fields of [interface CommandData]; [None] is [undefined]. *)
Record CommandData := mkCommandData {
  takeId : option Z;
  source : option Z;
  destination : option Z
}.

(** What [JSON.parse(sched.command_data)] does: it throws a [SyntaxError],
    or returns [null], or returns a value whose properties can be read (an
    object with the fields present in the text; for a number, string,
    boolean or array every field of [CommandData] reads [undefined]). *)
Inductive Parsed :=
  | JsSyntaxError (message : string)
  | JsNull
  | JsObject (commandData : CommandData).

Class Runtime := {
  JSON_parse : string -> Parsed;
  Date_parse : string -> option Z;
  toISOString : Z -> string;
  cron_next : string -> Z -> option Z
}.

(** A call either returns or throws an [Error] with a message. *)
Inductive Completion (A : Type) : Type :=
  | Returned (a : A)
  | Thrown (error : string).
Arguments Returned {A} a.
Arguments Thrown {A} error.

(** ** The record store (schema.ts) *)

Module Database.

Inductive DeviceType := xpression | ultrix.
Inductive CommandType := take | route.
Inductive ScheduleType := once | recurring.
Inductive Status := status_success | status_error.

Record DeviceRecord := mkDevice {
  dev_id : Z;
  dev_name : string;
  dev_type : DeviceType;
  dev_host : string;
  dev_port : Z;
  dev_enabled : bool
}.

Record ScheduleRecord := mkSchedule {
  id : Z;
  name : string;
  device_id : Z;
  command_type : CommandType;
  command_data : string;
  schedule_type : ScheduleType;
  cron_expression : option string;
  run_at : option string;
  enabled : bool;
  last_run : option string;
  next_run : option string
}.

Record CommandLogRecord := mkLog {
  log_id : Z;
  log_schedule_id : option Z;
  log_device_id : Z;
  log_command : string;
  log_status : Status;
  log_response : option string;
  log_executed_at : string
}.

(** [DatabaseData], without the router endpoints. *)
Record DatabaseData := mkData {
  devices : list DeviceRecord;
  schedules : list ScheduleRecord;
  command_log : list CommandLogRecord;
  nextId_command_log : Z
}.

(** [{ ...s, host: device.host, port: device.port, device_type: device.type }] *)
Record ScheduleWithDevice := mkJoined {
  record : ScheduleRecord;
  host : string;
  port : Z;
  device_type : DeviceType
}.

(** The argument of [updateSchedule]: [None] is a field left [undefined]. *)
Record SchedulePatch := mkPatch {
  set_name : option string;
  set_device_id : option Z;
  set_command_type : option CommandType;
  set_command_data : option string;
  set_schedule_type : option ScheduleType;
  set_cron_expression : option (option string);
  set_run_at : option (option string);
  set_enabled : option bool;
  set_last_run : option (option string);
  set_next_run : option (option string)
}.

Definition no_change : SchedulePatch :=
  mkPatch None None None None None None None None None None.

(** [{ enabled: b }], [{ last_run: t }], [{ next_run: t }] *)
Definition patch_enabled (b : bool) : SchedulePatch :=
  mkPatch None None None None None None None (Some b) None None.
Definition patch_last_run (t : string) : SchedulePatch :=
  mkPatch None None None None None None None None (Some (Some t)) None.
Definition patch_next_run (t : string) : SchedulePatch :=
  mkPatch None None None None None None None None None (Some (Some t)).

Definition getDevice (data : DatabaseData) (i : Z) : option DeviceRecord :=
  find (fun d => dev_id d =? i) (devices data).

Definition getSchedule (data : DatabaseData) (i : Z) : option ScheduleRecord :=
  find (fun s => id s =? i) (schedules data).

Definition getEnabledSchedules (data : DatabaseData) : list ScheduleWithDevice :=
  omap (fun s =>
          match find (fun d => (dev_id d =? device_id s) && dev_enabled d) (devices data) with
          | None => None
          | Some device =>
              Some {| record := s; host := dev_host device; port := dev_port device;
                      device_type := dev_type device |}
          end)
       (filter (fun s => enabled s = true) (schedules data)).

Definition apply_patch (p : SchedulePatch) (existing : ScheduleRecord) : ScheduleRecord :=
  {| id := id existing;
     name := default (name existing) (set_name p);
     device_id := default (device_id existing) (set_device_id p);
     command_type := default (command_type existing) (set_command_type p);
     command_data := default (command_data existing) (set_command_data p);
     schedule_type := default (schedule_type existing) (set_schedule_type p);
     cron_expression := default (cron_expression existing) (set_cron_expression p);
     run_at := default (run_at existing) (set_run_at p);
     enabled := default (enabled existing) (set_enabled p);
     last_run := default (last_run existing) (set_last_run p);
     next_run := default (next_run existing) (set_next_run p) |}.

(** The record found by [find(s => s.id === id)] is updated in place. *)
Fixpoint update_first (i : Z) (p : SchedulePatch) (l : list ScheduleRecord)
  : list ScheduleRecord :=
  match l with
  | [] => []
  | s :: rest => if id s =? i then apply_patch p s :: rest
                 else s :: update_first i p rest
  end.

Definition updateSchedule (data : DatabaseData) (i : Z) (p : SchedulePatch) : DatabaseData :=
  {| devices := devices data;
     schedules := update_first i p (schedules data);
     command_log := command_log data;
     nextId_command_log := nextId_command_log data |}.

(** The argument of [createLog]. *)
Record LogEntry := mkEntry {
  entry_schedule_id : option Z;
  entry_device_id : Z;
  entry_command : string;
  entry_status : Status;
  entry_response : option string
}.

(** [array.slice(-n)] *)
Definition slice_last {A} (n : Z) (l : list A) : list A :=
  skipn (Z.to_nat (Z.of_nat (length l) - n)) l.

(** [createLog(log)] at the instant whose ISO string is [executed_at]: the
    new row and the store afterwards. *)
Definition createLog (data : DatabaseData) (log : LogEntry) (executed_at : string)
  : CommandLogRecord * DatabaseData :=
  let newLog :=
    {| log_id := nextId_command_log data;
       log_schedule_id := entry_schedule_id log;
       log_device_id := entry_device_id log;
       log_command := entry_command log;
       log_status := entry_status log;
       log_response := entry_response log;
       log_executed_at := executed_at |} in
  let pushed := command_log data ++ [newLog] in
  (newLog,
   {| devices := devices data;
      schedules := schedules data;
      command_log := if 10000 <? Z.of_nat (length pushed)
                     then slice_last 10000 pushed else pushed;
      nextId_command_log := nextId_command_log data + 1 |}).

End Database.

(** ** The job scheduler (scheduler.ts) *)

Module Scheduler.

Import Database.

(** [interface ScheduleData]: a schedule record joined with its device. *)
Definition ScheduleData : Type := ScheduleWithDevice.

(** How the device links answer the command of one pipeline run. *)
Record Net := mkNet {
  on_take : Outcome string;
  on_route : Outcome (list Z)
}.

(** A node-schedule [Job]: what it was scheduled with, the schedule its
    callback closes over, and its pending invocation ([None] once cancelled
    or, for a date, fired). *)
Inductive JobSpec :=
  | Cron (expression : string)
  | At (runDate : Z).

Record Job := mkJob {
  spec : JobSpec;
  job_sched : ScheduleData;
  pending : option Z
}.

(** [job.cancel()] *)
Definition cancel (j : Job) : Job :=
  {| spec := spec j; job_sched := job_sched j; pending := None |}.

(** The scheduler, the two pools it drives, the job objects node-schedule
    holds, and the ['schedule:executed'] messages sent so far. *)
Record State := mkState {
  db : DatabaseData;
  jobs : gmap Z nat;                 (* private jobs = new Map<number, Job>() *)
  timers : gmap nat Job;             (* the Job objects, by reference *)
  next_job : nat;
  rossTalkPool : Pool.t RossTalk.Client;
  swp08Pool : Pool.t SWP08.Client;
  sent : list CommandLogRecord
}.

Definition initial (data : DatabaseData) : State :=
  {| db := data; jobs := ∅; timers := ∅; next_job := O;
     rossTalkPool := Pool.empty; swp08Pool := Pool.empty; sent := [] |}.

Definition with_db (st : State) (data : DatabaseData) : State :=
  {| db := data; jobs := jobs st; timers := timers st; next_job := next_job st;
     rossTalkPool := rossTalkPool st; swp08Pool := swp08Pool st; sent := sent st |}.

(** [job.nextInvocation()] through a reference. *)
Definition nextInvocation (st : State) (job : nat) : option Z :=
  timers st !! job ≫= pending.

(** Truthiness of [string | null]. *)
Definition truthy (s : option string) : bool :=
  match s with
  | Some (String _ _) => true
  | _ => false
  end.

Definition is_recurring (t : ScheduleType) : bool :=
  match t with recurring => true | once => false end.
Definition is_once (t : ScheduleType) : bool :=
  match t with once => true | recurring => false end.

Section WithRuntime.
Context `{Runtime}.

(** [cancelJob(scheduleId)] *)
Definition cancelJob (scheduleId : Z) (st : State) : State :=
  match jobs st !! scheduleId with
  | Some job =>
      {| db := db st;
         jobs := delete scheduleId (jobs st);
         timers := alter cancel job (timers st);
         next_job := next_job st;
         rossTalkPool := rossTalkPool st; swp08Pool := swp08Pool st; sent := sent st |}
  | None => st
  end.

(** [schedule.scheduleJob(cronExpression, callback)]: [null] unless the
    expression has a next fire time. *)
Definition schedule_cron (expression : string) (sched : ScheduleData) (now : Z)
  : option Job :=
  match cron_next expression now with
  | Some t => Some {| spec := Cron expression; job_sched := sched; pending := Some t |}
  | None => None
  end.

(** [schedule.scheduleJob(runDate, callback)]: [null] for a date already
    passed. *)
Definition schedule_date (runDate : Z) (sched : ScheduleData) (now : Z) : option Job :=
  if now <=? runDate
  then Some {| spec := At runDate; job_sched := sched; pending := Some runDate |}
  else None.

(** The [job] that the two branches of [scheduleJob] leave in the local
    variable. *)
Definition make_job (sched : ScheduleData) (now : Z) : option Job :=
  if is_recurring (schedule_type (record sched)) && truthy (cron_expression (record sched))
  then
    match cron_expression (record sched) with
    | Some expression => schedule_cron expression sched now
    | None => None
    end
  else if is_once (schedule_type (record sched)) && truthy (run_at (record sched))
  then
    match run_at (record sched) with
    | Some text =>
        match Date_parse text with
        | Some runDate =>
            if now <? runDate then schedule_date runDate sched now else None
        | None => None          (* Invalid Date > now is false *)
        end
    | None => None
    end
  else None.

(** [scheduleJob(sched)] at the instant [now]. *)
Definition scheduleJob (sched : ScheduleData) (now : Z) (st : State) : State :=
  let st1 := cancelJob (id (record sched)) st in
  match make_job sched now with
  | Some j =>
      let job := next_job st1 in
      let st2 :=
        {| db := db st1;
           jobs := <[id (record sched) := job]> (jobs st1);
           timers := <[job := j]> (timers st1);
           next_job := S job;
           rossTalkPool := rossTalkPool st1; swp08Pool := swp08Pool st1;
           sent := sent st1 |} in
      match nextInvocation st2 job with
      | Some nextRun =>
          with_db st2 (Database.updateSchedule (db st2) (id (record sched))
                                      (patch_next_run (toISOString nextRun)))
      | None => st2
      end
  | None => st1
  end.

(** [loadSchedules()] *)
Definition loadSchedules (now : Z) (st : State) : State :=
  fold_left (fun st' sched => scheduleJob sched now st') (getEnabledSchedules (db st)) st.

(** Reading [commandData.<field>]: a [TypeError] on [null]. *)
Definition read (parsed : Parsed) (field : CommandData -> option Z) (fname : string)
  : Completion (option Z) :=
  match parsed with
  | JsObject commandData => Returned (field commandData)
  | _ => Thrown ("Cannot read properties of null (reading '" ++ fname ++ "')")
  end.

(** [`${value}`] for [number | undefined]. *)
Definition show (value : option Z) : string :=
  match value with
  | Some n => Js.num_to_string n
  | None => "undefined"
  end.

Definition with_rossTalkPool (st : State) (pool : Pool.t RossTalk.Client) : State :=
  {| db := db st; jobs := jobs st; timers := timers st; next_job := next_job st;
     rossTalkPool := pool; swp08Pool := swp08Pool st; sent := sent st |}.

Definition with_swp08Pool (st : State) (pool : Pool.t SWP08.Client) : State :=
  {| db := db st; jobs := jobs st; timers := timers st; next_job := next_job st;
     rossTalkPool := rossTalkPool st; swp08Pool := pool; sent := sent st |}.

Definition invalid_command_data : string * Result :=
  ("UNKNOWN", {| success := false; message := "Invalid command data" |}).

(** The [try] block of [executeCommand]: the [command] and [result] it
    assigns, or the error it throws. *)
Definition try_block (sched : ScheduleData) (parsed : Parsed) (net : Net) (st : State)
  : Completion (string * Result) * State :=
  match command_type (record sched) with
  | take =>
      match read parsed takeId "takeId" with
      | Thrown error => (Thrown error, st)
      | Returned (Some tid) =>
          let command := ("TAKE " ++ Js.num_to_string tid)%string in
          let '(result, pool) :=
            RossTalkPool_sendTake (device_id (record sched)) (host sched) (port sched)
                                  tid (on_take net) (rossTalkPool st) in
          (Returned (command, result), with_rossTalkPool st pool)
      | Returned None => (Returned invalid_command_data, st)
      end
  | route =>
      match read parsed source "source" with
      | Thrown error => (Thrown error, st)
      | Returned (Some src) =>
          match read parsed destination "destination" with
          | Thrown error => (Thrown error, st)
          | Returned (Some dst) =>
              let command :=
                ("ROUTE " ++ Js.num_to_string src ++ " → " ++ Js.num_to_string dst)%string in
              let '(result, pool) :=
                SWP08Pool_route (device_id (record sched)) (host sched) (port sched)
                                src dst (on_route net) (swp08Pool st) in
              (Returned (command, result), with_swp08Pool st pool)
          | Returned None => (Returned invalid_command_data, st)
          end
      | Returned None => (Returned invalid_command_data, st)
      end
  end.

(** The [command] assigned in the [catch] block; reading the fields can
    throw again. *)
Definition catch_command (sched : ScheduleData) (parsed : Parsed) : Completion string :=
  match command_type (record sched) with
  | take =>
      match read parsed takeId "takeId" with
      | Returned v => Returned ("TAKE " ++ show v)%string
      | Thrown error => Thrown error
      end
  | route =>
      match read parsed source "source" with
      | Returned src =>
          match read parsed destination "destination" with
          | Returned dst => Returned ("ROUTE " ++ show src ++ " → " ++ show dst)%string
          | Thrown error => Thrown error
          end
      | Thrown error => Thrown error
      end
  end.

(** [try { ... } catch (error) { ... }]: the [command] and [result] that
    reach the logging code. *)
Definition command_and_result (sched : ScheduleData) (parsed : Parsed) (net : Net)
    (st : State) : Completion (string * Result) * State :=
  match try_block sched parsed net st with
  | (Returned cr, st1) => (Returned cr, st1)
  | (Thrown error, st1) =>
      match catch_command sched parsed with
      | Returned command =>
          (Returned (command, {| success := false; message := error |}), st1)
      | Thrown error' => (Thrown error', st1)
      end
  end.

(** The statements of [executeCommand] after the [try]: log, [last_run],
    [next_run], notification. *)
Definition record_run (sched : ScheduleData) (command : string) (result : Result)
    (now : Z) (st : State) : State :=
  let '(log, db1) :=
    createLog (db st)
      {| entry_schedule_id := Some (id (record sched));
         entry_device_id := device_id (record sched);
         entry_command := command;
         entry_status := if success result then status_success else status_error;
         entry_response := Some (message result) |}
      (toISOString now) in
  let db2 :=
    Database.updateSchedule db1 (id (record sched)) (patch_last_run (toISOString now)) in
  let db3 :=
    match jobs st !! id (record sched) with
    | Some job =>
        match nextInvocation st job with
        | Some nextRun =>
            Database.updateSchedule db2 (id (record sched))
                                    (patch_next_run (toISOString nextRun))
        | None => db2
        end
    | None => db2
    end in
  {| db := db3; jobs := jobs st; timers := timers st; next_job := next_job st;
     rossTalkPool := rossTalkPool st; swp08Pool := swp08Pool st;
     sent := sent st ++ [log] |}.

(** [executeCommand(sched)], run to completion at the instant [now] with
    the links answering as [net]: the promise is fulfilled or rejected. *)
Definition executeCommand (sched : ScheduleData) (net : Net) (now : Z) (st : State)
  : Completion unit * State :=
  match JSON_parse (command_data (record sched)) with
  | JsSyntaxError error => (Thrown error, st)
  | parsed =>
      match command_and_result sched parsed net st with
      | (Returned (command, result), st1) =>
          (Returned tt, record_run sched command result now st1)
      | (Thrown error, st1) => (Thrown error, st1)
      end
  end.

(** [runNow(scheduleId)] *)
Definition runNow (scheduleId : Z) (net : Net) (now : Z) (st : State)
  : Completion Result * State :=
  match getSchedule (db st) scheduleId with
  | None => (Returned {| success := false; message := "Schedule not found" |}, st)
  | Some sched =>
      match getDevice (db st) (device_id sched) with
      | None => (Returned {| success := false; message := "Device not found" |}, st)
      | Some device =>
          let fullSched :=
            {| record := sched; host := dev_host device; port := dev_port device;
               device_type := dev_type device |} in
          match executeCommand fullSched net now st with
          | (Returned _, st1) =>
              (Returned {| success := true; message := "Command executed" |}, st1)
          | (Thrown error, st1) => (Thrown error, st1)
          end
      end
  end.

(** [addSchedule(scheduleId)] *)
Definition addSchedule (scheduleId : Z) (now : Z) (st : State) : State :=
  match find (fun s => id (record s) =? scheduleId) (getEnabledSchedules (db st)) with
  | Some sched => scheduleJob sched now st
  | None => st
  end.

(** [updateSchedule(scheduleId)] *)
Definition updateSchedule (scheduleId : Z) (now : Z) (st : State) : State :=
  addSchedule scheduleId now (cancelJob scheduleId st).

Definition enableSchedule (scheduleId : Z) (now : Z) (st : State) : State :=
  addSchedule scheduleId now st.

Definition disableSchedule (scheduleId : Z) (st : State) : State :=
  cancelJob scheduleId st.

(** [stopAll()] *)
Definition stopAll (st : State) : State :=
  {| db := db st;
     jobs := ∅;
     timers := map_fold (fun _ job t => alter cancel job t) (timers st) (jobs st);
     next_job := next_job st;
     rossTalkPool := Pool.disconnectAll (rossTalkPool st);
     swp08Pool := Pool.disconnectAll (swp08Pool st);
     sent := sent st |}.

(** [getNextRun(scheduleId)] *)
Definition getNextRun (scheduleId : Z) (st : State) : option Z :=
  match jobs st !! scheduleId with
  | Some job => nextInvocation st job
  | None => None
  end.

(** node-schedule firing the job object [job] at the instant [now]: a
    pending invocation that is due is consumed (a cron job tracks its next
    one), then the callback given to [schedule.scheduleJob] runs.  The
    callbacks do not await [executeCommand]: a rejection is not observed by
    them, and the one-time callback then disables the schedule.  The
    pipeline is run to completion before the callback's next statement;
    its store writes and the callback's touch different fields. *)
Definition fire (job : nat) (net : Net) (now : Z) (st : State) : State :=
  match timers st !! job with
  | Some j =>
      match pending j with
      | Some due =>
          if due <=? now then
            match spec j with
            | Cron expression =>
                let j' := {| spec := spec j; job_sched := job_sched j;
                             pending := cron_next expression due |} in
                let st1 :=
                  {| db := db st; jobs := jobs st; timers := <[job := j']> (timers st);
                     next_job := next_job st; rossTalkPool := rossTalkPool st;
                     swp08Pool := swp08Pool st; sent := sent st |} in
                snd (executeCommand (job_sched j) net now st1)
            | At _ =>
                let st1 :=
                  {| db := db st; jobs := jobs st; timers := <[job := cancel j]> (timers st);
                     next_job := next_job st; rossTalkPool := rossTalkPool st;
                     swp08Pool := swp08Pool st; sent := sent st |} in
                let st2 := snd (executeCommand (job_sched j) net now st1) in
                with_db st2 (Database.updateSchedule (db st2) (id (record (job_sched j)))
                                                     (patch_enabled false))
            end
          else st
      | None => st
      end
  | None => st
  end.

(** What can happen to a running scheduler: its public methods, a timer
    firing, and the layers above writing the store. *)
Inductive Op :=
  | LoadSchedules (now : Z)
  | RunNow (scheduleId : Z) (net : Net) (now : Z)
  | AddSchedule (scheduleId : Z) (now : Z)
  | UpdateSchedule (scheduleId : Z) (now : Z)
  | CancelJob (scheduleId : Z)
  | EnableSchedule (scheduleId : Z) (now : Z)
  | DisableSchedule (scheduleId : Z)
  | StopAll
  | Fire (job : nat) (net : Net) (now : Z)
  | StoreWrite (data : DatabaseData).

Definition step (st : State) (op : Op) : State :=
  match op with
  | LoadSchedules now => loadSchedules now st
  | RunNow scheduleId net now => snd (runNow scheduleId net now st)
  | AddSchedule scheduleId now => addSchedule scheduleId now st
  | UpdateSchedule scheduleId now => updateSchedule scheduleId now st
  | CancelJob scheduleId => cancelJob scheduleId st
  | EnableSchedule scheduleId now => enableSchedule scheduleId now st
  | DisableSchedule scheduleId => disableSchedule scheduleId st
  | StopAll => stopAll st
  | Fire job net now => fire job net now st
  | StoreWrite data => with_db st data
  end.

Definition run (st : State) (ops : list Op) : State := fold_left step ops st.

End WithRuntime.

(** Does the command of a run succeed: the payload has the fields of its
    kind and the link gets a response. *)
Definition responded {R} (io : Outcome R) : bool :=
  match io with Responded _ => true | Failed _ => false end.

Definition command_succeeds (kind : CommandType) (commandData : CommandData) (net : Net)
  : bool :=
  match kind with
  | take =>
      match takeId commandData with
      | Some _ => responded (on_take net)
      | None => false
      end
  | route =>
      match source commandData, destination commandData with
      | Some _, Some _ => responded (on_route net)
      | _, _ => false
      end
  end.

(** The log after a row has been pushed and the cap of 10000 rows applied. *)
Definition pushed_log (log : list CommandLogRecord) (row : CommandLogRecord)
  : list CommandLogRecord :=
  let pushed := log ++ [row] in
  if 10000 <? Z.of_nat (length pushed) then slice_last 10000 pushed else pushed.

(** A live timer of schedule [scheduleId]: a job object that still has a
    pending invocation and whose callback runs that schedule. *)
Definition live (st : State) (job : nat) (scheduleId : Z) : bool :=
  match timers st !! job with
  | Some j =>
      match pending j with
      | Some _ => id (record (job_sched j)) =? scheduleId
      | None => false
      end
  | None => false
  end.

(** Every live timer is the job registered for its schedule id, and the
    references in use are below the next one to be allocated. *)
Definition registry_ok (st : State) : Prop :=
  (forall job scheduleId, live st job scheduleId = true -> jobs st !! scheduleId = Some job)
  /\ (forall job, is_Some (timers st !! job) -> (job < next_job st)%nat)
  /\ (forall scheduleId job, jobs st !! scheduleId = Some job -> (job < next_job st)%nat).

End Scheduler.

(** ** A runtime and a store to run the model on

    [Fixture.runtime] agrees with the JavaScript runtime and node-schedule
    on the texts and instants used below: the command payloads listed in
    [JSON_parse], instants of 1 January 1970 (UTC), and the cron expression
    that fires at every minute. *)

Module Fixture.

Import Database.

(** The texts [{"takeId":7}] and [{"source":3,"destination":5}]. *)
Definition quoted (s : string) : string :=
  (String "034" EmptyString ++ s ++ String "034" EmptyString)%string.
Definition take7 : string := ("{" ++ quoted "takeId" ++ ":7}")%string.
Definition route_3_5 : string :=
  ("{" ++ quoted "source" ++ ":3," ++ quoted "destination" ++ ":5}")%string.

Definition pad (width : nat) (n : Z) : string :=
  let digits := Js.num_to_string n in
  (fold_right append EmptyString (repeat "0" (width - String.length digits)) ++ digits)%string.

Definition iso (t : Z) : string :=
  ("1970-01-01T" ++ pad 2 (t / 3600000) ++ ":" ++ pad 2 (t / 60000 mod 60) ++ ":"
   ++ pad 2 (t / 1000 mod 60) ++ "." ++ pad 3 (t mod 1000) ++ "Z")%string.

#[export] Instance runtime : Runtime := {
  JSON_parse text :=
    if String.eqb text take7 then JsObject (mkCommandData (Some 7) None None)
    else if String.eqb text route_3_5
         then JsObject (mkCommandData None (Some 3) (Some 5))
    else if String.eqb text "{}" then JsObject (mkCommandData None None None)
    else if String.eqb text "null" then JsNull
    else JsSyntaxError "Unexpected token in JSON";
  Date_parse text :=
    find (fun t => String.eqb (iso t) text) [0; 30000; 60000; 90000; 120000];
  toISOString := iso;
  cron_next expression now :=
    if String.eqb expression "* * * * *" then Some ((now / 60000 + 1) * 60000) else None
}.

Definition xpression1 : DeviceRecord :=
  {| dev_id := 1; dev_name := "Xpression"; dev_type := xpression;
     dev_host := "10.0.0.7"; dev_port := 7788; dev_enabled := true |}.

Definition ultrix2 : DeviceRecord :=
  {| dev_id := 2; dev_name := "Ultrix"; dev_type := ultrix;
     dev_host := "10.0.0.5"; dev_port := 2000; dev_enabled := true |}.

(** A one-time take at 00:01:00. *)
Definition take_once : ScheduleRecord :=
  {| id := 1; name := "Opening"; device_id := 1; command_type := take;
     command_data := take7; schedule_type := once;
     cron_expression := None; run_at := Some (iso 60000);
     enabled := true; last_run := None; next_run := None |}.

(** A route at every minute. *)
Definition route_every_minute : ScheduleRecord :=
  {| id := 2; name := "Return feed"; device_id := 2; command_type := route;
     command_data := route_3_5; schedule_type := recurring;
     cron_expression := Some "* * * * *"; run_at := None;
     enabled := true; last_run := None; next_run := None |}.

(** A take whose payload is not JSON. *)
Definition take_broken : ScheduleRecord :=
  {| id := 3; name := "Broken"; device_id := 1; command_type := take;
     command_data := "takeId=7"; schedule_type := recurring;
     cron_expression := Some "* * * * *"; run_at := None;
     enabled := true; last_run := None; next_run := None |}.

Definition data : DatabaseData :=
  {| devices := [xpression1; ultrix2];
     schedules := [take_once; route_every_minute; take_broken];
     command_log := [];
     nextId_command_log := 1 |}.

(** The links answer: the take gets the line [OK]; the router is
    unreachable. *)
Definition answered : Scheduler.Net :=
  {| Scheduler.on_take := Responded "OK";
     Scheduler.on_route := Failed "connect ECONNREFUSED 10.0.0.5:2000" |}.

End Fixture.

(** ** More of the record store (schema.ts) *)

Module Store.

Import Database.

(** The argument of [updateDevice]: [None] is a field left [undefined]. *)
Record DevicePatch := mkDevicePatch {
  set_dev_name : option string;
  set_dev_type : option DeviceType;
  set_dev_host : option string;
  set_dev_port : option Z;
  set_dev_enabled : option bool
}.

Definition apply_device_patch (p : DevicePatch) (existing : DeviceRecord) : DeviceRecord :=
  {| dev_id := dev_id existing;
     dev_name := default (dev_name existing) (set_dev_name p);
     dev_type := default (dev_type existing) (set_dev_type p);
     dev_host := default (dev_host existing) (set_dev_host p);
     dev_port := default (dev_port existing) (set_dev_port p);
     dev_enabled := default (dev_enabled existing) (set_dev_enabled p) |}.

Fixpoint update_first_device (i : Z) (p : DevicePatch) (l : list DeviceRecord)
  : list DeviceRecord :=
  match l with
  | [] => []
  | d :: rest => if dev_id d =? i then apply_device_patch p d :: rest
                 else d :: update_first_device i p rest
  end.

(** [updateDevice(id, device)]: the store afterwards; the method returns
    the updated record, or [null] when there is none. *)
Definition updateDevice (data : DatabaseData) (i : Z) (p : DevicePatch) : DatabaseData :=
  {| devices := update_first_device i p (devices data);
     schedules := schedules data;
     command_log := command_log data;
     nextId_command_log := nextId_command_log data |}.

(** [deleteDevice(id)], with its cascade over the schedules and the log. *)
Definition deleteDevice (data : DatabaseData) (i : Z) : DatabaseData :=
  {| devices := List.filter (fun d => negb (dev_id d =? i)) (devices data);
     schedules := List.filter (fun s => negb (device_id s =? i)) (schedules data);
     command_log := List.filter (fun l => negb (log_device_id l =? i)) (command_log data);
     nextId_command_log := nextId_command_log data |}.

(** [l.schedule_id === id] for [schedule_id: number | null] *)
Definition refers_to (l : CommandLogRecord) (i : Z) : bool :=
  match log_schedule_id l with
  | Some j => j =? i
  | None => false
  end.

(** [if (l.schedule_id === id) l.schedule_id = null] *)
Definition forget_schedule (i : Z) (l : CommandLogRecord) : CommandLogRecord :=
  if refers_to l i
  then {| log_id := log_id l; log_schedule_id := None; log_device_id := log_device_id l;
          log_command := log_command l; log_status := log_status l;
          log_response := log_response l; log_executed_at := log_executed_at l |}
  else l.

(** [deleteSchedule(id)] *)
Definition deleteSchedule (data : DatabaseData) (i : Z) : DatabaseData :=
  {| devices := devices data;
     schedules := List.filter (fun s => negb (id s =? i)) (schedules data);
     command_log := map (forget_schedule i) (command_log data);
     nextId_command_log := nextId_command_log data |}.

(** [clearLogs()] *)
Definition clearLogs (data : DatabaseData) : DatabaseData :=
  {| devices := devices data; schedules := schedules data; command_log := [];
     nextId_command_log := nextId_command_log data |}.

(** [getLogsBySchedule], before sorting and slicing: the rows kept by
    [filter(l => l.schedule_id === scheduleId)]. *)
Definition logs_of_schedule (data : DatabaseData) (i : Z) : list CommandLogRecord :=
  List.filter (fun l => refers_to l i) (command_log data).

End Store.

(** ** The handlers of the transport layer that drive the core (handlers.ts) *)

Module Ipc.

Import Database Scheduler.

(** Truthiness of [device.host || device.port] for the fields of a patch. *)
Definition address_given (p : Store.DevicePatch) : bool :=
  match Store.set_dev_host p with
  | Some (String _ _) => true
  | _ =>
      match Store.set_dev_port p with
      | Some n => negb (n =? 0)
      | None => false
      end
  end.

Definition with_pools (st : State) (rpool : Pool.t RossTalk.Client)
    (spool : Pool.t SWP08.Client) : State :=
  {| db := db st; jobs := jobs st; timers := timers st; next_job := next_job st;
     rossTalkPool := rpool; swp08Pool := spool; sent := sent st |}.

(** ['devices:update']: the record returned ([None] is [null]) or the
    [TypeError] thrown when the address is given for a device that does not
    exist, and the state afterwards. *)
Definition devices_update (i : Z) (p : Store.DevicePatch) (st : State)
  : Completion (option DeviceRecord) * State :=
  let st1 := with_db st (Store.updateDevice (db st) i p) in
  let updated := getDevice (db st1) i in
  if address_given p then
    match getDevice (db st1) i with
    | Some d =>
        match dev_type d with
        | xpression =>
            (Returned updated,
             with_pools st1 (Pool.disconnect i (rossTalkPool st1)) (swp08Pool st1))
        | ultrix =>
            (Returned updated,
             with_pools st1 (rossTalkPool st1) (Pool.disconnect i (swp08Pool st1)))
        end
    | None => (Thrown "Cannot read properties of null (reading 'type')", st1)
    end
  else (Returned updated, st1).

(** ['devices:delete'] *)
Definition devices_delete (i : Z) (st : State) : State :=
  let st1 :=
    match getDevice (db st) i with
    | Some device =>
        match dev_type device with
        | xpression => with_pools st (Pool.disconnect i (rossTalkPool st)) (swp08Pool st)
        | ultrix => with_pools st (rossTalkPool st) (Pool.disconnect i (swp08Pool st))
        end
    | None => st
    end in
  with_db st1 (Store.deleteDevice (db st1) i).

Section WithRuntime.
Context `{Runtime}.

(** ['commands:sendTake'] at the instant [now], the link answering [io]. *)
Definition commands_sendTake (deviceId tid : Z) (io : Outcome string) (now : Z)
    (st : State) : Result * State :=
  match getDevice (db st) deviceId with
  | None => ({| success := false; message := "Device not found" |}, st)
  | Some device =>
      match dev_type device with
      | ultrix => ({| success := false; message := "Device is not an Xpression" |}, st)
      | xpression =>
          let '(result, pool) :=
            RossTalkPool_sendTake deviceId (dev_host device) (dev_port device) tid io
                                  (rossTalkPool st) in
          let '(_, db1) :=
            createLog (db st)
              {| entry_schedule_id := None;
                 entry_device_id := deviceId;
                 entry_command := ("TAKE " ++ Js.num_to_string tid)%string;
                 entry_status := if success result then status_success else status_error;
                 entry_response := Some (message result) |}
              (toISOString now) in
          (result,
           {| db := db1; jobs := jobs st; timers := timers st; next_job := next_job st;
              rossTalkPool := pool; swp08Pool := swp08Pool st; sent := sent st |})
      end
  end.

(** ['schedules:delete'] *)
Definition schedules_delete (i : Z) (st : State) : State :=
  let st1 := cancelJob i st in
  with_db st1 (Store.deleteSchedule (db st1) i).

(** ['schedules:toggle'] *)
Definition schedules_toggle (i : Z) (on : bool) (now : Z) (st : State) : State :=
  let st1 := with_db st (Database.updateSchedule (db st) i (patch_enabled on)) in
  if on then enableSchedule i now st1 else disableSchedule i st1.

End WithRuntime.

End Ipc.

(** ** A device that moves while its link is pooled *)

Module IpcFixture.

Import Database Scheduler.

(** The Xpression moves to [10.0.0.9]. *)
Definition new_host : Store.DevicePatch :=
  {| Store.set_dev_name := None; Store.set_dev_type := None;
     Store.set_dev_host := Some "10.0.0.9"%string;
     Store.set_dev_port := None; Store.set_dev_enabled := None |}.

(** The scheduler after one manual take on the Xpression. *)
Definition linked : State :=
  snd (Ipc.commands_sendTake (H := Fixture.runtime) 1 7 (Failed "Command timeout"%string) 0
                             (initial Fixture.data)).

End IpcFixture.

(** ** Well-formedness of the registries *)

Module Wellformed.

Import Scheduler.

(** Every entry of the job registry refers to a job object made for that
    schedule id. *)
Definition registry_sound (st : State) : Prop :=
  forall sid job, jobs st !! sid = Some job ->
    exists j, timers st !! job = Some j
              /\ Database.id (Database.record (job_sched j)) = sid.

(** No two device ids of a pool share a client object, and the objects in
    use were allocated before the next one. *)
Definition pool_ok {C} `{Link C} (pool : Pool.t C) : Prop :=
  (forall d1 d2 ref c1 c2,
      Pool.clients pool !! d1 = Some (ref, c1) ->
      Pool.clients pool !! d2 = Some (ref, c2) -> d1 = d2)
  /\ (forall d ref c, Pool.clients pool !! d = Some (ref, c) -> (ref < Pool.next_ref pool)%nat).

(** The ids of the log rows increase along the log and are below the next
    id to be given. *)
Definition log_ids_ok (data : Database.DatabaseData) : Prop :=
  StronglySorted Z.lt (map Database.log_id (Database.command_log data))
  /\ Forall (fun l => Database.log_id l < Database.nextId_command_log data)
            (Database.command_log data).

End Wellformed.

(** * Properties *)

(** ** Bit-level facts about the number primitives *)

Module JsFacts.

Import Js.

Lemma toUint8_land (x : Z) : toUint8 x = Z.land x 255.
Proof.
  unfold toUint8. change 255 with (Z.ones 8).
  rewrite Z.land_ones by lia. reflexivity.
Qed.

Lemma toUint8_toInt32 (x : Z) : toUint8 (toInt32 x) = toUint8 x.
Proof.
  unfold toUint8, toInt32.
  pose proof (Z.div_mod (x + 2^31) (2^32) ltac:(lia)) as E.
  replace ((x + 2^31) mod 2^32 - 2^31)
    with (x + (- 2^24 * ((x + 2^31) / 2^32)) * 256) by lia.
  apply Z.mod_add. lia.
Qed.

Lemma toUint8_lxor (a b : Z) : toUint8 (Z.lxor a b) = Z.lxor (toUint8 a) (toUint8 b).
Proof.
  rewrite !toUint8_land. apply Z.bits_inj'. intros n Hn.
  rewrite Z.land_spec, !Z.lxor_spec, !Z.land_spec.
  destruct (Z.testbit a n), (Z.testbit b n), (Z.testbit 255 n); reflexivity.
Qed.

Lemma toUint8_xor (a b : Z) : toUint8 (xor a b) = Z.lxor (toUint8 a) (toUint8 b).
Proof.
  unfold xor. rewrite toUint8_toInt32, toUint8_lxor, !toUint8_toInt32. reflexivity.
Qed.

Lemma toInt32_small (x : Z) : - 2^31 <= x < 2^31 -> toInt32 x = x.
Proof.
  intros Hx. unfold toInt32. rewrite Z.mod_small; lia.
Qed.

(** [x & 0x7F] keeps the seven low bits of [x]. *)
Lemma and_0x7F (x : Z) : and x 0x7F = Z.land x 127.
Proof.
  unfold and. rewrite (toInt32_small 127) by lia.
  assert (R : 0 <= Z.land (toInt32 x) 127 < 128).
  { change 127 with (Z.ones 7). rewrite Z.land_ones by lia.
    apply Z.mod_pos_bound. lia. }
  rewrite toInt32_small by lia.
  change 127 with (Z.ones 7). rewrite !Z.land_ones by lia.
  unfold toInt32.
  pose proof (Z.div_mod (x + 2^31) (2^32) ltac:(lia)) as E.
  replace ((x + 2^31) mod 2^32 - 2^31)
    with (x + (- 2^25 * ((x + 2^31) / 2^32)) * 2^7) by lia.
  apply Z.mod_add. lia.
Qed.

Lemma and_0x7F_range (x : Z) : 0 <= and x 0x7F < 128.
Proof.
  rewrite and_0x7F. change 127 with (Z.ones 7). rewrite Z.land_ones by lia.
  apply Z.mod_pos_bound. lia.
Qed.

Lemma toUint8_small (x : Z) : 0 <= x < 256 -> toUint8 x = x.
Proof. intros Hx. unfold toUint8. apply Z.mod_small. exact Hx. Qed.

End JsFacts.

(** ** The binary client: command frames *)

Module SWP08Facts.

Import Js JsFacts SWP08.

Lemma msb7_range (v : Z) : 0 <= msb7 v < 128.
Proof. apply and_0x7F_range. Qed.

Lemma lsb7_range (v : Z) : 0 <= lsb7 v < 128.
Proof. apply and_0x7F_range. Qed.

(** The byte left by the checksum loop is the XOR of the bytes that
    [Buffer.from] stores for the data. *)
Lemma checksum_fold (data : list Z) (acc : Z) :
  toUint8 (fold_left (fun checksum byte => xor checksum byte) data acc)
  = Z.lxor (toUint8 acc) (xor_bytes (map toUint8 data)).
Proof.
  revert acc. induction data as [|b data IH]; intros acc; simpl.
  - rewrite Z.lxor_0_r. reflexivity.
  - rewrite IH, toUint8_xor, Z.lxor_assoc. reflexivity.
Qed.

Lemma checksum_byte (data : list Z) :
  toUint8 (checksum_of data) = xor_bytes (map toUint8 data).
Proof.
  unfold checksum_of. rewrite checksum_fold. reflexivity.
Qed.

(** The layout of a built frame. *)
Lemma buildConnectCommand_layout (c : Client) (src dst : Z) :
  buildConnectCommand c src dst
  = [SOM; COMMAND_CONNECT; toUint8 (matrix c); toUint8 (level c);
     msb7 dst; lsb7 dst; msb7 src; lsb7 src;
     toUint8 (checksum_of [COMMAND_CONNECT; matrix c; level c;
                           msb7 dst; lsb7 dst; msb7 src; lsb7 src]);
     EOM; EOM2].
Proof.
  unfold buildConnectCommand, Buffer_from. cbn [map app].
  pose proof (msb7_range dst). pose proof (lsb7_range dst).
  pose proof (msb7_range src). pose proof (lsb7_range src).
  rewrite (toUint8_small (msb7 dst)), (toUint8_small (lsb7 dst)),
          (toUint8_small (msb7 src)), (toUint8_small (lsb7 src)) by lia.
  reflexivity.
Qed.

(** C4. In every frame built by [buildConnectCommand], for any source,
    destination, matrix and level, the byte before EOM is the bitwise XOR of
    exactly the seven payload bytes opcode, matrix, level, destMSB, destLSB,
    srcMSB, srcLSB; SOM, the checksum itself, EOM and EOM2 take no part. *)
Theorem buildConnectCommand_checksum (c : Client) (src dst : Z) :
  let frame := buildConnectCommand c src dst in
  frame = [SOM] ++ frame_payload frame ++ [frame_checksum frame; EOM; EOM2]
  /\ frame_payload frame
     = [COMMAND_CONNECT; toUint8 (matrix c); toUint8 (level c);
        msb7 dst; lsb7 dst; msb7 src; lsb7 src]
  /\ frame_checksum frame = xor_bytes (frame_payload frame).
Proof.
  cbv zeta. rewrite buildConnectCommand_layout.
  unfold frame_payload, frame_checksum. cbn [skipn firstn nth app].
  repeat split.
  rewrite checksum_byte. cbn [map].
  pose proof (msb7_range dst). pose proof (lsb7_range dst).
  pose proof (msb7_range src). pose proof (lsb7_range src).
  rewrite (toUint8_small (msb7 dst)), (toUint8_small (lsb7 dst)),
          (toUint8_small (msb7 src)), (toUint8_small (lsb7 src)) by lia.
  reflexivity.
Qed.

(** For a value of 14 bits the two groups are its high and low seven bits. *)
Lemma msb7_in_range (v : Z) : 0 <= v <= 16383 -> msb7 v = Z.shiftr v 7.
Proof.
  intros Hv. unfold msb7, shr. rewrite and_0x7F, toInt32_small by lia.
  change 127 with (Z.ones 7). rewrite Z.land_ones by lia.
  apply Z.mod_small. rewrite Z.shiftr_div_pow2 by lia.
  split; [apply Z.div_pos; lia | apply Z.div_lt_upper_bound; lia].
Qed.

Lemma lsb7_in_range (v : Z) : lsb7 v = Z.land v 127.
Proof. apply and_0x7F. Qed.

Lemma recombine_split (v : Z) :
  0 <= v <= 16383 -> recombine (msb7 v) (lsb7 v) = v.
Proof.
  intros Hv. unfold recombine. rewrite msb7_in_range, lsb7_in_range by exact Hv.
  apply Z.bits_inj'. intros n Hn.
  rewrite Z.lor_spec, Z.land_spec.
  change 127 with (Z.ones 7).
  destruct (Z.ltb_spec n 7) as [Hlt|Hge].
  - rewrite Z.shiftl_spec_low by lia.
    rewrite Z.ones_spec_low by lia.
    rewrite andb_true_r. reflexivity.
  - rewrite Z.shiftl_spec by lia.
    rewrite Z.shiftr_spec by lia.
    rewrite Z.ones_spec_high by lia.
    rewrite andb_false_r, orb_false_r.
    f_equal. lia.
Qed.

(** C5. For every value from 0 to 16383, the MSB/LSB split made by the
    command builder recombines, as [(MSB << 7) | LSB], to the value itself,
    both for the destination bytes and for the source bytes of the frame. *)
Theorem split_recombine_roundtrip (c : Client) (src dst : Z) :
  0 <= src <= 16383 ->
  0 <= dst <= 16383 ->
  let frame := buildConnectCommand c src dst in
  recombine (msb7 dst) (lsb7 dst) = dst
  /\ recombine (msb7 src) (lsb7 src) = src
  /\ recombine (nth 4 frame 0) (nth 5 frame 0) = dst
  /\ recombine (nth 6 frame 0) (nth 7 frame 0) = src.
Proof.
  intros Hs Hd. cbv zeta. rewrite buildConnectCommand_layout. cbn [nth].
  rewrite !recombine_split by assumption. repeat split.
Qed.

Lemma split_recombine_roundtrip_witness :
  let frame := buildConnectCommand (new "10.0.0.5" 2000) 300 16383 in
  recombine (msb7 16383) (lsb7 16383) = 16383
  /\ recombine (msb7 300) (lsb7 300) = 300
  /\ recombine (nth 4 frame 0) (nth 5 frame 0) = 16383
  /\ recombine (nth 6 frame 0) (nth 7 frame 0) = 300.
Proof.
  apply (split_recombine_roundtrip (new "10.0.0.5" 2000) 300 16383); lia.
Defined.

End SWP08Facts.

(** ** The binary client: response framing *)

Module SWP08ParserFacts.

Import SWP08.

Lemma find_end_bound (l : list Z) (i k : nat) :
  find_end l i = Some k -> (i <= k /\ k + 2 <= i + length l)%nat.
Proof.
  revert i. induction l as [|x l IH]; intros i; [discriminate|].
  destruct l as [|y l]; [discriminate|].
  cbn [find_end]. destruct ((x =? EOM) && (y =? EOM2)).
  - intros [= <-]. cbn [length]. lia.
  - intros Hk. apply IH in Hk. cbn [length] in *. lia.
Qed.

(** A pair found in a buffer is still the first pair once more bytes have
    arrived. *)
Lemma find_end_app (l q : list Z) (i k : nat) :
  find_end l i = Some k -> find_end (l ++ q) i = Some k.
Proof.
  revert i. induction l as [|x l IH]; intros i; [discriminate|].
  destruct l as [|y l]; [discriminate|].
  cbn [find_end app]. destruct ((x =? EOM) && (y =? EOM2)); [trivial|].
  intros Hk. apply (IH (S i)) in Hk. exact Hk.
Qed.

Lemma processResponse_at_most_one (buf : list Z) :
  (length (fst (processResponse buf)) <= 1)%nat.
Proof.
  unfold processResponse.
  destruct (indexOf SOM buf) as [startIdx|]; [|cbn; lia].
  destruct (find_end _ _); cbn; lia.
Qed.

Section Fragmentation.

(** A frame [SOM, body, EOM, EOM2] whose first EOM, EOM2 pair after SOM is
    its last two bytes. *)
Variable body : list Z.
Let frame := SOM :: body ++ [EOM; EOM2].
Hypothesis first_end : find_end (body ++ [EOM; EOM2]) 1 = Some (S (length body)).

Lemma processResponse_whole : processResponse frame = ([frame], []).
Proof.
  unfold processResponse, frame. cbn [indexOf]. change (SOM =? SOM) with true.
  cbn iota. cbn [skipn]. rewrite skipn_O, first_end. unfold subarray. rewrite skipn_O.
  replace (S (length body) + 2 - 0)%nat with (length (SOM :: body ++ [EOM; EOM2]))
    by (cbn [length]; rewrite length_app; cbn [length]; lia).
  rewrite firstn_all. f_equal.
  replace (S (length body) + 2)%nat with (length (SOM :: body ++ [EOM; EOM2]))
    by (cbn [length]; rewrite length_app; cbn [length]; lia).
  apply skipn_all.
Qed.

Lemma processResponse_partial (pre rest : list Z) :
  pre ++ rest = frame -> rest <> [] -> processResponse pre = ([], pre).
Proof.
  intros E Hrest. unfold processResponse.
  destruct pre as [|b pre]; [reflexivity|].
  unfold frame in E. cbn [app] in E. injection E as -> E.
  cbn [indexOf]. change (SOM =? SOM) with true. cbn iota. cbn [skipn].
  rewrite skipn_O.
  destruct (find_end pre 1) as [k|] eqn:Hk; [|reflexivity].
  exfalso.
  pose proof (find_end_bound _ _ _ Hk) as [_ Hb].
  apply (find_end_app _ rest) in Hk. rewrite E, first_end in Hk.
  injection Hk as <-.
  apply (f_equal (@length Z)) in E. rewrite !length_app in E. cbn [length] in E.
  destruct rest; [congruence|]. cbn [length] in E. lia.
Qed.

Lemma deliver_nothing (c : Client) (chunks : list (list Z)) :
  responseBuffer c = [] -> concat chunks = [] ->
  fst (deliver c chunks) = [] /\ responseBuffer (snd (deliver c chunks)) = [].
Proof.
  revert c. induction chunks as [|data chunks IH]; intros c Hc Hnil; [auto|].
  cbn [concat] in Hnil. apply app_eq_nil in Hnil as [-> Hnil].
  cbn [deliver]. unfold onData. rewrite Hc. cbn [app processResponse indexOf].
  specialize (IH {| host := host c; port := port c; matrix := matrix c;
                    level := level c; connected := connected c;
                    responseBuffer := [] |} eq_refl Hnil).
  destruct (deliver _ chunks) as [e2 c2]. exact IH.
Qed.

(** Delivered in any number of chunks to a client whose buffer holds the
    part received so far, the frame is emitted exactly once, whole, and the
    buffer is left empty. *)
Lemma deliver_fragments (c : Client) (chunks : list (list Z)) :
  responseBuffer c ++ concat chunks = frame ->
  concat chunks <> [] ->
  fst (deliver c chunks) = [frame] /\ responseBuffer (snd (deliver c chunks)) = [].
Proof.
  revert c. induction chunks as [|data chunks IH]; intros c E Hne; [contradiction|].
  cbn [concat] in E. cbn [deliver]. unfold onData.
  destruct (concat chunks) as [|b tl] eqn:Hrest.
  - rewrite app_nil_r in E. rewrite E, processResponse_whole.
    pose proof (deliver_nothing
                  {| host := host c; port := port c; matrix := matrix c;
                     level := level c; connected := connected c;
                     responseBuffer := [] |} chunks eq_refl Hrest) as [H1 H2].
    destruct (deliver _ chunks) as [e2 c2]. cbn [fst snd] in *.
    rewrite H1. auto.
  - rewrite app_assoc in E.
    rewrite (processResponse_partial (responseBuffer c ++ data) (b :: tl) E)
      by discriminate.
    specialize (IH {| host := host c; port := port c; matrix := matrix c;
                      level := level c; connected := connected c;
                      responseBuffer := responseBuffer c ++ data |}).
    cbn [responseBuffer] in IH.
    destruct (deliver _ chunks) as [e2 c2]. cbn [fst snd app] in *.
    apply IH; [exact E | discriminate].
Qed.

End Fragmentation.

(** C3. One pass of [processResponse] emits at most one response, whatever
    the buffer holds: with two complete frames in the buffer, the first is
    emitted and the buffer is advanced past it, but the second, complete,
    stays in the buffer and is not emitted in that pass. *)
Theorem processResponse_leaves_second_frame :
  let f1 := [0x10; 0x02; 0x02; 0x10; 0x11] in
  let f2 := [0x10; 0x03; 0x03; 0x10; 0x11] in
  (forall buf, (length (fst (processResponse buf)) <= 1)%nat)
  /\ processResponse f1 = ([f1], [])
  /\ processResponse f2 = ([f2], [])
  /\ processResponse (f1 ++ f2) = ([f1], f2)
  /\ fst (onData (new "10.0.0.5" 2000) (f1 ++ f2)) = [f1]
  /\ responseBuffer (snd (onData (new "10.0.0.5" 2000) (f1 ++ f2))) = f2.
Proof.
  cbv zeta. split; [exact processResponse_at_most_one|].
  repeat split; vm_compute; reflexivity.
Qed.

End SWP08ParserFacts.

(** ** The line client: framing of the inbound text *)

Module RossTalkFacts.

Import RossTalk.

Local Open Scope string_scope.

Lemma cons_segment_not_nil (c : ascii) (segs : list string) : cons_segment c segs <> [].
Proof. destruct segs; discriminate. Qed.

Lemma split_crlf_separator (r : string) :
  split_crlf (String "013" (String "010" r)) = EmptyString :: split_crlf r.
Proof. reflexivity. Qed.

Lemma split_crlf_other (c : ascii) (r : string) :
  starts_crlf (String c r) = false ->
  split_crlf (String c r) = cons_segment c (split_crlf r).
Proof.
  destruct r as [|c2 r]; [reflexivity|]. cbn [starts_crlf split_crlf].
  intros ->. reflexivity.
Qed.

Lemma starts_crlf_inv (s : string) :
  starts_crlf s = true -> exists r, s = String "013" (String "010" r).
Proof.
  destruct s as [|c [|c2 r]]; cbn [starts_crlf]; try discriminate.
  intros Hs. apply andb_prop in Hs as [H1 H2].
  apply Ascii.eqb_eq in H1, H2. subst. eauto.
Qed.

Lemma split_crlf_not_nil (s : string) : split_crlf s <> [].
Proof.
  destruct s as [|c r]; [discriminate|].
  destruct (starts_crlf (String c r)) eqn:Hs.
  - apply starts_crlf_inv in Hs as [r' ->]. rewrite split_crlf_separator. discriminate.
  - rewrite (split_crlf_other _ _ Hs). apply cons_segment_not_nil.
Qed.

(** A lone segment of a non-empty text begins with the text's first
    character. *)
Lemma split_crlf_single_head (c : ascii) (r h : string) :
  split_crlf (String c r) = [h] -> exists h', h = String c h'.
Proof.
  destruct (starts_crlf (String c r)) eqn:Hs.
  - apply starts_crlf_inv in Hs as [r' E]. injection E as -> ->.
    rewrite split_crlf_separator. intros [= _ E].
    exfalso. exact (split_crlf_not_nil _ E).
  - rewrite (split_crlf_other _ _ Hs).
    destruct (split_crlf r) as [|seg segs]; cbn [cons_segment]; intros [= <-]; eauto.
Qed.

Lemma removelast_cons {A} (x : A) (l : list A) :
  l <> [] -> removelast (x :: l) = x :: removelast l.
Proof. destruct l; [contradiction | reflexivity]. Qed.

Lemma last_cons {A} (x d : A) (l : list A) :
  l <> [] -> List.last (x :: l) d = List.last l d.
Proof. destruct l; [contradiction | reflexivity]. Qed.

Lemma last_append {A} (l l' : list A) (d : A) :
  l' <> [] -> List.last (l ++ l') d = List.last l' d.
Proof.
  intros Hl'. induction l as [|x l IH]; [reflexivity|].
  cbn [app]. rewrite last_cons; [exact IH|].
  destruct l; [exact Hl' | discriminate].
Qed.

Lemma string_app_cons (c : ascii) (r b : string) : String c r ++ b = String c (r ++ b).
Proof. reflexivity. Qed.

Lemma string_app_nil_l (b : string) : EmptyString ++ b = b.
Proof. reflexivity. Qed.

(** Splitting a text that arrives in two parts: the complete segments of
    the first part, then the split of what the first part left over followed
    by the second part. *)
Lemma split_crlf_app (a b : string) :
  split_crlf (a ++ b)
  = (pop_rest (split_crlf a) ++ split_crlf (pop_last (split_crlf a) ++ b))%list.
Proof.
  unfold pop_rest, pop_last.
  remember (String.length a) as n eqn:Hn.
  revert a Hn b. induction n as [n IH] using lt_wf_ind. intros a Hn b.
  destruct a as [|c r]; [reflexivity|].
  destruct r as [|c2 r2]; [reflexivity|].
  destruct (starts_crlf (String c (String c2 r2))) eqn:Hs.
  - apply starts_crlf_inv in Hs as [r' E]. injection E as -> -> ->.
    rewrite !string_app_cons, !split_crlf_separator.
    rewrite (IH (String.length r') ltac:(cbn [String.length] in Hn; lia) r' eq_refl).
    rewrite removelast_cons, last_cons by apply split_crlf_not_nil.
    reflexivity.
  - rewrite (split_crlf_other _ _ Hs).
    rewrite (string_app_cons c), split_crlf_other
      by (rewrite string_app_cons; exact Hs).
    rewrite (IH (String.length (String c2 r2)) ltac:(cbn [String.length] in *; lia)
                (String c2 r2) eq_refl).
    destruct (split_crlf (String c2 r2)) as [|h [|h2 t]] eqn:Hr.
    + exfalso. exact (split_crlf_not_nil _ Hr).
    + apply split_crlf_single_head in Hr as [h' ->].
      cbn [cons_segment removelast List.last app].
      rewrite !string_app_cons.
      symmetry. apply split_crlf_other. exact Hs.
    + reflexivity.
Qed.

(** The complete segments with their terminators, followed by the retained
    tail, are the text itself. *)
Lemma split_crlf_rebuild (s : string) :
  terminated (pop_rest (split_crlf s)) ++ pop_last (split_crlf s) = s.
Proof.
  unfold pop_rest, pop_last.
  remember (String.length s) as n eqn:Hn.
  revert s Hn. induction n as [n IH] using lt_wf_ind. intros s Hn.
  destruct s as [|c r]; [reflexivity|].
  destruct (starts_crlf (String c r)) eqn:Hs.
  - apply starts_crlf_inv in Hs as [r' E]. injection E as -> ->.
    rewrite split_crlf_separator.
    rewrite removelast_cons, last_cons by apply split_crlf_not_nil.
    cbn [terminated fold_right]. fold (terminated (removelast (split_crlf r'))).
    rewrite string_app_nil_l, !string_app_cons.
    rewrite (IH (String.length r') ltac:(cbn [String.length] in Hn; lia) r' eq_refl).
    reflexivity.
  - rewrite (split_crlf_other _ _ Hs).
    specialize (IH (String.length r) ltac:(cbn [String.length] in Hn; lia) r eq_refl).
    destruct (split_crlf r) as [|h [|h2 t]] eqn:Hr.
    + exfalso. exact (split_crlf_not_nil _ Hr).
    + cbn [cons_segment removelast List.last terminated fold_right] in IH |- *.
      rewrite string_app_nil_l in IH |- *. rewrite IH. reflexivity.
    + cbn [cons_segment]. rewrite removelast_cons, last_cons in IH |- * by discriminate.
      cbn [terminated fold_right] in IH |- *.
      fold (terminated (removelast (h2 :: t))) in IH |- *.
      rewrite !string_app_cons. rewrite IH. reflexivity.
Qed.

Lemma emit_lines_app (l1 l2 : list string) :
  emit_lines (l1 ++ l2) = (emit_lines l1 ++ emit_lines l2)%list.
Proof. unfold emit_lines. rewrite filter_app, map_app. reflexivity. Qed.

Lemma emit_lines_truthy (lines : list string) :
  Forall (fun line => truthy line = true) (emit_lines lines).
Proof.
  unfold emit_lines. induction lines as [|x lines IH]; [constructor|].
  rewrite filter_cons. destruct (decide _) as [Hx|Hx]; [|exact IH].
  cbn [map]. constructor; [|exact IH].
  destruct (truthy (trim x)); [reflexivity | contradiction].
Qed.

Lemma received_cons (data : string) (chunks : list string) :
  received (data :: chunks) = data ++ received chunks.
Proof. reflexivity. Qed.

Lemma string_app_assoc (a b c : string) : (a ++ b) ++ c = a ++ (b ++ c).
Proof.
  induction a as [|x a IH]; [reflexivity|].
  rewrite !string_app_cons, IH. reflexivity.
Qed.

Lemma string_app_nil_r (a : string) : a ++ EmptyString = a.
Proof.
  induction a as [|x a IH]; [reflexivity|].
  rewrite string_app_cons, IH. reflexivity.
Qed.

Lemma pop_rest_app (l l' : list string) :
  l' <> [] -> pop_rest (l ++ l') = (l ++ pop_rest l')%list.
Proof. intros Hl'. unfold pop_rest. apply removelast_app. exact Hl'. Qed.

(** What [pop] retains holds no complete segment. *)
Lemma split_crlf_retained (s : string) :
  split_crlf (pop_last (split_crlf s)) = [pop_last (split_crlf s)].
Proof.
  unfold pop_last.
  remember (String.length s) as n eqn:Hn.
  revert s Hn. induction n as [n IH] using lt_wf_ind. intros s Hn.
  destruct s as [|c r]; [reflexivity|].
  destruct (starts_crlf (String c r)) eqn:Hs.
  - apply starts_crlf_inv in Hs as [r' E]. injection E as -> ->.
    rewrite split_crlf_separator, last_cons by apply split_crlf_not_nil.
    apply (IH (String.length r')); [cbn [String.length] in Hn; lia | reflexivity].
  - rewrite (split_crlf_other _ _ Hs).
    specialize (IH (String.length r) ltac:(cbn [String.length] in Hn; lia) r eq_refl).
    destruct (split_crlf r) as [|h [|h2 t]] eqn:Hr.
    + exfalso. exact (split_crlf_not_nil _ Hr).
    + cbn [cons_segment List.last] in IH |- *.
      rewrite split_crlf_other, IH; [reflexivity|].
      destruct r as [|c2 r2].
      * cbn in Hr. injection Hr as <-. reflexivity.
      * apply split_crlf_single_head in Hr as [h' ->]. exact Hs.
    + cbn [cons_segment]. rewrite last_cons in IH |- * by discriminate. exact IH.
Qed.

(** Handling the chunks one ['data'] event at a time is handling the whole
    text at once, for a client whose buffer holds no complete segment. *)
Lemma deliver_whole (c : Client) (chunks : list string) :
  split_crlf (responseBuffer c) = [responseBuffer c] ->
  fst (deliver c chunks)
  = emit_lines (pop_rest (split_crlf (responseBuffer c ++ received chunks)))
  /\ responseBuffer (snd (deliver c chunks))
     = pop_last (split_crlf (responseBuffer c ++ received chunks)).
Proof.
  revert c. induction chunks as [|data chunks IH]; intros c Hc.
  - cbn [deliver received fold_right fst snd]. rewrite string_app_nil_r, Hc.
    split; reflexivity.
  - rewrite received_cons. cbn [deliver]. unfold onData.
    specialize (IH {| host := host c; port := port c; connected := connected c;
                      responseBuffer := pop_last (split_crlf (responseBuffer c ++ data)) |}
                   (split_crlf_retained _)).
    cbn [responseBuffer] in IH. destruct IH as [IH1 IH2].
    destruct (deliver _ chunks) as [e2 c2]. cbn [fst snd] in *.
    rewrite <- string_app_assoc.
    rewrite (split_crlf_app (responseBuffer c ++ data) (received chunks)).
    rewrite pop_rest_app by apply split_crlf_not_nil.
    rewrite emit_lines_app, IH1. split; [reflexivity|].
    rewrite IH2. unfold pop_last at 1 3. rewrite last_append by apply split_crlf_not_nil.
    reflexivity.
Qed.

(** Once connected, the binary client still has its ['data'] listener; the
    line client has none. *)
Lemma data_listener_after_connect :
  Socket.has_listener Socket.ev_data
    (Socket.on_connect Socket.cleanup_swp08 Socket.registered) = true
  /\ Socket.has_listener Socket.ev_data
       (Socket.on_connect Socket.cleanup_rosstalk Socket.registered) = false.
Proof. split; reflexivity. Qed.

(** The body of the ['data'] listener, over any sequence of chunks given to
    it on a new client: the complete CRLF-terminated segments of the text,
    followed by the retained tail, are that text; the ['response'] events
    are, in order, those segments that are not blank, each trimmed; the
    partial trailing segment stays in the buffer. *)
Lemma listener_body_emits_trimmed_lines (h : string) (p : Z) (chunks : list string) :
  let segments := split_crlf (received chunks) in
  terminated (pop_rest segments) ++ pop_last segments = received chunks
  /\ fst (deliver (new h p) chunks)
     = map trim (filter (fun line => truthy (trim line)) (pop_rest segments))
  /\ Forall (fun line => truthy line = true) (fst (deliver (new h p) chunks))
  /\ responseBuffer (snd (deliver (new h p) chunks)) = pop_last segments.
Proof.
  cbv zeta.
  pose proof (deliver_whole (new h p) chunks eq_refl) as [He Hb].
  cbn [new responseBuffer] in He, Hb. rewrite string_app_nil_l in He, Hb.
  split; [apply split_crlf_rebuild|].
  split; [exact He|].
  split; [rewrite He; apply emit_lines_truthy|].
  exact Hb.
Qed.

(** On the socket of a connected client no chunk reaches the listener. *)
Lemma dispatch_connected (c : Client) (chunks : list string) :
  dispatch socket_listeners c chunks = ([], c).
Proof. reflexivity. Qed.

(** C9. The line client never emits a ['response'] once it is connected,
    and [sendCommand] never returns a line.  [connect] registers the
    ['data'] listener, and that listener, given the text [OK] CRLF, would
    emit the line [OK]; but the ['connect'] handler runs [cleanup], which
    for this client removes every listener of the socket (the binary client
    keeps its ['data'] listener).  So whatever chunks arrive on a connected
    client, no event is emitted and nothing is retained in the buffer; the
    promise of [sendCommand] is rejected for every client, command and
    arrival, with [Command timeout] whenever the connection is up and the
    write went through.  For a device that accepts the connection and
    answers [TAKE 1] with [OK] CRLF: the command is written, the answer is
    dropped, and the promise is rejected with [Command timeout]. *)
Theorem connected_client_emits_no_response :
  let answer := "OK" ++ String "013" (String "010" EmptyString) in
  let client := new "10.0.0.7" 7788 in
  Socket.has_listener Socket.ev_data Socket.registered = true
  /\ fst (onData client answer) = ["OK"]
  /\ Socket.has_listener Socket.ev_data socket_listeners = false
  /\ Socket.has_listener Socket.ev_data
       (Socket.on_connect Socket.cleanup_swp08 Socket.registered) = true
  /\ (forall c chunks,
        fst (dispatch socket_listeners c chunks) = []
        /\ responseBuffer (snd (dispatch socket_listeners c chunks)) = responseBuffer c)
  /\ (forall c command link write_error arrivals response,
        snd (fst (sendCommand c command link write_error arrivals)) <> Responded response)
  /\ (forall c command link arrivals,
        connected c = true \/ link = Responded tt ->
        snd (fst (sendCommand c command link None arrivals)) = Failed "Command timeout")
  /\ sendCommand client "TAKE 1" (Responded tt) None [answer]
     = (Some ("TAKE 1" ++ String "013" (String "010" EmptyString)),
        Failed "Command timeout",
        {| host := "10.0.0.7"; port := 7788; connected := true;
           responseBuffer := EmptyString |}).
Proof.
  cbv zeta.
  split; [reflexivity|]. split; [vm_compute; reflexivity|].
  split; [reflexivity|]. split; [reflexivity|].
  split; [intros c chunks; rewrite dispatch_connected; split; reflexivity|].
  split.
  { intros c command link write_error arrivals response. unfold sendCommand.
    destruct (if connected c then Responded tt else link) as [[]|m]; [|discriminate].
    rewrite dispatch_connected. cbn [fst snd awaitResponse].
    destruct write_error; discriminate. }
  split; [|vm_compute; reflexivity].
  intros c command link arrivals Hup. unfold sendCommand.
  assert (E : (if connected c then Responded tt else link) = Responded tt).
  { destruct Hup as [-> | ->]; [reflexivity | destruct (connected c); reflexivity]. }
  rewrite E, dispatch_connected. reflexivity.
Qed.

End RossTalkFacts.

(** ** The link pools *)

Module PoolFacts.

Import Pool.

Section WithClient.
Context {C : Type} `{Link C}.

(** No method of a client assigns its [host] or [port]. *)
Hypothesis perform_host : forall q c, link_host (snd (link_perform q c)) = link_host c.
Hypothesis perform_port : forall q c, link_port (snd (link_perform q c)) = link_port c.
Hypothesis new_address : forall h p, link_host (link_new h p) = h /\ link_port (link_new h p) = p.







End WithClient.


Lemma RossTalk_perform_address (q : RossTalkLink.Request) (c : RossTalk.Client) :
  RossTalk.host (snd (RossTalkLink.perform q c)) = RossTalk.host c
  /\ RossTalk.port (snd (RossTalkLink.perform q c)) = RossTalk.port c.
Proof. destruct q as [tid [r|m]|[r|m]]; split; reflexivity. Qed.



End PoolFacts.

(** ** The record store *)

Module DatabaseFacts.

Import Database.

Lemma apply_patch_id (p : SchedulePatch) (s : ScheduleRecord) : id (apply_patch p s) = id s.
Proof. reflexivity. Qed.

Lemma find_update_first (i i' : Z) (p : SchedulePatch) (l : list ScheduleRecord) :
  find (fun s => id s =? i') (update_first i p l)
  = if i' =? i then apply_patch p <$> find (fun s => id s =? i') l
    else find (fun s => id s =? i') l.
Proof.
  induction l as [|s l IH]; cbn [update_first find].
  - destruct (i' =? i); reflexivity.
  - destruct (Z.eqb_spec (id s) i) as [Hi|Hi].
    + cbn [find]. rewrite apply_patch_id.
      destruct (Z.eqb_spec i' i) as [->|Hne].
      * rewrite Hi, Z.eqb_refl. reflexivity.
      * destruct (Z.eqb_spec (id s) i'); [congruence | reflexivity].
    + cbn [find]. destruct (Z.eqb_spec (id s) i') as [Hi'|Hi'].
      * destruct (Z.eqb_spec i' i); [congruence | reflexivity].
      * exact IH.
Qed.

(** Reading a schedule back after [updateSchedule]. *)
Lemma getSchedule_updateSchedule (data : DatabaseData) (i i' : Z) (p : SchedulePatch) :
  getSchedule (updateSchedule data i p) i'
  = if i' =? i then apply_patch p <$> getSchedule data i' else getSchedule data i'.
Proof. unfold getSchedule, updateSchedule. cbn [schedules]. apply find_update_first. Qed.

Lemma getSchedule_createLog (data : DatabaseData) (log : LogEntry) (t : string) (i : Z) :
  getSchedule (snd (createLog data log t)) i = getSchedule data i.
Proof. reflexivity. Qed.

Lemma last_slice_last {A} (l : list A) (x d : A) :
  List.last (slice_last 10000 (l ++ [x])) d = x.
Proof.
  unfold slice_last. rewrite length_app. cbn [length].
  rewrite skipn_app.
  replace (Z.to_nat (Z.of_nat (length l + 1) - 10000) - length l)%nat with O by lia.
  rewrite skipn_O. apply last_last.
Qed.

(** The row made by [createLog] is the last row of the log. *)
Lemma createLog_last (data : DatabaseData) (log : LogEntry) (t : string)
    (d : CommandLogRecord) :
  List.last (command_log (snd (createLog data log t))) d = fst (createLog data log t).
Proof.
  unfold createLog. cbn [fst snd command_log].
  destruct (10000 <? _); [apply last_slice_last | apply last_last].
Qed.

End DatabaseFacts.

(** ** The scheduler: the registry of active jobs *)

Module RegistryFacts.

Import Database Scheduler.

Lemma cancel_idem (j : Job) : cancel (cancel j) = cancel j.
Proof. reflexivity. Qed.

(** [live] reads the job objects only. *)
Lemma live_timers (st st' : State) (job : nat) (sid : Z) :
  timers st' = timers st -> live st' job sid = live st job sid.
Proof. unfold live. intros ->. reflexivity. Qed.

Lemma live_lookup (st : State) (job : nat) (sid : Z) :
  live st job sid = true <->
  exists j t, timers st !! job = Some j /\ pending j = Some t
              /\ id (record (job_sched j)) = sid.
Proof.
  unfold live. split.
  - destruct (timers st !! job) as [j|]; [|discriminate].
    destruct (pending j) as [t|] eqn:Hp; [|discriminate].
    intros Hid. apply Z.eqb_eq in Hid. eauto.
  - intros (j & t & -> & -> & Hid). apply Z.eqb_eq. exact Hid.
Qed.

(** A state with the same registry and job objects. *)
Lemma registry_ok_same (st st' : State) :
  jobs st' = jobs st -> timers st' = timers st -> next_job st' = next_job st ->
  registry_ok st -> registry_ok st'.
Proof.
  intros Hj Ht Hn (Hlive & Hfresh & Hreg). split; [|split].
  - intros job sid Hl. rewrite Hj. apply Hlive.
    rewrite <- (live_timers st st' job sid Ht). exact Hl.
  - intros job. rewrite Ht, Hn. apply Hfresh.
  - intros sid job. rewrite Hj, Hn. apply Hreg.
Qed.

Lemma registry_ok_initial (data : DatabaseData) : registry_ok (initial data).
Proof.
  split; [|split].
  - intros job sid. unfold live, initial. cbn [timers].
    rewrite lookup_empty. discriminate.
  - intros job. unfold initial. cbn [timers]. rewrite lookup_empty.
    intros [x Hx]. discriminate.
  - intros sid job. unfold initial. cbn [jobs]. rewrite lookup_empty. discriminate.
Qed.

Section WithRuntime.
Context `{Runtime}.

(** After [cancelJob(scheduleId)] no timer of that schedule is live. *)
Lemma cancelJob_not_live (st : State) (sid : Z) (job : nat) :
  registry_ok st -> live (cancelJob sid st) job sid = false.
Proof.
  intros (Hlive & _ & _). unfold cancelJob.
  destruct (jobs st !! sid) as [old|] eqn:Hold.
  - destruct (live _ job sid) eqn:Hl; [|reflexivity]. exfalso.
    apply live_lookup in Hl as (j & t & Hj & Hp & Hid). cbn [timers] in Hj.
    rewrite lookup_alter in Hj. destruct (decide (old = job)) as [->|Hne].
    + destruct (timers st !! job) as [j0|]; [|discriminate].
      injection Hj as <-. discriminate.
    + assert (Hl : live st job sid = true) by (apply live_lookup; eauto).
      apply Hlive in Hl. congruence.
  - destruct (live st job sid) eqn:Hl; [|reflexivity].
    apply Hlive in Hl. congruence.
Qed.

Lemma cancelJob_ok (st : State) (sid : Z) : registry_ok st -> registry_ok (cancelJob sid st).
Proof.
  intros Hok. pose proof Hok as (Hlive & Hfresh & Hreg). unfold cancelJob.
  destruct (jobs st !! sid) as [old|] eqn:Hold; [|exact Hok].
  split; [|split]; cbn [jobs timers next_job].
  - intros job sid' Hl.
    apply live_lookup in Hl as (j & t & Hj & Hp & Hid). cbn [timers] in Hj.
    rewrite lookup_alter in Hj. destruct (decide (old = job)) as [->|Hne].
    + destruct (timers st !! job) as [j0|]; [|discriminate].
      injection Hj as <-. discriminate.
    + assert (Hl : live st job sid' = true) by (apply live_lookup; eauto).
      apply Hlive in Hl.
      rewrite lookup_delete_ne; [exact Hl | congruence].
  - intros job Hjob. apply lookup_alter_is_Some in Hjob. apply Hfresh. exact Hjob.
  - intros sid' job Hjob. apply lookup_delete_Some in Hjob as [_ Hjob].
    apply (Hreg sid'). exact Hjob.
Qed.

(** The job made by [scheduleJob] runs the schedule it was made for and
    has a next invocation. *)
Lemma make_job_inv (sched : ScheduleData) (now : Z) (j : Job) :
  make_job sched now = Some j ->
  job_sched j = sched /\ exists t, pending j = Some t.
Proof.
  unfold make_job, schedule_cron, schedule_date.
  destruct (is_recurring _ && truthy _).
  - destruct (cron_expression (record sched)) as [e|]; [|discriminate].
    destruct (cron_next e now) as [t|]; [|discriminate].
    intros [= <-]. cbn. eauto.
  - destruct (is_once _ && truthy _); [|discriminate].
    destruct (run_at (record sched)) as [text|]; [|discriminate].
    destruct (Date_parse text) as [runDate|]; [|discriminate].
    destruct (now <? runDate); [|discriminate].
    destruct (now <=? runDate); [|discriminate].
    intros [= <-]. cbn. eauto.
Qed.

(** Registering a fresh job object for a schedule that has no live timer. *)
Lemma install_ok (st1 : State) (sched : ScheduleData) (j : Job) :
  registry_ok st1 ->
  (forall job, live st1 job (id (record sched)) = false) ->
  job_sched j = sched ->
  registry_ok
    {| db := db st1;
       jobs := <[id (record sched) := next_job st1]> (jobs st1);
       timers := <[next_job st1 := j]> (timers st1);
       next_job := S (next_job st1);
       rossTalkPool := rossTalkPool st1; swp08Pool := swp08Pool st1;
       sent := sent st1 |}.
Proof.
  intros (Hlive & Hfresh & Hreg) Hnot Hs. split; [|split]; cbn [jobs timers next_job].
  - intros job sid Hl.
    apply live_lookup in Hl as (j' & t' & Hj' & Hp' & Hid). cbn [timers] in Hj'.
    destruct (decide (job = next_job st1)) as [->|Hne].
    + rewrite lookup_insert_eq in Hj'. injection Hj' as <-.
      rewrite Hs in Hid. subst sid. apply lookup_insert_eq.
    + rewrite lookup_insert_ne in Hj' by congruence.
      assert (Hl : live st1 job sid = true) by (apply live_lookup; eauto).
      destruct (decide (sid = id (record sched))) as [->|Hsid].
      * rewrite Hnot in Hl. discriminate.
      * rewrite lookup_insert_ne by congruence. apply Hlive. exact Hl.
  - intros job Hjob. destruct (decide (job = next_job st1)) as [->|Hne]; [lia|].
    rewrite lookup_insert_ne in Hjob by congruence. apply Hfresh in Hjob. lia.
  - intros sid job Hjob. destruct (decide (sid = id (record sched))) as [->|Hne].
    + rewrite lookup_insert_eq in Hjob. injection Hjob as <-. lia.
    + rewrite lookup_insert_ne in Hjob by congruence. apply Hreg in Hjob. lia.
Qed.

Lemma scheduleJob_ok (st : State) (sched : ScheduleData) (now : Z) :
  registry_ok st -> registry_ok (scheduleJob sched now st).
Proof.
  intros Hok. unfold scheduleJob.
  pose proof (cancelJob_ok st (id (record sched)) Hok) as Hok1.
  pose proof (fun job => cancelJob_not_live st (id (record sched)) job Hok) as Hnot.
  set (st1 := cancelJob (id (record sched)) st) in *.
  destruct (make_job sched now) as [j|] eqn:Hj; [|exact Hok1].
  apply make_job_inv in Hj as [Hs _].
  pose proof (install_ok st1 sched j Hok1 Hnot Hs) as Hok2.
  destruct (nextInvocation _ _); [|exact Hok2].
  eapply registry_ok_same; [| | |exact Hok2]; reflexivity.
Qed.

Lemma loadSchedules_ok (st : State) (now : Z) : registry_ok st -> registry_ok (loadSchedules now st).
Proof.
  unfold loadSchedules. generalize (getEnabledSchedules (db st)) as l.
  intros l. revert st. induction l as [|sched l IH]; intros st Hok; [exact Hok|].
  cbn [fold_left]. apply IH. apply scheduleJob_ok. exact Hok.
Qed.

Lemma addSchedule_ok (st : State) (sid now : Z) : registry_ok st -> registry_ok (addSchedule sid now st).
Proof.
  intros Hok. unfold addSchedule. destruct (find _ _); [apply scheduleJob_ok|]; exact Hok.
Qed.

(** The pipeline leaves the registry and the job objects alone. *)
Lemma record_run_registry (sched : ScheduleData) (command : string) (result : Result)
    (now : Z) (st : State) :
  let st' := record_run sched command result now st in
  jobs st' = jobs st /\ timers st' = timers st /\ next_job st' = next_job st.
Proof. cbv zeta. unfold record_run. destruct (createLog _ _ _). auto. Qed.

Lemma try_block_registry (sched : ScheduleData) (parsed : Parsed) (net : Net) (st : State) :
  let st' := snd (try_block sched parsed net st) in
  jobs st' = jobs st /\ timers st' = timers st /\ next_job st' = next_job st
  /\ db st' = db st /\ sent st' = sent st.
Proof.
  cbv zeta. unfold try_block.
  destruct (command_type (record sched)).
  - destruct (read parsed takeId _) as [[tid|]|e]; cbn [snd]; auto.
    destruct (RossTalkPool_sendTake _ _ _ _ _ _). cbn. auto.
  - destruct (read parsed source _) as [[src|]|e]; cbn [snd]; auto.
    destruct (read parsed destination _) as [[dst|]|e']; cbn [snd]; auto.
    destruct (SWP08Pool_route _ _ _ _ _ _ _). cbn. auto.
Qed.

Lemma command_and_result_registry (sched : ScheduleData) (parsed : Parsed) (net : Net)
    (st : State) :
  let st' := snd (command_and_result sched parsed net st) in
  jobs st' = jobs st /\ timers st' = timers st /\ next_job st' = next_job st
  /\ db st' = db st /\ sent st' = sent st.
Proof.
  cbv zeta. unfold command_and_result.
  pose proof (try_block_registry sched parsed net st) as Ht. cbv zeta in Ht.
  destruct (try_block sched parsed net st) as [[cr|e] st1]; cbn [snd] in *; [exact Ht|].
  destruct (catch_command sched parsed); exact Ht.
Qed.

Lemma executeCommand_registry (sched : ScheduleData) (net : Net) (now : Z) (st : State) :
  let st' := snd (executeCommand sched net now st) in
  jobs st' = jobs st /\ timers st' = timers st /\ next_job st' = next_job st.
Proof.
  cbv zeta. unfold executeCommand.
  destruct (JSON_parse _) as [e| |cd] eqn:Hp; [auto| |].
  all: match goal with |- context [command_and_result ?s ?p ?n ?t] =>
         pose proof (command_and_result_registry s p n t) as Hc; cbv zeta in Hc;
         destruct (command_and_result s p n t) as [[[command result]|e] st1]
       end; cbn [snd] in *; destruct Hc as (Hj & Ht & Hn & _).
  all: try (pose proof (record_run_registry sched command result now st1) as Hr;
            cbv zeta in Hr; destruct Hr as (Hj' & Ht' & Hn')).
  all: repeat split; congruence.
Qed.

Lemma runNow_registry (sid : Z) (net : Net) (now : Z) (st : State) :
  let st' := snd (runNow sid net now st) in
  jobs st' = jobs st /\ timers st' = timers st /\ next_job st' = next_job st.
Proof.
  cbv zeta. unfold runNow.
  destruct (getSchedule _ _) as [sched|]; [|auto].
  destruct (getDevice _ _) as [device|]; [|auto].
  match goal with |- context [executeCommand ?s ?n ?w ?t] =>
    pose proof (executeCommand_registry s n w t) as He; cbv zeta in He;
    destruct (executeCommand s n w t) as [[u|e] st1]
  end; exact He.
Qed.

(** Replacing a job object by one for the same schedule that is live only
    if the old one was. *)
Lemma replace_job_ok (st : State) (job : nat) (j j' : Job) :
  registry_ok st ->
  timers st !! job = Some j ->
  job_sched j' = job_sched j ->
  (is_Some (pending j') -> is_Some (pending j)) ->
  registry_ok
    {| db := db st; jobs := jobs st; timers := <[job := j']> (timers st);
       next_job := next_job st; rossTalkPool := rossTalkPool st;
       swp08Pool := swp08Pool st; sent := sent st |}.
Proof.
  intros (Hlive & Hfresh & Hreg) Hj Hs Hp. split; [|split]; cbn [jobs timers next_job].
  - intros job0 sid Hl. apply Hlive.
    apply live_lookup in Hl as (j0 & t & Hj0 & Hp0 & Hid). cbn [timers] in Hj0.
    apply live_lookup.
    destruct (decide (job0 = job)) as [->|Hne].
    + rewrite lookup_insert_eq in Hj0. injection Hj0 as <-.
      destruct Hp as [t0 Ht0]; [eauto|]. exists j, t0. rewrite <- Hs. auto.
    + rewrite lookup_insert_ne in Hj0 by congruence. eauto.
  - intros job0 Hjob. apply Hfresh.
    destruct (decide (job0 = job)) as [->|Hne]; [eauto|].
    rewrite lookup_insert_ne in Hjob by congruence. exact Hjob.
  - exact Hreg.
Qed.

Lemma fire_ok (st : State) (job : nat) (net : Net) (now : Z) :
  registry_ok st -> registry_ok (fire job net now st).
Proof.
  intros Hok. unfold fire.
  destruct (timers st !! job) as [j|] eqn:Hj; [|exact Hok].
  destruct (pending j) as [due|] eqn:Hp; [|exact Hok].
  destruct (due <=? now); [|exact Hok].
  destruct (spec j) as [expression|runDate].
  - match goal with |- registry_ok (snd (executeCommand ?s ?n ?w ?t)) =>
      pose proof (executeCommand_registry s n w t) as (Hj' & Ht' & Hn');
      apply (registry_ok_same t _ Hj' Ht' Hn')
    end.
    apply (replace_job_ok st job j); [exact Hok | exact Hj | reflexivity |].
    cbn [pending]. rewrite Hp. eauto.
  - match goal with |- registry_ok (with_db (snd (executeCommand ?s ?n ?w ?t)) _) =>
      pose proof (executeCommand_registry s n w t) as (Hj' & Ht' & Hn');
      apply (registry_ok_same t _ Hj' Ht' Hn')
    end.
    apply (replace_job_ok st job j); [exact Hok | exact Hj | reflexivity |].
    cbn [cancel pending]. intros [x Hx]. discriminate.
Qed.

(** What the loop of [stopAll] leaves of a job object: it is as before or
    cancelled, and cancelled if the registry refers to it. *)
Lemma cancel_all_lookup (registry : gmap Z nat) (objects : gmap nat Job) (job : nat) :
  let objects' := map_fold (fun _ ref t => alter cancel ref t) objects registry in
  (objects' !! job = objects !! job \/ objects' !! job = cancel <$> objects !! job)
  /\ ((exists sid, registry !! sid = Some job) -> objects' !! job = cancel <$> objects !! job).
Proof.
  cbv zeta.
  apply (map_fold_weak_ind
           (fun r m => (r !! job = objects !! job \/ r !! job = cancel <$> objects !! job)
                       /\ ((exists sid, m !! sid = Some job)
                           -> r !! job = cancel <$> objects !! job))).
  - split; [auto|]. intros [sid Hsid]. rewrite lookup_empty in Hsid. discriminate.
  - intros sid ref m r Hm [Hor Hreg]. rewrite lookup_alter.
    destruct (decide (ref = job)) as [->|Hne].
    + assert (Hc : cancel <$> r !! job = cancel <$> objects !! job).
      { destruct Hor as [->| ->]; [reflexivity|].
        destruct (objects !! job); reflexivity. }
      split; [right; exact Hc | intros _; exact Hc].
    + split; [exact Hor|]. intros [sid' Hsid']. apply Hreg.
      destruct (decide (sid' = sid)) as [->|Hs].
      * rewrite lookup_insert_eq in Hsid'. congruence.
      * rewrite lookup_insert_ne in Hsid' by congruence. eauto.
Qed.

Lemma stopAll_ok (st : State) : registry_ok st -> registry_ok (stopAll st).
Proof.
  intros (Hlive & Hfresh & _). split; [|split]; cbn [stopAll jobs timers next_job].
  - intros job sid Hl. exfalso.
    apply live_lookup in Hl as (j & t & Hj & Hp & Hid). cbn [stopAll timers] in Hj.
    pose proof (cancel_all_lookup (jobs st) (timers st) job) as [Hor Hreg].
    cbv zeta in Hor, Hreg.
    assert (Hc : forall o : option Job, cancel <$> o = Some j -> False).
    { intros [j0|] Hj0; [|discriminate]. injection Hj0 as <-. discriminate. }
    destruct Hor as [Hsame|Hcancelled].
    + rewrite Hsame in Hj.
      assert (Hl : live st job sid = true) by (apply live_lookup; eauto).
      apply Hlive in Hl. rewrite Hreg in Hsame by eauto.
      apply (Hc (timers st !! job)). rewrite Hsame. exact Hj.
    + apply (Hc (timers st !! job)). rewrite <- Hcancelled. exact Hj.
  - intros job Hjob. apply Hfresh.
    pose proof (cancel_all_lookup (jobs st) (timers st) job) as [Hor _].
    cbv zeta in Hor. destruct Hor as [E|E]; rewrite E in Hjob; [exact Hjob|].
    destruct (timers st !! job); [eauto|]. destruct Hjob as [x Hx]. discriminate.
  - intros sid job Hjob. rewrite lookup_empty in Hjob. discriminate.
Qed.

Lemma step_ok (st : State) (op : Op) : registry_ok st -> registry_ok (step st op).
Proof.
  intros Hok. destruct op; cbn [step].
  - apply loadSchedules_ok. exact Hok.
  - match goal with |- registry_ok (snd (runNow ?i ?n ?w ?t)) =>
      pose proof (runNow_registry i n w t) as (Hj & Ht & Hn)
    end.
    apply (registry_ok_same st _ Hj Ht Hn Hok).
  - apply addSchedule_ok. exact Hok.
  - apply addSchedule_ok, cancelJob_ok. exact Hok.
  - apply cancelJob_ok. exact Hok.
  - apply addSchedule_ok. exact Hok.
  - apply cancelJob_ok. exact Hok.
  - apply stopAll_ok. exact Hok.
  - apply fire_ok. exact Hok.
  - apply (registry_ok_same st); auto.
Qed.

Lemma run_ok (ops : list Op) (st : State) : registry_ok st -> registry_ok (run st ops).
Proof.
  revert st. induction ops as [|op ops IH]; intros st Hok; [exact Hok|].
  cbn [run fold_left]. apply IH, step_ok. exact Hok.
Qed.

(** C6. In every state a scheduler reaches from its start, whatever the
    operations, the registry holds at most one job per schedule id and every
    live timer is the registered job of its schedule; [scheduleJob] cancels
    the job registered before it for that id, so after it no prior timer of
    the schedule is live beside the new one. *)
Theorem one_active_job_per_schedule (data : DatabaseData) (ops : list Op) :
  let st := run (initial data) ops in
  (forall sid job1 job2,
      live st job1 sid = true -> live st job2 sid = true ->
      job1 = job2 /\ jobs st !! sid = Some job1)
  /\ (forall sched now old,
        jobs st !! id (record sched) = Some old ->
        live (scheduleJob sched now st) old (id (record sched)) = false)
  /\ (forall sched now job1 job2,
        live (scheduleJob sched now st) job1 (id (record sched)) = true ->
        live (scheduleJob sched now st) job2 (id (record sched)) = true ->
        job1 = job2 /\ jobs (scheduleJob sched now st) !! id (record sched) = Some job1).
Proof.
  cbv zeta.
  pose proof (run_ok ops (initial data) (registry_ok_initial data)) as Hok.
  set (st := run (initial data) ops) in *.
  assert (Hone : forall st0, registry_ok st0 -> forall sid job1 job2,
             live st0 job1 sid = true -> live st0 job2 sid = true ->
             job1 = job2 /\ jobs st0 !! sid = Some job1).
  { intros st0 (Hlive & _ & _) sid job1 job2 H1 H2.
    apply Hlive in H1, H2. split; congruence. }
  split; [apply Hone; exact Hok|]. split.
  - intros sched now old Hold.
    pose proof (scheduleJob_ok st sched now Hok) as (Hlive & _ & _).
    destruct (live _ old _) eqn:Hl; [|reflexivity]. exfalso.
    apply Hlive in Hl.
    destruct Hok as (_ & _ & Hreg). pose proof (Hreg _ _ Hold) as Hlt.
    revert Hl. unfold scheduleJob, cancelJob. rewrite Hold.
    destruct (make_job sched now) as [j|];
      [destruct (nextInvocation _ _)|]; cbn [jobs with_db next_job];
      rewrite ?lookup_insert_eq, ?lookup_delete_eq; intros Hl;
      try discriminate; injection Hl as <-; lia.
  - intros sched now. apply Hone. apply scheduleJob_ok. exact Hok.
Qed.

End WithRuntime.

Lemma one_active_job_per_schedule_witness :
  let st1 := run (H := Fixture.runtime) (initial Fixture.data) [LoadSchedules 0] in
  let sched := mkJoined Fixture.route_every_minute "10.0.0.5" 2000 ultrix in
  let st := scheduleJob (H := Fixture.runtime) sched 30000 st1 in
  jobs st1 !! 2 = Some 1%nat
  /\ live st 3%nat 2 = true
  /\ live st 1%nat 2 = false
  /\ jobs st !! 2 = Some 3%nat.
Proof.
  cbv zeta.
  destruct (one_active_job_per_schedule (H := Fixture.runtime) Fixture.data [LoadSchedules 0])
    as (_ & Hold & Hone).
  split; [vm_compute; reflexivity|].
  split; [vm_compute; reflexivity|].
  split.
  - apply (Hold (mkJoined Fixture.route_every_minute "10.0.0.5" 2000 ultrix) 30000 1%nat).
    vm_compute. reflexivity.
  - apply (Hone (mkJoined Fixture.route_every_minute "10.0.0.5" 2000 ultrix) 30000
                3%nat 3%nat); vm_compute; reflexivity.
Defined.

End RegistryFacts.

(** ** The scheduler: the execution pipeline, [runNow] and [scheduleJob] *)

Module PipelineFacts.

Import Database Scheduler DatabaseFacts RegistryFacts.

Section WithRuntime.
Context `{Runtime}.

Lemma enabled_updateSchedule_last_run (data : DatabaseData) (sid i : Z) (t : string) :
  enabled <$> getSchedule (Database.updateSchedule data sid (patch_last_run t)) i
  = enabled <$> getSchedule data i.
Proof.
  rewrite getSchedule_updateSchedule. destruct (i =? sid); [|reflexivity].
  destruct (getSchedule data i); reflexivity.
Qed.

Lemma enabled_updateSchedule_next_run (data : DatabaseData) (sid i : Z) (t : string) :
  enabled <$> getSchedule (Database.updateSchedule data sid (patch_next_run t)) i
  = enabled <$> getSchedule data i.
Proof.
  rewrite getSchedule_updateSchedule. destruct (i =? sid); [|reflexivity].
  destruct (getSchedule data i); reflexivity.
Qed.

(** What the statements after the [try] do to the store and the
    notifications: one row is created, pushed and sent; no schedule is
    enabled or disabled. *)
Lemma record_run_spec (sched : ScheduleData) (command : string) (result : Result)
    (now : Z) (st : State) :
  let st' := record_run sched command result now st in
  let log :=
    {| log_id := nextId_command_log (db st);
       log_schedule_id := Some (id (record sched));
       log_device_id := device_id (record sched);
       log_command := command;
       log_status := if success result then status_success else status_error;
       log_response := Some (message result);
       log_executed_at := toISOString now |} in
  sent st' = sent st ++ [log]
  /\ command_log (db st') = pushed_log (command_log (db st)) log
  /\ nextId_command_log (db st') = nextId_command_log (db st) + 1
  /\ (forall i, enabled <$> getSchedule (db st') i = enabled <$> getSchedule (db st) i).
Proof.
  cbv zeta. unfold record_run, createLog.
  destruct (jobs st !! id (record sched)) as [job|];
    [destruct (nextInvocation st job) as [nextRun|]|]; cbn [sent db];
    (split; [reflexivity|]); (split; [reflexivity|]); (split; [reflexivity|]); intros i;
    rewrite ?enabled_updateSchedule_next_run, ?enabled_updateSchedule_last_run;
    reflexivity.
Qed.

(** With a payload that is an object the [try] block throws nothing, and
    its [result] tells whether the command succeeded. *)
Lemma try_block_object (sched : ScheduleData) (cd : CommandData) (net : Net) (st : State) :
  exists command result st1,
    try_block sched (JsObject cd) net st = (Returned (command, result), st1)
    /\ success result = command_succeeds (command_type (record sched)) cd net
    /\ db st1 = db st /\ sent st1 = sent st.
Proof.
  unfold try_block, command_succeeds, read.
  destruct (command_type (record sched)).
  - destruct (takeId cd) as [tid|].
    + unfold RossTalkPool_sendTake, Pool.request.
      destruct (Pool.getClient _ _ _ _) as [[ref c] pool1].
      cbn [link_perform RossTalk_Link RossTalkLink.perform].
      unfold RossTalk.sendTake.
      destruct (on_take net) as [response|m]; do 3 eexists;
        (split; [reflexivity|]); cbn; auto.
    + do 3 eexists. split; [reflexivity|]. cbn. auto.
  - destruct (source cd) as [src|]; [|do 3 eexists; split; [reflexivity|]; cbn; auto].
    destruct (destination cd) as [dst|]; [|do 3 eexists; split; [reflexivity|]; cbn; auto].
    unfold SWP08Pool_route, Pool.request.
    destruct (Pool.getClient _ _ _ _) as [[ref c] pool1].
    cbn [link_perform SWP08_Link SWP08Link.perform].
    unfold SWP08Link.route.
    destruct (on_route net) as [response|m]; do 3 eexists;
      (split; [reflexivity|]); cbn; auto.
Qed.

(** With the payload [null] reading a field throws in the [try] block and
    again in the [catch] block. *)
Lemma command_and_result_null (sched : ScheduleData) (net : Net) (st : State) :
  exists error, command_and_result sched JsNull net st = (Thrown error, st).
Proof.
  unfold command_and_result, try_block, catch_command, read.
  destruct (command_type (record sched)); eexists; reflexivity.
Qed.

(** The three ways a run of the pipeline can go. *)
Lemma executeCommand_cases (sched : ScheduleData) (net : Net) (now : Z) (st : State) :
  match JSON_parse (command_data (record sched)) with
  | JsSyntaxError error => executeCommand sched net now st = (Thrown error, st)
  | JsNull => exists error, executeCommand sched net now st = (Thrown error, st)
  | JsObject cd =>
      exists command result st1,
        try_block sched (JsObject cd) net st = (Returned (command, result), st1)
        /\ success result = command_succeeds (command_type (record sched)) cd net
        /\ db st1 = db st /\ sent st1 = sent st
        /\ executeCommand sched net now st
           = (Returned tt, record_run sched command result now st1)
  end.
Proof.
  unfold executeCommand.
  destruct (JSON_parse (command_data (record sched))) as [error| |cd]; [reflexivity| |].
  - destruct (command_and_result_null sched net st) as [error ->]. eauto.
  - destruct (try_block_object sched cd net st) as (command & result & st1 & Ht & Hs & Hd & Hn).
    exists command, result, st1. unfold command_and_result. rewrite Ht. auto.
Qed.

Lemma executeCommand_enabled (sched : ScheduleData) (net : Net) (now : Z) (st : State) (i : Z) :
  enabled <$> getSchedule (db (snd (executeCommand sched net now st))) i
  = enabled <$> getSchedule (db st) i.
Proof.
  pose proof (executeCommand_cases sched net now st) as Hc.
  destruct (JSON_parse _) as [error| |cd].
  - rewrite Hc. reflexivity.
  - destruct Hc as [error ->]. reflexivity.
  - destruct Hc as (command & result & st1 & _ & _ & Hd & _ & ->). cbn [snd].
    pose proof (record_run_spec sched command result now st1) as (_ & _ & _ & He).
    rewrite He, Hd. reflexivity.
Qed.


(** C7. A one-time schedule is disabled by its timer: when the job made for
    a run date fires, the schedule has [enabled = false] in the store
    afterwards.  [runNow] leaves the [enabled] field of every schedule as it
    was. *)
Theorem one_time_disabled_by_its_timer (st : State) (net : Net) (now : Z) :
  (forall job j runDate due s,
      timers st !! job = Some j -> spec j = At runDate ->
      pending j = Some due -> due <= now ->
      getSchedule (db st) (id (record (job_sched j))) = Some s ->
      enabled <$> getSchedule (db (fire job net now st)) (id (record (job_sched j)))
      = Some false)
  /\ (forall sid i,
        enabled <$> getSchedule (db (snd (runNow sid net now st))) i
        = enabled <$> getSchedule (db st) i).
Proof.
  split.
  - intros job j runDate due s Hj Hspec Hp Hdue Hs.
    unfold fire. rewrite Hj, Hp, Hspec.
    destruct (Z.leb_spec due now) as [_|]; [|lia].
    cbn [with_db db].
    match goal with |- context [executeCommand ?a ?b ?c ?d] =>
      pose proof (executeCommand_enabled a b c d (id (record (job_sched j)))) as He;
      set (st2 := snd (executeCommand a b c d)) in *
    end.
    cbn [db] in He. rewrite Hs in He.
    rewrite getSchedule_updateSchedule, Z.eqb_refl.
    destruct (getSchedule (db st2) _); [reflexivity | discriminate].
  - intros sid i. unfold runNow.
    destruct (getSchedule (db st) sid) as [sched|]; [|reflexivity].
    destruct (getDevice _ _) as [device|]; [|reflexivity].
    match goal with |- context [executeCommand ?a ?b ?c ?d] =>
      pose proof (executeCommand_enabled a b c d i) as He;
      destruct (executeCommand a b c d) as [[u|e] st1]
    end; exact He.
Qed.

(** C8. [scheduleJob] for a one-time schedule whose [run_at] is not in the
    future installs no job and leaves the store, so the schedule's
    [next_run], as it was; and whenever [scheduleJob] leaves a job in the
    registry, that job has a next invocation and its ISO string is the
    [next_run] of the schedule in the store. *)
Theorem scheduleJob_persists_next_run (st : State) (sched : ScheduleData) (now : Z) :
  let sid := id (record sched) in
  let st' := scheduleJob sched now st in
  (forall text runDate,
      schedule_type (record sched) = once ->
      run_at (record sched) = Some text ->
      Date_parse text = Some runDate ->
      runDate <= now ->
      jobs st' !! sid = None /\ db st' = db st /\ next_job st' = next_job st)
  /\ (forall job s,
        jobs st' !! sid = Some job ->
        getSchedule (db st) sid = Some s ->
        exists nextRun,
          nextInvocation st' job = Some nextRun
          /\ next_run <$> getSchedule (db st') sid = Some (Some (toISOString nextRun))).
Proof.
  cbv zeta.
  assert (Hcancel : jobs (cancelJob (id (record sched)) st) !! id (record sched) = None
                    /\ db (cancelJob (id (record sched)) st) = db st
                    /\ next_job (cancelJob (id (record sched)) st) = next_job st).
  { unfold cancelJob. destruct (jobs st !! id (record sched)) eqn:Hj; [|auto].
    cbn [jobs db next_job]. rewrite lookup_delete_eq. auto. }
  destruct Hcancel as (Hnone & Hdb & Hnext).
  split.
  - intros text runDate Honce Hrun Hparse Hpast.
    assert (Hmake : make_job sched now = None).
    { unfold make_job. rewrite Honce, Hrun, Hparse. cbn [is_recurring is_once andb].
      destruct (truthy (Some text)); [|reflexivity].
      destruct (Z.ltb_spec now runDate); [lia | reflexivity]. }
    unfold scheduleJob. rewrite Hmake. auto.
  - intros job s Hjob Hs. revert Hjob. unfold scheduleJob.
    destruct (make_job sched now) as [j|] eqn:Hmake; [|congruence].
    apply make_job_inv in Hmake as [_ [t Ht]].
    set (st1 := cancelJob (id (record sched)) st) in *.
    assert (Hnext2 : forall d sn,
               nextInvocation
                 {| db := d; jobs := <[id (record sched) := next_job st1]> (jobs st1);
                    timers := <[next_job st1 := j]> (timers st1);
                    next_job := S (next_job st1);
                    rossTalkPool := rossTalkPool st1; swp08Pool := swp08Pool st1;
                    sent := sn |} (next_job st1) = Some t).
    { intros d sn. unfold nextInvocation. cbn [timers].
      rewrite lookup_insert_eq. exact Ht. }
    rewrite Hnext2. unfold with_db, nextInvocation. cbn [jobs db timers].
    rewrite !lookup_insert_eq.
    intros [= <-]. exists t. split.
    + apply (Hnext2 (db st1) (sent st1)).
    + rewrite getSchedule_updateSchedule, Z.eqb_refl, Hdb, Hs. reflexivity.
Qed.

End WithRuntime.

(** C2. One run of the execution pipeline, by what [JSON.parse] makes of the
    payload.  An object: nothing is thrown and exactly one CommandLog row is
    pushed, with status [error] when a required field is missing or the
    send failed.  Text that is not JSON: the [SyntaxError] leaves the
    pipeline, and no row is written.  The text [null]: a [TypeError] leaves
    the pipeline from the [catch] block, and no row is written.  On the
    stored payload [takeId=7] the run throws and the log stays empty. *)
Theorem executeCommand_throws_on_unparsable_payload :
  (forall (R : Runtime) (sched : ScheduleData) (net : Net) (now : Z) (st : State),
      match JSON_parse (command_data (record sched)) with
      | JsObject cd =>
          exists st' log,
            executeCommand sched net now st = (Returned tt, st')
            /\ sent st' = sent st ++ [log]
            /\ command_log (db st') = pushed_log (command_log (db st)) log
            /\ log_status log
               = (if command_succeeds (command_type (record sched)) cd net
                  then status_success else status_error)
      | JsSyntaxError error => executeCommand sched net now st = (Thrown error, st)
      | JsNull => exists error, executeCommand sched net now st = (Thrown error, st)
      end)
  /\ (let sched := mkJoined Fixture.take_broken "10.0.0.7" 7788 xpression in
      let st := initial Fixture.data in
      executeCommand (H := Fixture.runtime) sched Fixture.answered 60000 st
      = (Thrown "Unexpected token in JSON", st)
      /\ command_log (db (snd (executeCommand (H := Fixture.runtime) sched
                                              Fixture.answered 60000 st))) = []).
Proof.
  split.
  - intros R sched net now st.
    pose proof (executeCommand_cases sched net now st) as Hc.
    destruct (JSON_parse (command_data (record sched))) as [error| |cd]; [exact Hc..|].
    destruct Hc as (command & result & st1 & _ & Hok & Hdb & Hsent & ->).
    pose proof (record_run_spec sched command result now st1) as (H1 & H2 & _ & _).
    do 2 eexists. split; [reflexivity|]. rewrite H1, H2, Hsent, Hdb.
    split; [reflexivity|]. split; [reflexivity|].
    cbn [log_status]. rewrite Hok. reflexivity.
  - cbv zeta. split; vm_compute; reflexivity.
Qed.



(** C7, as stated, fails for [runNow]: the one-time schedule is run and is
    still enabled. *)
Lemma runNow_leaves_one_time_enabled :
  let run := runNow (H := Fixture.runtime) 1 Fixture.answered 5 (initial Fixture.data) in
  schedule_type Fixture.take_once = once
  /\ fst run = Returned {| success := true; message := "Command executed" |}
  /\ map log_command (command_log (db (snd run))) = ["TAKE 7"%string]
  /\ enabled <$> getSchedule (db (snd run)) 1 = Some true.
Proof.
  cbv zeta. repeat split; vm_compute; reflexivity.
Qed.

Lemma one_time_disabled_by_its_timer_witness :
  let st := run (H := Fixture.runtime) (initial Fixture.data) [LoadSchedules 0] in
  enabled <$> getSchedule (db st) 1 = Some true
  /\ enabled <$> getSchedule (db (fire (H := Fixture.runtime) 0%nat Fixture.answered 60000 st)) 1
     = Some false
  /\ enabled <$> getSchedule
                   (db (snd (runNow (H := Fixture.runtime) 1 Fixture.answered 60000 st))) 1
     = Some true.
Proof.
  cbv zeta.
  destruct (one_time_disabled_by_its_timer (H := Fixture.runtime)
              (run (H := Fixture.runtime) (initial Fixture.data) [LoadSchedules 0])
              Fixture.answered 60000) as [Hfire HrunNow].
  split; [vm_compute; reflexivity|]. split.
  - refine (Hfire 0%nat
              {| spec := At 60000;
                 job_sched := mkJoined Fixture.take_once "10.0.0.7" 7788 xpression;
                 pending := Some 60000 |} 60000 60000 _ _ _ _ _ _);
      [vm_compute; reflexivity | reflexivity | reflexivity | lia | vm_compute; reflexivity].
  - rewrite (HrunNow 1 1). vm_compute. reflexivity.
Defined.

Lemma scheduleJob_persists_next_run_witness :
  let sched := mkJoined Fixture.take_once "10.0.0.7" 7788 xpression in
  let st := initial Fixture.data in
  (jobs (scheduleJob (H := Fixture.runtime) sched 90000 st) !! 1 = None
   /\ db (scheduleJob (H := Fixture.runtime) sched 90000 st) = db st
   /\ next_job (scheduleJob (H := Fixture.runtime) sched 90000 st) = next_job st)
  /\ exists nextRun,
       nextInvocation (scheduleJob (H := Fixture.runtime) sched 0 st) 0%nat = Some nextRun
       /\ next_run <$> getSchedule (db (scheduleJob (H := Fixture.runtime) sched 0 st)) 1
          = Some (Some (Fixture.iso nextRun)).
Proof.
  cbv zeta. split.
  - apply (proj1 (scheduleJob_persists_next_run (H := Fixture.runtime)
                    (initial Fixture.data)
                    (mkJoined Fixture.take_once "10.0.0.7" 7788 xpression) 90000)
                 (Fixture.iso 60000) 60000);
      [reflexivity | reflexivity | vm_compute; reflexivity | lia].
  - apply (proj2 (scheduleJob_persists_next_run (H := Fixture.runtime)
                    (initial Fixture.data)
                    (mkJoined Fixture.take_once "10.0.0.7" 7788 xpression) 0)
                 0%nat Fixture.take_once);
      vm_compute; reflexivity.
Defined.

End PipelineFacts.

(** * Further properties *)

(** ** The binary client: frames for arbitrary numbers, and what the
    parser takes out of the buffer *)

Module SWP08More.

Import Js JsFacts SWP08 SWP08Facts SWP08ParserFacts.

Lemma toInt32_shift (v : Z) : exists k, toInt32 v = v + k * 2^32.
Proof.
  exists (- ((v + 2^31) / 2^32)). unfold toInt32.
  pose proof (Z.div_mod (v + 2^31) (2^32) ltac:(lia)). lia.
Qed.

Lemma lsb7_mod (v : Z) : lsb7 v = v mod 128.
Proof.
  unfold lsb7. rewrite and_0x7F. change 127 with (Z.ones 7).
  rewrite Z.land_ones by lia. reflexivity.
Qed.

Lemma msb7_mod (v : Z) : msb7 v = (v / 128) mod 128.
Proof.
  unfold msb7, shr. rewrite and_0x7F. change 127 with (Z.ones 7).
  rewrite Z.land_ones, Z.shiftr_div_pow2 by lia.
  destruct (toInt32_shift v) as [k ->].
  replace (v + k * 2^32) with (v + (k * 2^25) * 2^7) by lia.
  rewrite Z.div_add by lia.
  replace (v / 2^7 + k * 2^25) with (v / 2^7 + (k * 2^18) * 2^7) by lia.
  rewrite Z.mod_add by lia. reflexivity.
Qed.

Lemma msb7_wraps (v : Z) : msb7 (v mod 16384) = msb7 v.
Proof.
  rewrite !msb7_mod.
  pose proof (Z.div_mod v 16384 ltac:(lia)) as E.
  replace (v mod 16384) with (v + (- (v / 16384) * 128) * 128) by lia.
  rewrite Z.div_add by lia.
  rewrite Z.mod_add by lia. reflexivity.
Qed.

Lemma lsb7_wraps (v : Z) : lsb7 (v mod 16384) = lsb7 v.
Proof.
  rewrite !lsb7_mod.
  pose proof (Z.div_mod v 16384 ltac:(lia)) as E.
  replace (v mod 16384) with (v + (- (v / 16384) * 128) * 128) by lia.
  apply Z.mod_add. lia.
Qed.

(** X1. For every integral source and destination, in range or not, the
    frame carries the value modulo 16384: a number outside 0..16383 is not
    refused, it is sent as the crosspoint that has the same low 14 bits. *)
Theorem buildConnectCommand_wraps_out_of_range (c : Client) (src dst : Z) :
  let frame := buildConnectCommand c src dst in
  frame = buildConnectCommand c (src mod 16384) (dst mod 16384)
  /\ recombine (nth 4 frame 0) (nth 5 frame 0) = dst mod 16384
  /\ recombine (nth 6 frame 0) (nth 7 frame 0) = src mod 16384.
Proof.
  cbv zeta.
  assert (Hr : forall v, recombine (msb7 v) (lsb7 v) = v mod 16384).
  { intros v. rewrite <- (msb7_wraps v), <- (lsb7_wraps v).
    apply recombine_split. pose proof (Z.mod_pos_bound v 16384 ltac:(lia)). lia. }
  split.
  - unfold buildConnectCommand. rewrite !msb7_wraps, !lsb7_wraps. reflexivity.
  - rewrite buildConnectCommand_layout. cbn [nth]. split; apply Hr.
Qed.

(** X2. Whatever the numbers given, a built frame has eleven bytes, each
    from 0 to 255, the four address bytes from 0 to 127, with SOM first and
    EOM, EOM2 last. *)
Theorem buildConnectCommand_bytes (c : Client) (src dst : Z) :
  let frame := buildConnectCommand c src dst in
  length frame = 11%nat
  /\ Forall (fun b => 0 <= b < 256) frame
  /\ Forall (fun b => 0 <= b < 128) (firstn 4 (skipn 4 frame))
  /\ nth 0 frame 0 = SOM /\ nth 9 frame 0 = EOM /\ nth 10 frame 0 = EOM2.
Proof.
  cbv zeta. rewrite buildConnectCommand_layout.
  pose proof (msb7_range dst). pose proof (lsb7_range dst).
  pose proof (msb7_range src). pose proof (lsb7_range src).
  assert (Hu : forall x, 0 <= toUint8 x < 256)
    by (intros x; unfold toUint8; apply Z.mod_pos_bound; lia).
  split; [reflexivity|]. split; [|split].
  - repeat constructor; try apply Hu; unfold SOM, EOM, EOM2, COMMAND_CONNECT; lia.
  - cbn [skipn firstn]. repeat constructor; lia.
  - cbn [nth]. auto.
Qed.

Lemma indexOf_split (b : Z) (buf : list Z) (n : nat) :
  indexOf b buf = Some n ->
  exists garbage tail, buf = garbage ++ b :: tail /\ length garbage = n /\ ~ In b garbage.
Proof.
  revert n. induction buf as [|x buf IH]; intros n; [discriminate|].
  cbn [indexOf]. destruct (Z.eqb_spec x b) as [->|Hne].
  - intros [= <-]. exists [], buf. auto.
  - destruct (indexOf b buf) as [m|]; [|discriminate]. intros [= <-].
    destruct (IH m eq_refl) as (g & tl & -> & Hl & Hn).
    exists (x :: g), tl. cbn [app length In]. repeat split; [congruence|].
    intros [Hx|Hx]; [congruence | contradiction].
Qed.

Lemma find_end_split (l : list Z) (i k : nat) :
  find_end l i = Some k ->
  exists body rest, l = body ++ EOM :: EOM2 :: rest /\ (i + length body = k)%nat.
Proof.
  revert i. induction l as [|x l IH]; intros i; [discriminate|].
  destruct l as [|y l]; [discriminate|]. cbn [find_end].
  destruct ((x =? EOM) && (y =? EOM2)) eqn:Hxy.
  - intros [= <-]. apply andb_prop in Hxy as [Hx Hy].
    apply Z.eqb_eq in Hx, Hy. subst. exists [], l. split; [reflexivity | cbn; lia].
  - intros Hk. destruct (IH (S i) Hk) as (body & rest & E & Hl).
    exists (x :: body), rest. rewrite E. split; [reflexivity | cbn [length]; lia].
Qed.

(** X3. One pass of [processResponse] loses nothing but what stands before
    the frame: when it emits nothing the buffer is as it was; when it emits
    a frame, the old buffer is some bytes without SOM (dropped), then the
    frame, then the new buffer, and the frame is SOM, a body, EOM, EOM2. *)
Theorem processResponse_partitions_buffer (buf : list Z) :
  match processResponse buf with
  | ([], buf') => buf' = buf
  | ([frame], buf') =>
      exists garbage body,
        buf = garbage ++ frame ++ buf'
        /\ ~ In SOM garbage
        /\ frame = SOM :: body ++ [EOM; EOM2]
  | _ => False
  end.
Proof.
  unfold processResponse.
  destruct (indexOf SOM buf) as [startIdx|] eqn:Hs; [|reflexivity].
  destruct (find_end _ _) as [k|] eqn:Hk; [|reflexivity].
  apply indexOf_split in Hs as (garbage & tail & -> & Hl & Hn).
  assert (Hskip : skipn (S startIdx) (garbage ++ SOM :: tail) = tail).
  { rewrite <- Hl. rewrite skipn_app.
    replace (S (length garbage) - length garbage)%nat with 1%nat by lia.
    rewrite skipn_all2 by lia. reflexivity. }
  rewrite Hskip in Hk.
  apply find_end_split in Hk as (body & rest & -> & Hlen).
  exists garbage, body. split; [|split; [exact Hn | ]].
  - f_equal. unfold subarray.
    assert (Hfrom : skipn startIdx (garbage ++ SOM :: body ++ EOM :: EOM2 :: rest)
                    = SOM :: body ++ EOM :: EOM2 :: rest).
    { rewrite <- Hl, skipn_app, Nat.sub_diag, skipn_all2 by lia. reflexivity. }
    rewrite Hfrom.
    assert (Hto : skipn (k + 2) (garbage ++ SOM :: body ++ EOM :: EOM2 :: rest) = rest).
    { replace (k + 2)%nat with (length garbage + (S (length body) + 2))%nat by lia.
      rewrite skipn_app.
      replace (length garbage + (S (length body) + 2) - length garbage)%nat
        with (S (length body + 2)) by lia.
      rewrite skipn_all2 by lia. cbn [app skipn].
      change (EOM :: EOM2 :: rest) with ([EOM; EOM2] ++ rest).
      rewrite app_assoc, skipn_app, length_app. cbn [length].
      rewrite Nat.sub_diag, skipn_all2 by (rewrite length_app; cbn [length]; lia).
      reflexivity. }
    rewrite Hto.
    replace (k + 2 - startIdx)%nat with (length (SOM :: body ++ [EOM; EOM2]))
      by (cbn [length]; rewrite length_app; cbn [length]; lia).
    change (SOM :: body ++ EOM :: EOM2 :: rest)
      with ((SOM :: body) ++ [EOM; EOM2] ++ rest).
    rewrite app_assoc.
    change ((SOM :: body) ++ [EOM; EOM2]) with (SOM :: body ++ [EOM; EOM2]).
    rewrite firstn_app, firstn_all, Nat.sub_diag. cbn [firstn].
    rewrite app_nil_r. reflexivity.
  - unfold subarray.
    rewrite <- Hl, skipn_app, Nat.sub_diag, skipn_all2 by lia. cbn [app skipn].
    replace (k + 2 - length garbage)%nat with (S (length body + 2)) by lia.
    cbn [firstn]. f_equal.
    change (EOM :: EOM2 :: rest) with ([EOM; EOM2] ++ rest).
    rewrite app_assoc, firstn_app, length_app. cbn [length].
    rewrite Nat.sub_diag, firstn_all2 by (rewrite length_app; cbn [length]; lia).
    cbn [firstn]. rewrite app_nil_r. reflexivity.
Qed.

Lemma find_end_shift (l : list Z) (i : nat) :
  find_end l (S i) = option_map S (find_end l i).
Proof.
  revert i. induction l as [|x l IH]; intros i; [reflexivity|].
  destruct l as [|y l]; [reflexivity|]. cbn [find_end].
  destruct ((x =? EOM) && (y =? EOM2)); [reflexivity | apply IH].
Qed.

Lemma find_end_cons (x y : Z) (l : list Z) (i : nat) :
  find_end (x :: y :: l) i
  = if (x =? EOM) && (y =? EOM2) then Some i else find_end (y :: l) (S i).
Proof. reflexivity. Qed.

(** A body without an EOM, EOM2 pair is delimited by the pair put after
    it. *)
Lemma find_end_after_body (body : list Z) (i : nat) :
  find_end body 0 = None ->
  find_end (body ++ [EOM; EOM2]) i = Some (i + length body)%nat.
Proof.
  revert i. induction body as [|x body IH]; intros i Hnone.
  - cbn. f_equal. lia.
  - destruct body as [|y body].
    + cbn [app find_end length].
      destruct (Z.eqb_spec x EOM) as [->|Hx]; cbn; f_equal; lia.
    + rewrite find_end_cons in Hnone. revert Hnone.
      change ((x :: y :: body) ++ [EOM; EOM2]) with (x :: y :: (body ++ [EOM; EOM2])).
      rewrite find_end_cons.
      destruct ((x =? EOM) && (y =? EOM2)); [discriminate|].
      rewrite find_end_shift.
      destruct (find_end (y :: body) 0) eqn:E; [discriminate|]. intros _.
      change (y :: body ++ [EOM; EOM2]) with ((y :: body) ++ [EOM; EOM2]).
      rewrite (IH (S i) eq_refl). cbn [length]. f_equal. lia.
Qed.

(** X4. A frame SOM, body, EOM, EOM2 whose body holds no EOM, EOM2 pair,
    delivered to a new client in any number of chunks, of any sizes, is
    emitted exactly once, whole, and leaves the buffer empty. *)
Theorem frame_survives_fragmentation (h : string) (p : Z) (body : list Z)
    (chunks : list (list Z)) :
  find_end body 0 = None ->
  concat chunks = SOM :: body ++ [EOM; EOM2] ->
  fst (deliver (new h p) chunks) = [SOM :: body ++ [EOM; EOM2]]
  /\ responseBuffer (snd (deliver (new h p) chunks)) = [].
Proof.
  intros Hbody Hchunks.
  apply (deliver_fragments body (find_end_after_body body 1 Hbody)).
  - cbn [new responseBuffer app]. exact Hchunks.
  - rewrite Hchunks. discriminate.
Qed.

Lemma frame_survives_fragmentation_witness :
  let chunks := [[0x10; 0x02]; []; [0x00; 0x00; 0x00; 0x05; 0x00]; [0x03; 0x04; 0x10];
                 [0x11]] in
  fst (deliver (new "10.0.0.5" 2000) chunks) = [buildConnectCommand (new "10.0.0.5" 2000) 3 5]
  /\ responseBuffer (snd (deliver (new "10.0.0.5" 2000) chunks)) = [].
Proof.
  apply (frame_survives_fragmentation "10.0.0.5" 2000 [0x02; 0x00; 0x00; 0x00; 0x05; 0x00; 0x03; 0x04]);
    reflexivity.
Defined.

End SWP08More.

(** ** The line client: the command written and the lines emitted *)

Module RossTalkMore.

Import RossTalk RossTalkFacts.

Local Open Scope string_scope.

Lemma endsWith_crlf_exact :
  endsWith_crlf (String "013" (String "010" EmptyString)) = true.
Proof. reflexivity. Qed.

(** Past the first character, unless the text is exactly the terminator. *)
Lemma endsWith_crlf_step (c : ascii) (rest : string) :
  String c rest <> String "013" (String "010" EmptyString) ->
  endsWith_crlf (String c rest) = endsWith_crlf rest.
Proof.
  intros Hne.
  destruct (ascii_dec c "013") as [->|Hc].
  - destruct rest as [|c2 rest2]; [reflexivity|].
    destruct (ascii_dec c2 "010") as [->|Hc2].
    + destruct rest2; [congruence | reflexivity].
    + destruct c2 as [[] [] [] [] [] [] [] []]; try reflexivity; congruence.
  - destruct c as [[] [] [] [] [] [] [] []]; try reflexivity; congruence.
Qed.

Lemma endsWith_crlf_app (s : string) :
  endsWith_crlf (s ++ String "013" (String "010" EmptyString)) = true.
Proof.
  induction s as [|c s IH]; [reflexivity|].
  rewrite string_app_cons.
  destruct (string_dec (String c (s ++ String "013" (String "010" EmptyString)))
                       (String "013" (String "010" EmptyString))) as [E|E].
  - rewrite E. reflexivity.
  - rewrite endsWith_crlf_step by exact E. exact IH.
Qed.

(** X6. The text [sendCommand] writes always ends with CRLF; a command that
    already ends with CRLF is written as it is, so the terminator is never
    doubled, and terminating is idempotent. *)
Theorem fullCommand_terminated (command : string) :
  endsWith_crlf (fullCommand command) = true
  /\ (endsWith_crlf command = true -> fullCommand command = command)
  /\ (endsWith_crlf command = false ->
      fullCommand command = command ++ String "013" (String "010" EmptyString))
  /\ fullCommand (fullCommand command) = fullCommand command.
Proof.
  assert (H1 : endsWith_crlf (fullCommand command) = true).
  { unfold fullCommand. destruct (endsWith_crlf command) eqn:E;
      [exact E | apply endsWith_crlf_app]. }
  split; [exact H1|]. split; [|split].
  - intros E. unfold fullCommand. rewrite E. reflexivity.
  - intros E. unfold fullCommand. rewrite E. reflexivity.
  - unfold fullCommand at 1. rewrite H1. reflexivity.
Qed.

Lemma fullCommand_terminated_witness :
  fullCommand "TAKE 7" = "TAKE 7" ++ String "013" (String "010" EmptyString)
  /\ fullCommand (fullCommand "TAKE 7") = fullCommand "TAKE 7".
Proof.
  destruct (fullCommand_terminated "TAKE 7") as (_ & _ & H3 & H4).
  split; [apply H3; reflexivity | exact H4].
Defined.

(** A text that is empty or begins with a character that is not
    whitespace. *)
Lemma trimStart_fixed (s : string) :
  trimStart s = s <->
  match s with EmptyString => True | String c _ => is_whitespace c = false end.
Proof.
  destruct s as [|c r]; [tauto|]. cbn [trimStart].
  destruct (is_whitespace c) eqn:Hc; [|tauto].
  split; [|discriminate]. intros E. exfalso.
  assert (Hlen : forall t, (String.length (trimStart t) <= String.length t)%nat).
  { induction t as [|x t IHt]; cbn [trimStart]; [lia|].
    destruct (is_whitespace x); cbn [String.length]; lia. }
  specialize (Hlen r). rewrite E in Hlen. cbn [String.length] in Hlen. lia.
Qed.

Lemma trimStart_clean (s : string) :
  match trimStart s with EmptyString => True | String c _ => is_whitespace c = false end.
Proof.
  induction s as [|c r IH]; [exact I|]. cbn [trimStart].
  destruct (is_whitespace c) eqn:Hc; [exact IH | exact Hc].
Qed.

Lemma trimEnd_head (s : string) :
  match s with
  | EmptyString => trimEnd s = EmptyString
  | String c r => trimEnd s = EmptyString \/ exists r', trimEnd s = String c r'
  end.
Proof.
  destruct s as [|c r]; [reflexivity|]. cbn [trimEnd].
  destruct (trimEnd r); [destruct (is_whitespace c)|]; eauto.
Qed.

Lemma trimEnd_cons (c : ascii) (r : string) :
  trimEnd (String c r)
  = match trimEnd r with
    | EmptyString => if is_whitespace c then EmptyString else String c EmptyString
    | String c' r' => String c (String c' r')
    end.
Proof. reflexivity. Qed.

Lemma trimEnd_idem (s : string) : trimEnd (trimEnd s) = trimEnd s.
Proof.
  induction s as [|c r IH]; [reflexivity|]. rewrite trimEnd_cons.
  destruct (trimEnd r) as [|c' r'] eqn:Hr.
  - destruct (is_whitespace c) eqn:Hc; [reflexivity|].
    rewrite trimEnd_cons. cbn [trimEnd]. rewrite Hc. reflexivity.
  - rewrite trimEnd_cons, IH. reflexivity.
Qed.

Lemma trim_idem (s : string) : trim (trim s) = trim s.
Proof.
  unfold trim.
  assert (Hstart : trimStart (trimEnd (trimStart s)) = trimEnd (trimStart s)).
  { apply trimStart_fixed.
    pose proof (trimStart_clean s) as Hc. pose proof (trimEnd_head (trimStart s)) as Hh.
    destruct (trimStart s) as [|c r]; [rewrite Hh; exact I|].
    destruct Hh as [->|[r' ->]]; [exact I | exact Hc]. }
  rewrite Hstart. apply trimEnd_idem.
Qed.

(** Dropping the first character, or characters at the end, of a text
    without CRLF leaves a text without CRLF. *)
Lemma no_crlf_tail (c : ascii) (r : string) :
  split_crlf (String c r) = [String c r] -> split_crlf r = [r].
Proof.
  destruct (starts_crlf (String c r)) eqn:Hs.
  - apply starts_crlf_inv in Hs as [r' E]. injection E as -> ->.
    rewrite split_crlf_separator. discriminate.
  - rewrite (split_crlf_other _ _ Hs).
    destruct (split_crlf r) as [|h t] eqn:Hr; cbn [cons_segment].
    + exfalso. exact (split_crlf_not_nil _ Hr).
    + intros [= <- ->]. reflexivity.
Qed.

Lemma no_crlf_prefix (a b : string) :
  split_crlf (a ++ b) = [a ++ b] -> split_crlf a = [a].
Proof.
  intros E. rewrite split_crlf_app in E.
  pose proof (split_crlf_rebuild a) as Hr.
  destruct (pop_rest (split_crlf a)) as [|x xs] eqn:Hp.
  - cbn [terminated fold_right] in Hr. rewrite string_app_nil_l in Hr.
    pose proof (app_removelast_last EmptyString (split_crlf_not_nil a)) as Hl.
    unfold pop_rest in Hp. unfold pop_last in Hr. rewrite Hp, Hr in Hl. exact Hl.
  - exfalso. cbn [app] in E. injection E as _ E.
    apply app_eq_nil in E as [_ E]. exact (split_crlf_not_nil _ E).
Qed.

Lemma trimStart_no_crlf (s : string) : split_crlf s = [s] -> split_crlf (trimStart s) = [trimStart s].
Proof.
  induction s as [|c r IH]; [trivial|]. intros E. cbn [trimStart].
  destruct (is_whitespace c); [|exact E]. apply IH. exact (no_crlf_tail c r E).
Qed.

Lemma trimEnd_prefix (s : string) : exists b, s = trimEnd s ++ b.
Proof.
  induction s as [|c r [b IH]]; [exists EmptyString; reflexivity|]. cbn [trimEnd].
  destruct (trimEnd r) as [|c' r'] eqn:Hr.
  - destruct (is_whitespace c).
    + exists (String c r). reflexivity.
    + exists b. rewrite string_app_cons, <- IH. reflexivity.
  - exists b. rewrite string_app_cons, <- IH. reflexivity.
Qed.

Lemma trim_no_crlf (s : string) : split_crlf s = [s] -> split_crlf (trim s) = [trim s].
Proof.
  intros E. unfold trim. apply trimStart_no_crlf in E.
  destruct (trimEnd_prefix (trimStart s)) as [b Hb].
  apply (no_crlf_prefix _ b). rewrite <- Hb. exact E.
Qed.

(** Every segment of a split is without CRLF. *)
Lemma split_crlf_segments (s : string) :
  Forall (fun seg => split_crlf seg = [seg]) (split_crlf s).
Proof.
  remember (String.length s) as n eqn:Hn.
  revert s Hn. induction n as [n IH] using lt_wf_ind. intros s Hn.
  destruct s as [|c r]; [repeat constructor|].
  destruct (starts_crlf (String c r)) eqn:Hs.
  - apply starts_crlf_inv in Hs as [r' E]. injection E as -> ->.
    rewrite split_crlf_separator. constructor; [reflexivity|].
    apply (IH (String.length r')); [cbn [String.length] in Hn; lia | reflexivity].
  - rewrite (split_crlf_other _ _ Hs).
    specialize (IH (String.length r) ltac:(cbn [String.length] in Hn; lia) r eq_refl).
    destruct (split_crlf r) as [|h t] eqn:Hr; [exfalso; exact (split_crlf_not_nil _ Hr)|].
    cbn [cons_segment]. inversion IH as [|? ? Hh Ht]; subst. constructor; [|exact Ht].
    rewrite split_crlf_other, Hh; [reflexivity|].
    destruct r as [|c2 r2].
    + cbn in Hr. injection Hr as <- <-. reflexivity.
    + destruct (starts_crlf (String c2 r2)) eqn:Hs2.
      * apply starts_crlf_inv in Hs2 as [r' E]. injection E as -> ->.
        rewrite split_crlf_separator in Hr. injection Hr as <- _.
        reflexivity.
      * rewrite (split_crlf_other _ _ Hs2) in Hr.
        destruct (split_crlf r2); cbn [cons_segment] in Hr; injection Hr as <- _; exact Hs.
Qed.

Lemma emit_lines_clean (lines : list string) :
  Forall (fun seg => split_crlf seg = [seg]) lines ->
  Forall (fun e => e <> EmptyString /\ trim e = e /\ split_crlf e = [e]) (emit_lines lines).
Proof.
  unfold emit_lines. induction 1 as [|x lines Hx Hl IH]; [constructor|].
  rewrite filter_cons. destruct (decide _) as [Ht|Ht]; [|exact IH].
  cbn [map]. constructor; [|exact IH].
  split; [|split; [apply trim_idem | apply trim_no_crlf; exact Hx]].
  destruct (trim x); [contradiction | discriminate].
Qed.

Lemma Forall_removelast {A} (P : A -> Prop) (l : list A) :
  Forall P l -> Forall P (removelast l).
Proof.
  induction 1 as [|x l Hx Hl IH]; [constructor|]. cbn [removelast].
  destruct l; [constructor | constructor; assumption].
Qed.

(** X7. Whatever text arrives and however it is cut into chunks, whatever
    the buffer held before, every ['response'] event of the line client
    carries a line that is not empty, has no whitespace at either end
    (trimming it again changes nothing) and holds no CRLF. *)
Theorem responses_are_clean_lines (c : Client) (chunks : list string) :
  Forall (fun e => e <> EmptyString /\ trim e = e /\ split_crlf e = [e])
         (fst (deliver c chunks)).
Proof.
  revert c. induction chunks as [|data chunks IH]; intros c; [constructor|].
  cbn [deliver]. unfold onData.
  specialize (IH {| host := host c; port := port c; connected := connected c;
                    responseBuffer := pop_last (split_crlf (responseBuffer c ++ data)) |}).
  destruct (deliver _ chunks) as [e2 c2]. cbn [fst] in *.
  apply Forall_app. split; [|exact IH].
  apply emit_lines_clean, Forall_removelast, split_crlf_segments.
Qed.

End RossTalkMore.

(** ** The link pools: one client object per device *)

Module PoolMore.

Import Pool Wellformed.

Section WithClient.
Context {C : Type} `{Link C}.

Lemma pool_ok_empty : pool_ok (empty (C := C)).
Proof.
  split.
  - intros d1 d2 ref c1 c2 H1. cbn [empty clients] in H1.
    rewrite lookup_empty in H1. discriminate.
  - intros d ref c Hd. cbn [empty clients] in Hd. rewrite lookup_empty in Hd. discriminate.
Qed.

Lemma getClient_ok (d : Z) (h : string) (p : Z) (pool : t C) :
  pool_ok pool -> pool_ok (snd (getClient d h p pool)).
Proof.
  intros [Hinj Hfresh]. unfold getClient.
  destruct (clients pool !! d) as [client|] eqn:Hd; cbn [snd]; [split; assumption|].
  split; cbn [clients next_ref].
  - intros d1 d2 ref c1 c2 H1 H2.
    destruct (decide (d1 = d)) as [->|Hn1], (decide (d2 = d)) as [->|Hn2].
    + reflexivity.
    + rewrite lookup_insert_eq in H1. rewrite lookup_insert_ne in H2 by congruence.
      injection H1 as <- _. apply Hfresh in H2. lia.
    + rewrite lookup_insert_eq in H2. rewrite lookup_insert_ne in H1 by congruence.
      injection H2 as <- _. apply Hfresh in H1. lia.
    + rewrite lookup_insert_ne in H1 by congruence.
      rewrite lookup_insert_ne in H2 by congruence.
      exact (Hinj _ _ _ _ _ H1 H2).
  - intros d' ref c Hd'. destruct (decide (d' = d)) as [->|Hne].
    + rewrite lookup_insert_eq in Hd'. injection Hd' as <- _. lia.
    + rewrite lookup_insert_ne in Hd' by congruence. apply Hfresh in Hd'. lia.
Qed.

(** The client returned by [getClient] is the one registered afterwards. *)
Lemma getClient_lookup (d : Z) (h : string) (p : Z) (pool : t C) :
  clients (snd (getClient d h p pool)) !! d = Some (fst (getClient d h p pool)).
Proof.
  unfold getClient. destruct (clients pool !! d) as [client|] eqn:Hd; cbn [fst snd clients].
  - exact Hd.
  - apply lookup_insert_eq.
Qed.

Lemma request_ok (d : Z) (h : string) (p : Z) (q : link_request) (pool : t C) :
  pool_ok pool -> pool_ok (snd (request d h p q pool)).
Proof.
  intros Hok. unfold request.
  pose proof (getClient_ok d h p pool Hok) as [Hinj Hfresh].
  pose proof (getClient_lookup d h p pool) as Hl.
  destruct (getClient d h p pool) as [[ref c] pool1]. cbn [fst snd] in *.
  destruct (link_perform q c) as [r c']. cbn [snd].
  split; cbn [clients next_ref].
  - intros d1 d2 ref0 c1 c2 H1 H2.
    destruct (decide (d1 = d)) as [->|Hn1], (decide (d2 = d)) as [->|Hn2].
    + reflexivity.
    + rewrite lookup_insert_eq in H1. rewrite lookup_insert_ne in H2 by congruence.
      injection H1 as <- _. exact (Hinj _ _ _ _ _ Hl H2).
    + rewrite lookup_insert_eq in H2. rewrite lookup_insert_ne in H1 by congruence.
      injection H2 as <- _. exact (Hinj _ _ _ _ _ H1 Hl).
    + rewrite lookup_insert_ne in H1 by congruence.
      rewrite lookup_insert_ne in H2 by congruence.
      exact (Hinj _ _ _ _ _ H1 H2).
  - intros d' ref0 c0 Hd'. destruct (decide (d' = d)) as [->|Hne].
    + rewrite lookup_insert_eq in Hd'. injection Hd' as <- _. exact (Hfresh _ _ _ Hl).
    + rewrite lookup_insert_ne in Hd' by congruence. exact (Hfresh _ _ _ Hd').
Qed.

Lemma disconnect_ok (d : Z) (pool : t C) : pool_ok pool -> pool_ok (disconnect d pool).
Proof.
  intros [Hinj Hfresh]. unfold disconnect.
  destruct (clients pool !! d) as [client|]; [|split; assumption].
  split; cbn [clients next_ref].
  - intros d1 d2 ref c1 c2 H1 H2.
    apply lookup_delete_Some in H1 as [_ H1]. apply lookup_delete_Some in H2 as [_ H2].
    exact (Hinj _ _ _ _ _ H1 H2).
  - intros d' ref c Hd'. apply lookup_delete_Some in Hd' as [_ Hd'].
    exact (Hfresh _ _ _ Hd').
Qed.

Lemma disconnectAll_ok (pool : t C) : pool_ok (disconnectAll pool).
Proof.
  split; cbn [disconnectAll clients].
  - intros d1 d2 ref c1 c2 H1. rewrite lookup_empty in H1. discriminate.
  - intros d ref c Hd. rewrite lookup_empty in Hd. discriminate.
Qed.

Lemma pool_step_ok (pool : t C) (op : Op) : pool_ok pool -> pool_ok (step pool op).
Proof.
  intros Hok. destruct op; cbn [step].
  - apply getClient_ok. exact Hok.
  - apply request_ok. exact Hok.
  - exact Hok.
  - apply disconnect_ok. exact Hok.
  - apply disconnectAll_ok.
Qed.

Lemma pool_run_ok (ops : list Op) (pool : t C) : pool_ok pool -> pool_ok (run pool ops).
Proof.
  revert pool. induction ops as [|op ops IH]; intros pool Hok; [exact Hok|].
  cbn [run fold_left]. apply IH, pool_step_ok. exact Hok.
Qed.

(** In every pool reached from the empty one: two device ids never share
    a client object, and the client built for a device that has none is an
    object that no device of the pool holds. *)
Lemma one_client_per_device (ops : list Op) :
  let pool := run empty ops in
  (forall d1 d2 ref c1 c2,
      clients pool !! d1 = Some (ref, c1) -> clients pool !! d2 = Some (ref, c2) -> d1 = d2)
  /\ (forall d h p d' ref c,
        clients pool !! d = None ->
        clients pool !! d' = Some (ref, c) ->
        fst (fst (getClient d h p pool)) <> ref).
Proof.
  cbv zeta. pose proof (pool_run_ok ops empty pool_ok_empty) as [Hinj Hfresh].
  split; [exact Hinj|].
  intros d h p d' ref c Hd Hd'. unfold getClient. rewrite Hd. cbn [fst].
  apply Hfresh in Hd'. lia.
Qed.

End WithClient.

(** X8. In both pools, through every sequence of [getClient], commands,
    [getStatus], [disconnect] and [disconnectAll] from the empty pool, two
    device ids never share a client object, and the client created for a
    device that has none is a new object, held by no other device. *)
Theorem pools_one_client_per_device
    (sops : list (@Op SWP08.Client _)) (rops : list (@Op RossTalk.Client _)) :
  let spool := run empty sops in
  let rpool := run empty rops in
  ((forall d1 d2 ref c1 c2,
       clients spool !! d1 = Some (ref, c1) -> clients spool !! d2 = Some (ref, c2) ->
       d1 = d2)
   /\ (forall d h p d' ref c,
         clients spool !! d = None -> clients spool !! d' = Some (ref, c) ->
         fst (fst (getClient d h p spool)) <> ref))
  /\ ((forall d1 d2 ref c1 c2,
          clients rpool !! d1 = Some (ref, c1) -> clients rpool !! d2 = Some (ref, c2) ->
          d1 = d2)
      /\ (forall d h p d' ref c,
            clients rpool !! d = None -> clients rpool !! d' = Some (ref, c) ->
            fst (fst (getClient d h p rpool)) <> ref)).
Proof.
  cbv zeta. split.
  - exact (one_client_per_device (C := SWP08.Client) sops).
  - exact (one_client_per_device (C := RossTalk.Client) rops).
Qed.

Lemma pools_one_client_per_device_witness :
  let sops := [OpGetClient (C := SWP08.Client) 1 "10.0.0.5" 2000;
               OpGetClient (C := SWP08.Client) 2 "10.0.0.6" 2000;
               OpDisconnect (C := SWP08.Client) 1] in
  let spool := run empty sops in
  clients spool !! 1 = None
  /\ clients spool !! 2 = Some (1%nat, SWP08.new "10.0.0.6" 2000)
  /\ fst (fst (getClient 1 "10.0.0.5" 2000 spool)) <> 1%nat.
Proof.
  cbv zeta.
  split; [vm_compute; reflexivity|]. split; [vm_compute; reflexivity|].
  apply (proj2 (proj1 (pools_one_client_per_device
                  [OpGetClient (C := SWP08.Client) 1 "10.0.0.5" 2000;
                   OpGetClient (C := SWP08.Client) 2 "10.0.0.6" 2000;
                   OpDisconnect (C := SWP08.Client) 1] []))
               1 "10.0.0.5" 2000 2 1%nat (SWP08.new "10.0.0.6" 2000));
    vm_compute; reflexivity.
Defined.

End PoolMore.

(** ** The record store: logs, schedules and the join with devices *)

Module StoreFacts.

Import Database Store DatabaseFacts Wellformed.

Lemma slice_last_suffix {A} (n : Z) (l : list A) :
  exists dropped, l = dropped ++ slice_last n l.
Proof.
  unfold slice_last. eexists. symmetry. apply firstn_skipn.
Qed.

Lemma pushed_length (data : DatabaseData) (log : LogEntry) (t : string) :
  Z.of_nat (length (command_log (snd (createLog data log t))))
  = Z.min (Z.of_nat (length (command_log data)) + 1) 10000.
Proof.
  unfold createLog. cbn [snd command_log].
  rewrite length_app. cbn [length].
  destruct (Z.ltb_spec 10000 (Z.of_nat (length (command_log data) + 1))) as [Hlt|Hge].
  - unfold slice_last. rewrite length_skipn, length_app. cbn [length]. lia.
  - rewrite length_app. cbn [length]. lia.
Qed.

(** X9. [createLog] gives the new row the next id, appends it as the last
    row, and keeps at most the 10000 most recent rows: the log afterwards is
    the end of the old log followed by the new row, of length
    min(old length + 1, 10000); schedules and devices are untouched. *)
Theorem createLog_keeps_recent_rows (data : DatabaseData) (log : LogEntry) (t : string) :
  let row := fst (createLog data log t) in
  let data' := snd (createLog data log t) in
  log_id row = nextId_command_log data
  /\ nextId_command_log data' = nextId_command_log data + 1
  /\ Z.of_nat (length (command_log data'))
     = Z.min (Z.of_nat (length (command_log data)) + 1) 10000
  /\ (exists dropped, command_log data ++ [row] = dropped ++ command_log data')
  /\ (forall d, List.last (command_log data') d = row)
  /\ schedules data' = schedules data /\ devices data' = devices data.
Proof.
  cbv zeta. split; [reflexivity|]. split; [reflexivity|].
  split; [apply pushed_length|]. split; [|split; [|split; reflexivity]].
  - unfold createLog. cbn [fst snd command_log].
    destruct (10000 <? _); [apply slice_last_suffix | exists []; reflexivity].
  - intros d. apply createLog_last.
Qed.

Lemma StronglySorted_app_one (l : list Z) (x : Z) :
  StronglySorted Z.lt l -> Forall (fun y => y < x) l -> StronglySorted Z.lt (l ++ [x]).
Proof.
  induction 1 as [|y l Hs IH Hy]; intros Hx; cbn [app].
  - repeat constructor.
  - inversion Hx as [|? ? Hyx Hlx]; subst. constructor; [apply IH; exact Hlx|].
    apply Forall_app. split; [exact Hy | repeat constructor; exact Hyx].
Qed.

Lemma StronglySorted_skipn (n : nat) (l : list Z) :
  StronglySorted Z.lt l -> StronglySorted Z.lt (skipn n l).
Proof.
  revert l. induction n as [|n IH]; intros l Hs; [exact Hs|].
  destruct l as [|y l]; [constructor|]. cbn [skipn]. apply IH.
  inversion Hs; assumption.
Qed.

Lemma Forall_skipn {A} (P : A -> Prop) (n : nat) (l : list A) :
  Forall P l -> Forall P (skipn n l).
Proof.
  revert l. induction n as [|n IH]; intros l Hl; [exact Hl|].
  destruct l as [|y l]; [constructor|]. cbn [skipn]. apply IH. inversion Hl; assumption.
Qed.

Lemma createLog_ids_ok (data : DatabaseData) (log : LogEntry) (t : string) :
  log_ids_ok data -> log_ids_ok (snd (createLog data log t)).
Proof.
  intros [Hs Hb]. unfold log_ids_ok, createLog. cbn [snd command_log nextId_command_log].
  set (row := {| log_id := nextId_command_log data |}).
  assert (Hs' : StronglySorted Z.lt (map log_id (command_log data ++ [row]))).
  { rewrite map_app. apply StronglySorted_app_one; [exact Hs|].
    apply Forall_map. exact Hb. }
  assert (Hb' : Forall (fun l => log_id l < nextId_command_log data + 1)
                       (command_log data ++ [row])).
  { apply Forall_app. split.
    - eapply Forall_impl; [exact Hb|]. cbn. intros; lia.
    - repeat constructor. cbn. lia. }
  destruct (10000 <? _); [|split; assumption].
  unfold slice_last. split.
  - rewrite <- skipn_map. apply StronglySorted_skipn. exact Hs'.
  - apply Forall_skipn. exact Hb'.
Qed.

(** X10. Starting from a log whose ids increase and are below the next id
    (an empty log is one), any series of [createLog] calls keeps the ids
    increasing along the log: no two rows ever share an id, even after old
    rows have been dropped at the cap. *)
Theorem log_ids_stay_distinct (data : DatabaseData) (entries : list (LogEntry * string)) :
  log_ids_ok data ->
  let data' := fold_left (fun d e => snd (createLog d (fst e) (snd e))) entries data in
  StronglySorted Z.lt (map log_id (command_log data'))
  /\ NoDup (map log_id (command_log data')).
Proof.
  intros Hok. cbv zeta.
  assert (Hok' : log_ids_ok (fold_left (fun d e => snd (createLog d (fst e) (snd e)))
                                       entries data)).
  { revert data Hok. induction entries as [|e entries IH]; intros data Hok; [exact Hok|].
    cbn [fold_left]. apply IH, createLog_ids_ok. exact Hok. }
  destruct Hok' as [Hs _]. split; [exact Hs|].
  clear -Hs. induction Hs as [|y l Hs IH Hy]; [constructor|].
  constructor; [|exact IH]. intros Hin.
  rewrite Forall_forall in Hy. apply Hy in Hin. lia.
Qed.

Lemma log_ids_stay_distinct_witness :
  let entry := {| entry_schedule_id := None; entry_device_id := 1;
                  entry_command := "TAKE 7"; entry_status := status_success;
                  entry_response := Some "OK"%string |} in
  let data' := fold_left (fun d e => snd (createLog d (fst e) (snd e)))
                         [(entry, Fixture.iso 0); (entry, Fixture.iso 1000)] Fixture.data in
  StronglySorted Z.lt (map log_id (command_log data'))
  /\ NoDup (map log_id (command_log data')).
Proof.
  apply (log_ids_stay_distinct Fixture.data).
  split; [constructor | constructor].
Defined.

Lemma apply_patch_no_change (s : ScheduleRecord) : apply_patch no_change s = s.
Proof. destruct s. reflexivity. Qed.

Lemma update_first_ids (i : Z) (p : SchedulePatch) (l : list ScheduleRecord) :
  map id (update_first i p l) = map id l.
Proof.
  induction l as [|s l IH]; [reflexivity|]. cbn [update_first].
  destruct (id s =? i); cbn [map]; [reflexivity | rewrite IH; reflexivity].
Qed.

Lemma update_first_missing (i : Z) (p : SchedulePatch) (l : list ScheduleRecord) :
  find (fun s => id s =? i) l = None -> update_first i p l = l.
Proof.
  induction l as [|s l IH]; [reflexivity|]. cbn [find update_first].
  destruct (id s =? i); [discriminate|]. intros Hn. rewrite IH by exact Hn. reflexivity.
Qed.

(** X11. [updateSchedule(id, fields)]: reading the schedule back gives the
    stored record with exactly the given fields replaced; every other id
    reads as before; the ids and the order of the records do not change;
    for an id that is not in the store nothing changes at all; devices and
    log are untouched. *)
Theorem updateSchedule_reads_back (data : DatabaseData) (i : Z) (p : SchedulePatch) :
  let data' := Database.updateSchedule data i p in
  getSchedule data' i = apply_patch p <$> getSchedule data i
  /\ (forall i', i' <> i -> getSchedule data' i' = getSchedule data i')
  /\ map id (schedules data') = map id (schedules data)
  /\ (getSchedule data i = None -> data' = data)
  /\ devices data' = devices data /\ command_log data' = command_log data.
Proof.
  cbv zeta. split; [|split; [|split; [|split; [|split; reflexivity]]]].
  - rewrite getSchedule_updateSchedule, Z.eqb_refl. reflexivity.
  - intros i' Hne. rewrite getSchedule_updateSchedule.
    destruct (Z.eqb_spec i' i); [contradiction | reflexivity].
  - apply update_first_ids.
  - unfold getSchedule, Database.updateSchedule. intros Hn.
    rewrite update_first_missing by exact Hn. destruct data. reflexivity.
Qed.

Lemma updateSchedule_reads_back_witness :
  getSchedule (Database.updateSchedule Fixture.data 7 (patch_enabled false)) 7 = None
  /\ Database.updateSchedule Fixture.data 7 (patch_enabled false) = Fixture.data
  /\ enabled <$> getSchedule (Database.updateSchedule Fixture.data 2 (patch_enabled false)) 2
     = Some false.
Proof.
  destruct (updateSchedule_reads_back Fixture.data 7 (patch_enabled false))
    as (H1 & _ & _ & H4 & _).
  destruct (updateSchedule_reads_back Fixture.data 2 (patch_enabled false))
    as (H1' & _).
  split; [rewrite H1; reflexivity|]. split; [apply H4; reflexivity|].
  rewrite H1'. reflexivity.
Defined.

(** What [getEnabledSchedules] returns comes from enabled records of the store. *)
Lemma getEnabledSchedules_elem (data : DatabaseData) (s : ScheduleWithDevice) :
  s ∈ getEnabledSchedules data ->
  record s ∈ schedules data /\ enabled (record s) = true.
Proof.
  unfold getEnabledSchedules. rewrite list_elem_of_omap.
  intros (r & Hr & Hjoin). apply list_elem_of_filter in Hr as [Hen Hr].
  destruct (find _ (devices data)); [|discriminate].
  injection Hjoin as <-. cbn [record]. auto.
Qed.

(** X12. [getEnabledSchedules] returns exactly the enabled schedules that
    have an enabled device: each result is an enabled record of the store
    joined with the host, port and type of the first enabled device with
    its device id; an enabled schedule is left out exactly when no such
    device exists. *)
Theorem getEnabledSchedules_joins_enabled_devices (data : DatabaseData)
    (s : ScheduleWithDevice) :
  s ∈ getEnabledSchedules data <->
  record s ∈ schedules data
  /\ enabled (record s) = true
  /\ exists device,
       find (fun d => (dev_id d =? device_id (record s)) && dev_enabled d) (devices data)
       = Some device
       /\ device ∈ devices data
       /\ dev_id device = device_id (record s) /\ dev_enabled device = true
       /\ host s = dev_host device /\ port s = dev_port device
       /\ device_type s = dev_type device.
Proof.
  unfold getEnabledSchedules. rewrite list_elem_of_omap. split.
  - intros (r & Hr & Hjoin). apply list_elem_of_filter in Hr as [Hen Hr].
    destruct (find _ (devices data)) as [device|] eqn:Hf; [|discriminate].
    injection Hjoin as <-. cbn [record host port device_type].
    split; [exact Hr|]. split; [exact Hen|].
    exists device. pose proof (find_some _ _ Hf) as [Hin Hd].
    apply andb_prop in Hd as [Hid Hde]. apply Z.eqb_eq in Hid.
    split; [exact Hf|]. split; [apply list_elem_of_In; exact Hin|]. auto.
  - intros (Hr & Hen & device & Hf & _ & _ & _ & Hh & Hp & Ht).
    exists (record s). split; [apply list_elem_of_filter; auto|].
    rewrite Hf. destruct s. cbn in *. subst. reflexivity.
Qed.

Lemma getEnabledSchedules_joins_enabled_devices_witness :
  mkJoined Fixture.take_once "10.0.0.7" 7788 xpression ∈ getEnabledSchedules Fixture.data.
Proof.
  apply (proj2 (getEnabledSchedules_joins_enabled_devices Fixture.data
                  (mkJoined Fixture.take_once "10.0.0.7" 7788 xpression))).
  split; [repeat constructor|]. split; [reflexivity|].
  exists Fixture.xpression1. repeat split; repeat constructor.
Defined.

Lemma forget_schedule_refers (i : Z) (l : CommandLogRecord) :
  refers_to (forget_schedule i l) i = false.
Proof.
  unfold forget_schedule. destruct (refers_to l i) eqn:E; [reflexivity | exact E].
Qed.

Lemma find_filter_other (i i' : Z) (l : list ScheduleRecord) :
  i' <> i ->
  find (fun s => id s =? i') (List.filter (fun s => negb (id s =? i)) l)
  = find (fun s => id s =? i') l.
Proof.
  intros Hne. induction l as [|s l IH]; [reflexivity|]. cbn [List.filter find].
  destruct (Z.eqb_spec (id s) i) as [Hi|Hi]; cbn [negb find].
  - destruct (Z.eqb_spec (id s) i'); [congruence | exact IH].
  - destruct (id s =? i'); [reflexivity | exact IH].
Qed.

Lemma find_filter_same (i : Z) (l : list ScheduleRecord) :
  find (fun s => id s =? i) (List.filter (fun s => negb (id s =? i)) l) = None.
Proof.
  induction l as [|s l IH]; [reflexivity|]. cbn [List.filter].
  destruct (id s =? i) eqn:E; cbn [negb find]; [exact IH|]. rewrite E. exact IH.
Qed.

(** X13. [deleteSchedule(id)] removes every record with that id and no
    other; the log keeps all its rows, in order and with their ids, and the
    rows of the deleted schedule only lose their schedule reference, so that
    no row refers to the deleted id afterwards. *)
Theorem deleteSchedule_keeps_log_rows (data : DatabaseData) (i : Z) :
  let data' := deleteSchedule data i in
  getSchedule data' i = None
  /\ (forall i', i' <> i -> getSchedule data' i' = getSchedule data i')
  /\ map log_id (command_log data') = map log_id (command_log data)
  /\ map (fun l => (log_device_id l, log_command l, log_status l, log_response l,
                    log_executed_at l)) (command_log data')
     = map (fun l => (log_device_id l, log_command l, log_status l, log_response l,
                      log_executed_at l)) (command_log data)
  /\ logs_of_schedule data' i = []
  /\ (forall i', i' <> i -> map log_id (logs_of_schedule data' i')
                            = map log_id (logs_of_schedule data i'))
  /\ devices data' = devices data.
Proof.
  cbv zeta. unfold getSchedule, deleteSchedule, logs_of_schedule.
  cbn [schedules command_log devices].
  split; [apply find_filter_same|]. split; [intros i' Hne; apply find_filter_other; exact Hne|].
  split; [|split; [|split; [|split; [|reflexivity]]]].
  - rewrite map_map. apply map_ext. intros l. unfold forget_schedule.
    destruct (refers_to l i); reflexivity.
  - rewrite map_map. apply map_ext. intros l. unfold forget_schedule.
    destruct (refers_to l i); reflexivity.
  - induction (command_log data) as [|l ls IH]; [reflexivity|]. cbn [map List.filter].
    rewrite forget_schedule_refers. exact IH.
  - intros i' Hne. induction (command_log data) as [|l ls IH]; [reflexivity|].
    cbn [map List.filter].
    assert (E : refers_to (forget_schedule i l) i' = refers_to l i').
    { unfold forget_schedule. destruct (refers_to l i) eqn:Hr; [|reflexivity].
      unfold refers_to in *. cbn [log_schedule_id].
      destruct (log_schedule_id l) as [j|]; [|reflexivity].
      apply Z.eqb_eq in Hr. subst. symmetry. apply Z.eqb_neq. congruence. }
    rewrite E. destruct (refers_to l i'); cbn [map]; [|exact IH].
    rewrite IH. f_equal. unfold forget_schedule. destruct (refers_to l i); reflexivity.
Qed.

Lemma deleteSchedule_keeps_log_rows_witness :
  getSchedule (deleteSchedule Fixture.data 2) 1 = Some Fixture.take_once.
Proof.
  destruct (deleteSchedule_keeps_log_rows Fixture.data 2) as (_ & H2 & _).
  rewrite (H2 1 ltac:(lia)). reflexivity.
Defined.

End StoreFacts.

(** ** The scheduler: what the registry refers to, cancelling and stopping *)

Module SchedulerMore.

Import Database Scheduler DatabaseFacts RegistryFacts PipelineFacts Wellformed.

Lemma registry_sound_same (st st' : State) :
  jobs st' = jobs st -> timers st' = timers st ->
  registry_sound st -> registry_sound st'.
Proof. intros Hj Ht Hs sid job. rewrite Hj, Ht. apply Hs. Qed.

Lemma registry_sound_initial (data : DatabaseData) : registry_sound (initial data).
Proof. intros sid job Hj. cbn in Hj. rewrite lookup_empty in Hj. discriminate. Qed.

(** Two entries of a sound registry for different schedules refer to
    different job objects. *)
Lemma registry_sound_distinct (st : State) (sid sid' : Z) (job job' : nat) :
  registry_sound st ->
  jobs st !! sid = Some job -> jobs st !! sid' = Some job' -> sid <> sid' -> job <> job'.
Proof.
  intros Hs H1 H2 Hne ->.
  destruct (Hs _ _ H1) as (j & Hj & Hid). destruct (Hs _ _ H2) as (j' & Hj' & Hid').
  congruence.
Qed.

Section WithRuntime.
Context `{Runtime}.

Lemma cancelJob_sound (st : State) (sid : Z) :
  registry_sound st -> registry_sound (cancelJob sid st).
Proof.
  intros Hs. unfold cancelJob.
  destruct (jobs st !! sid) as [old|] eqn:Hold; [|exact Hs].
  intros sid' job Hj. cbn [jobs timers] in *.
  apply lookup_delete_Some in Hj as [Hne Hj].
  destruct (Hs _ _ Hj) as (j & Htj & Hid).
  rewrite lookup_alter. destruct (decide (old = job)) as [->|Hn].
  - rewrite Htj. exists (cancel j). auto.
  - eauto.
Qed.

Lemma scheduleJob_sound (st : State) (sched : ScheduleData) (now : Z) :
  registry_ok st -> registry_sound st -> registry_sound (scheduleJob sched now st).
Proof.
  intros Hok Hs. unfold scheduleJob.
  pose proof (cancelJob_ok st (id (record sched)) Hok) as (_ & _ & Hreg).
  pose proof (cancelJob_sound st (id (record sched)) Hs) as Hs1.
  set (st1 := cancelJob (id (record sched)) st) in *.
  destruct (make_job sched now) as [j|] eqn:Hj; [|exact Hs1].
  apply make_job_inv in Hj as [Hsched _].
  assert (Hs2 : registry_sound
                  {| db := db st1;
                     jobs := <[id (record sched) := next_job st1]> (jobs st1);
                     timers := <[next_job st1 := j]> (timers st1);
                     next_job := S (next_job st1);
                     rossTalkPool := rossTalkPool st1; swp08Pool := swp08Pool st1;
                     sent := sent st1 |}).
  { intros sid job Hjob. cbn [jobs timers] in *.
    destruct (decide (sid = id (record sched))) as [->|Hne].
    - rewrite lookup_insert_eq in Hjob. injection Hjob as <-.
      exists j. rewrite lookup_insert_eq, Hsched. auto.
    - rewrite lookup_insert_ne in Hjob by congruence.
      pose proof (Hreg _ _ Hjob) as Hlt.
      destruct (Hs1 _ _ Hjob) as (j' & Hj' & Hid).
      exists j'. rewrite lookup_insert_ne by lia. auto. }
  destruct (nextInvocation _ _); [|exact Hs2].
  eapply registry_sound_same; [| |exact Hs2]; reflexivity.
Qed.

Lemma fire_sound (st : State) (job : nat) (net : Net) (now : Z) :
  registry_sound st -> registry_sound (fire job net now st).
Proof.
  intros Hs. unfold fire.
  destruct (timers st !! job) as [j|] eqn:Hj; [|exact Hs].
  destruct (pending j) as [due|]; [|exact Hs].
  destruct (due <=? now); [|exact Hs].
  assert (Hrep : forall j', job_sched j' = job_sched j ->
            registry_sound
              {| db := db st; jobs := jobs st; timers := <[job := j']> (timers st);
                 next_job := next_job st; rossTalkPool := rossTalkPool st;
                 swp08Pool := swp08Pool st; sent := sent st |}).
  { intros j' Hj' sid job0 Hjob0. cbn [jobs timers] in *.
    destruct (Hs _ _ Hjob0) as (j0 & Hj0 & Hid).
    destruct (decide (job0 = job)) as [->|Hne].
    - exists j'. rewrite lookup_insert_eq. split; [reflexivity|]. congruence.
    - exists j0. rewrite lookup_insert_ne by congruence. auto. }
  destruct (spec j) as [expression|runDate].
  - match goal with |- registry_sound (snd (executeCommand ?s ?n ?w ?t)) =>
      pose proof (executeCommand_registry s n w t) as (Hj' & Ht' & _);
      apply (registry_sound_same t _ Hj' Ht')
    end.
    apply Hrep. reflexivity.
  - match goal with |- registry_sound (with_db (snd (executeCommand ?s ?n ?w ?t)) _) =>
      pose proof (executeCommand_registry s n w t) as (Hj' & Ht' & _);
      apply (registry_sound_same t _ Hj' Ht')
    end.
    apply Hrep. reflexivity.
Qed.

Lemma step_sound (st : State) (op : Op) :
  registry_ok st -> registry_sound st -> registry_sound (step st op).
Proof.
  intros Hok Hs. destruct op; cbn [step].
  - unfold loadSchedules. generalize (getEnabledSchedules (db st)) as l. intros l.
    revert st Hok Hs. induction l as [|sched l IH]; intros st Hok Hs; [exact Hs|].
    cbn [fold_left]. apply IH; [apply scheduleJob_ok | apply scheduleJob_sound]; assumption.
  - match goal with |- registry_sound (snd (runNow ?i ?n ?w ?t)) =>
      pose proof (runNow_registry i n w t) as (Hj & Ht & _)
    end.
    apply (registry_sound_same st _ Hj Ht Hs).
  - unfold addSchedule. destruct (find _ _); [apply scheduleJob_sound|]; assumption.
  - unfold updateSchedule, addSchedule. destruct (find _ _).
    + apply scheduleJob_sound; [apply cancelJob_ok | apply cancelJob_sound]; assumption.
    + apply cancelJob_sound. exact Hs.
  - apply cancelJob_sound. exact Hs.
  - unfold enableSchedule, addSchedule.
    destruct (find _ _); [apply scheduleJob_sound|]; assumption.
  - apply cancelJob_sound. exact Hs.
  - intros sid job Hj. cbn in Hj. rewrite lookup_empty in Hj. discriminate.
  - apply fire_sound. exact Hs.
  - apply (registry_sound_same st); auto.
Qed.

Lemma run_sound (ops : list Op) (st : State) :
  registry_ok st -> registry_sound st ->
  registry_ok (run st ops) /\ registry_sound (run st ops).
Proof.
  revert st. induction ops as [|op ops IH]; intros st Hok Hs; [auto|].
  cbn [run fold_left]. apply IH; [apply step_ok | apply step_sound]; assumption.
Qed.

Lemma reachable_ok (data : DatabaseData) (ops : list Op) :
  registry_ok (run (initial data) ops) /\ registry_sound (run (initial data) ops).
Proof. apply run_sound; [apply registry_ok_initial | apply registry_sound_initial]. Qed.

(** X14. In every state the scheduler reaches, an entry of the registry
    refers to an existing job object made for that very schedule id, and
    [getNextRun(id)] is the pending invocation of that object ([null] when
    it has none or there is no entry). *)
Theorem registry_entries_name_their_schedule (data : DatabaseData) (ops : list Op) (sid : Z) :
  let st := run (initial data) ops in
  match jobs st !! sid with
  | Some job =>
      exists j, timers st !! job = Some j
                /\ id (record (job_sched j)) = sid
                /\ getNextRun sid st = pending j
  | None => getNextRun sid st = None
  end.
Proof.
  cbv zeta. destruct (reachable_ok data ops) as [_ Hs].
  unfold getNextRun, nextInvocation.
  destruct (jobs (run (initial data) ops) !! sid) as [job|] eqn:Hj; [|reflexivity].
  destruct (Hs _ _ Hj) as (j & Htj & Hid). exists j. rewrite Htj. auto.
Qed.

(** X15. [cancelJob(id)] (and [disableSchedule(id)]) in a reached state:
    afterwards the schedule has no registry entry, no next run and no live
    timer; the entries, next runs and live timers of every other schedule,
    and the store, are as before. *)
Theorem cancelJob_cancels_only_its_schedule (data : DatabaseData) (ops : list Op) (sid : Z) :
  let st := run (initial data) ops in
  let st' := cancelJob sid st in
  disableSchedule sid st = st'
  /\ jobs st' !! sid = None
  /\ getNextRun sid st' = None
  /\ (forall job, live st' job sid = false)
  /\ (forall sid', sid' <> sid ->
        jobs st' !! sid' = jobs st !! sid'
        /\ getNextRun sid' st' = getNextRun sid' st
        /\ forall job, live st' job sid' = live st job sid')
  /\ db st' = db st.
Proof.
  cbv zeta. destruct (reachable_ok data ops) as [Hok Hs].
  set (st := run (initial data) ops) in *.
  split; [reflexivity|].
  assert (Hnone : jobs (cancelJob sid st) !! sid = None).
  { unfold cancelJob. destruct (jobs st !! sid) eqn:Hj; [|exact Hj].
    cbn [jobs]. apply lookup_delete_eq. }
  split; [exact Hnone|]. split; [unfold getNextRun; rewrite Hnone; reflexivity|].
  split; [intros job; apply cancelJob_not_live; exact Hok|].
  split; [|unfold cancelJob; destruct (jobs st !! sid); reflexivity].
  intros sid' Hne. unfold cancelJob, getNextRun, nextInvocation, live.
  destruct (jobs st !! sid) as [old|] eqn:Hold; [|auto]. cbn [jobs timers].
  rewrite lookup_delete_ne by congruence.
  destruct (Hs _ _ Hold) as (jo & Hjo & Hido).
  split; [reflexivity|]. split.
  - destruct (jobs st !! sid') as [job'|] eqn:Hj'; [|reflexivity].
    rewrite lookup_alter_ne; [reflexivity|].
    apply (registry_sound_distinct st sid sid'); auto.
  - intros job. rewrite lookup_alter. destruct (decide (old = job)) as [->|Hn]; [|reflexivity].
    rewrite Hjo. cbn [fmap option_fmap option_map cancel pending job_sched].
    destruct (pending jo); [|reflexivity].
    symmetry. apply Z.eqb_neq. congruence.
Qed.

(** X16. [stopAll()] in a reached state: the registry is empty, no timer is
    live, every [getNextRun] is [null], both pools are empty, the store is
    untouched, and whatever timer node-schedule might still try to fire
    afterwards runs nothing. *)
Theorem stopAll_stops_everything (data : DatabaseData) (ops : list Op) :
  let st' := stopAll (run (initial data) ops) in
  jobs st' = ∅
  /\ (forall job sid, live st' job sid = false)
  /\ (forall sid, getNextRun sid st' = None)
  /\ Pool.clients (rossTalkPool st') = ∅ /\ Pool.clients (swp08Pool st') = ∅
  /\ db st' = db (run (initial data) ops)
  /\ (forall job net now, fire job net now st' = st').
Proof.
  cbv zeta. destruct (reachable_ok data ops) as [Hok _].
  pose proof (stopAll_ok _ Hok) as (Hlive & _ & _).
  set (st' := stopAll (run (initial data) ops)) in *.
  assert (Hj : jobs st' = ∅) by reflexivity.
  assert (Hdead : forall job sid, live st' job sid = false).
  { intros job sid. destruct (live st' job sid) eqn:Hl; [|reflexivity].
    apply Hlive in Hl. rewrite Hj, lookup_empty in Hl. discriminate. }
  split; [exact Hj|]. split; [exact Hdead|].
  split; [intros sid; unfold getNextRun; rewrite Hj, lookup_empty; reflexivity|].
  split; [reflexivity|]. split; [reflexivity|]. split; [reflexivity|].
  intros job net now. unfold fire.
  destruct (timers st' !! job) as [j|] eqn:Htj; [|reflexivity].
  destruct (pending j) as [due|] eqn:Hp; [|reflexivity]. exfalso.
  specialize (Hdead job (id (record (job_sched j)))).
  unfold live in Hdead. rewrite Htj, Hp, Z.eqb_refl in Hdead. discriminate.
Qed.

Lemma cancelJob_idem (st : State) (sid : Z) :
  cancelJob sid (cancelJob sid st) = cancelJob sid st.
Proof.
  unfold cancelJob at 1.
  assert (Hnone : jobs (cancelJob sid st) !! sid = None).
  { unfold cancelJob. destruct (jobs st !! sid) eqn:Hj; [|exact Hj].
    cbn [jobs]. apply lookup_delete_eq. }
  rewrite Hnone. reflexivity.
Qed.

(** X17. [updateSchedule(id)] rebuilds the job from the store: if the
    store no longer lists the schedule among the enabled ones (with an
    enabled device), no entry is left for the id; and an entry left for the
    id is a new job object with a pending invocation whose callback closes
    over the record now in the store, joined with its device. *)
Theorem updateSchedule_rebuilds_from_store (st : State) (sid : Z) (now : Z) :
  let st' := updateSchedule sid now st in
  let current := find (fun s => id (record s) =? sid) (getEnabledSchedules (db st)) in
  (current = None -> jobs st' !! sid = None /\ db st' = db st)
  /\ (forall job, jobs st' !! sid = Some job ->
        exists j sched,
          current = Some sched
          /\ timers st' !! job = Some j
          /\ job_sched j = sched
          /\ is_Some (pending j)
          /\ job = next_job st).
Proof.
  cbv zeta. unfold updateSchedule, addSchedule.
  assert (Hc : jobs (cancelJob sid st) !! sid = None /\ db (cancelJob sid st) = db st
               /\ next_job (cancelJob sid st) = next_job st).
  { unfold cancelJob. destruct (jobs st !! sid) eqn:Hj; [|auto].
    cbn [jobs db next_job]. rewrite lookup_delete_eq. auto. }
  destruct Hc as (Hnone & Hdb & Hnext). rewrite Hdb.
  destruct (find _ (getEnabledSchedules (db st))) as [sched|] eqn:Hf.
  - split; [discriminate|]. intros job.
    apply find_some in Hf as [_ Hid]. apply Z.eqb_eq in Hid.
    unfold scheduleJob. rewrite Hid.
    destruct (make_job sched now) as [j|] eqn:Hm.
    + apply make_job_inv in Hm as [Hs Hp].
      rewrite cancelJob_idem.
      destruct (nextInvocation _ _); unfold with_db; cbn [jobs timers];
        rewrite lookup_insert_eq; intros [= <-]; exists j, sched;
        rewrite lookup_insert_eq, Hnext; destruct Hp as [t Ht]; rewrite Ht; eauto.
    + rewrite cancelJob_idem, Hnone. discriminate.
  - split; [auto|]. intros job. rewrite Hnone. discriminate.
Qed.

End WithRuntime.

Lemma cancelJob_cancels_only_its_schedule_witness :
  let st := run (H := Fixture.runtime) (initial Fixture.data) [LoadSchedules 0] in
  let st' := cancelJob 2 st in
  jobs st' !! 2 = None
  /\ jobs st' !! 1 = Some 0%nat
  /\ getNextRun 1 st' = Some 60000
  /\ live st' 0%nat 1 = true.
Proof.
  cbv zeta.
  destruct (cancelJob_cancels_only_its_schedule (H := Fixture.runtime)
              Fixture.data [LoadSchedules 0] 2) as (_ & H2 & _ & _ & Hother & _).
  destruct (Hother 1 ltac:(lia)) as (Hj & Hn & Hl).
  split; [exact H2|]. split; [rewrite Hj; vm_compute; reflexivity|].
  split; [rewrite Hn; vm_compute; reflexivity|].
  rewrite Hl. vm_compute. reflexivity.
Defined.

Lemma updateSchedule_rebuilds_from_store_witness :
  let st := run (H := Fixture.runtime) (initial Fixture.data) [LoadSchedules 0] in
  exists j,
    timers (updateSchedule (H := Fixture.runtime) 2 30000 st) !! 3%nat = Some j
    /\ getSchedule (db st) 2 = Some (record (job_sched j))
    /\ host (job_sched j) = "10.0.0.5"%string.
Proof.
  cbv zeta.
  destruct (proj2 (updateSchedule_rebuilds_from_store (H := Fixture.runtime)
                     (run (H := Fixture.runtime) (initial Fixture.data) [LoadSchedules 0])
                     2 30000) 3%nat ltac:(vm_compute; reflexivity))
    as (j & sched & Hc & Hj & Hs & _).
  exists j. split; [exact Hj|]. rewrite Hs.
  vm_compute in Hc. injection Hc as <-. split; vm_compute; reflexivity.
Defined.

End SchedulerMore.

(** ** The scheduler: what a run writes to the store, and the load at
    start *)

Module PipelineMore.

Import Database Scheduler DatabaseFacts RegistryFacts PipelineFacts Wellformed SchedulerMore.

Section WithRuntime.
Context `{Runtime}.




(** X18. [runNow] never creates, replaces or cancels a job: registry and
    job objects are as before in every case.  For a schedule id that is not
    in the store it returns the failure "Schedule not found", and for a
    schedule whose device is not in the store "Device not found"; in both
    cases nothing is logged, sent or written. *)
Theorem runNow_touches_no_job (st : State) (sid : Z) (net : Net) (now : Z) :
  let st' := snd (runNow sid net now st) in
  (jobs st' = jobs st /\ timers st' = timers st /\ next_job st' = next_job st)
  /\ (getSchedule (db st) sid = None ->
      runNow sid net now st
      = (Returned {| success := false; message := "Schedule not found" |}, st))
  /\ (forall s, getSchedule (db st) sid = Some s ->
                getDevice (db st) (device_id s) = None ->
      runNow sid net now st
      = (Returned {| success := false; message := "Device not found" |}, st)).
Proof.
  cbv zeta. split; [apply runNow_registry|]. split.
  - intros Hs. unfold runNow. rewrite Hs. reflexivity.
  - intros s Hs Hd. unfold runNow. rewrite Hs, Hd. reflexivity.
Qed.



(** What the load at start keeps true of the registry: every entry is a
    live job for a schedule of the list being loaded. *)
Lemma load_step (l : list ScheduleData) (sched : ScheduleData) (now : Z) (st : State) :
  sched ∈ l ->
  registry_ok st ->
  (forall sid job, jobs st !! sid = Some job ->
     exists j, timers st !! job = Some j /\ job_sched j ∈ l
               /\ id (record (job_sched j)) = sid /\ is_Some (pending j)) ->
  forall sid job, jobs (scheduleJob sched now st) !! sid = Some job ->
    exists j, timers (scheduleJob sched now st) !! job = Some j /\ job_sched j ∈ l
              /\ id (record (job_sched j)) = sid /\ is_Some (pending j).
Proof.
  intros Hin Hok Hinv.
  assert (Hinv1 : forall sid job, jobs (cancelJob (id (record sched)) st) !! sid = Some job ->
     exists j, timers (cancelJob (id (record sched)) st) !! job = Some j /\ job_sched j ∈ l
               /\ id (record (job_sched j)) = sid /\ is_Some (pending j)).
  { unfold cancelJob. destruct (jobs st !! id (record sched)) as [old|] eqn:Hold;
      [|exact Hinv].
    intros sid job Hj. cbn [jobs timers] in *.
    apply lookup_delete_Some in Hj as [Hne Hj].
    destruct (Hinv _ _ Hj) as (j & Htj & Hl & Hid & Hp).
    destruct (Hinv _ _ Hold) as (jo & Htjo & _ & Hido & _).
    exists j. rewrite lookup_alter_ne; [auto|]. intros ->. congruence. }
  pose proof (cancelJob_ok st (id (record sched)) Hok) as (_ & _ & Hreg).
  unfold scheduleJob.
  set (st1 := cancelJob (id (record sched)) st) in *.
  destruct (make_job sched now) as [j|] eqn:Hm; [|exact Hinv1].
  apply make_job_inv in Hm as [Hs Hp].
  assert (Hnew : forall sid job,
             <[id (record sched) := next_job st1]> (jobs st1) !! sid = Some job ->
             exists j0, <[next_job st1 := j]> (timers st1) !! job = Some j0 /\ job_sched j0 ∈ l
                        /\ id (record (job_sched j0)) = sid /\ is_Some (pending j0)).
  { intros sid job Hjob. destruct (decide (sid = id (record sched))) as [->|Hne].
    - rewrite lookup_insert_eq in Hjob. injection Hjob as <-.
      exists j. rewrite lookup_insert_eq, Hs. destruct Hp as [t Ht]. rewrite Ht. eauto.
    - rewrite lookup_insert_ne in Hjob by congruence.
      pose proof (Hreg _ _ Hjob) as Hlt.
      destruct (Hinv1 _ _ Hjob) as (j0 & Hj0 & Hl0 & Hid0 & Hp0).
      exists j0. rewrite lookup_insert_ne by lia. auto. }
  destruct (nextInvocation _ _); exact Hnew.
Qed.

(** X21. After [loadSchedules()] on a scheduler just created, every entry
    of the registry is a job with a pending invocation, made for that
    schedule id from one of the records [getEnabledSchedules] returned: a
    disabled schedule, or one whose device is missing or disabled, gets no
    job. *)
Theorem loadSchedules_registers_enabled_only (data : DatabaseData) (now : Z)
    (sid : Z) (job : nat) :
  let st := loadSchedules now (initial data) in
  jobs st !! sid = Some job ->
  exists j,
    timers st !! job = Some j
    /\ job_sched j ∈ getEnabledSchedules data
    /\ id (record (job_sched j)) = sid
    /\ enabled (record (job_sched j)) = true
    /\ is_Some (pending j).
Proof.
  cbv zeta. unfold loadSchedules. cbn [initial db].
  assert (Hgen : forall l st,
             (forall x, x ∈ l -> x ∈ getEnabledSchedules data) ->
             registry_ok st ->
             (forall sid job, jobs st !! sid = Some job ->
                exists j, timers st !! job = Some j
                          /\ job_sched j ∈ getEnabledSchedules data
                          /\ id (record (job_sched j)) = sid /\ is_Some (pending j)) ->
             forall sid job,
               jobs (fold_left (fun st' sched => scheduleJob sched now st') l st) !! sid
               = Some job ->
               exists j,
                 timers (fold_left (fun st' sched => scheduleJob sched now st') l st) !! job
                 = Some j
                 /\ job_sched j ∈ getEnabledSchedules data
                 /\ id (record (job_sched j)) = sid /\ is_Some (pending j)).
  { induction l as [|sched l IH]; intros st Hsub Hok Hinv; [exact Hinv|].
    cbn [fold_left]. apply IH.
    - intros x Hx. apply Hsub. right. exact Hx.
    - apply scheduleJob_ok. exact Hok.
    - apply load_step; [apply Hsub; left | exact Hok | exact Hinv]. }
  intros Hjob.
  destruct (Hgen (getEnabledSchedules data) (initial data) (fun x Hx => Hx)
                 (registry_ok_initial data)) with (sid := sid) (job := job)
    as (j & Hj & Hl & Hid & Hp); [|exact Hjob|].
  - intros sid0 job0 H0. cbn in H0. rewrite lookup_empty in H0. discriminate.
  - exists j. split; [exact Hj|]. split; [exact Hl|]. split; [exact Hid|].
    split; [|exact Hp].
    apply StoreFacts.getEnabledSchedules_elem in Hl as [_ He].
    exact He.
Qed.

End WithRuntime.

Lemma runNow_touches_no_job_witness :
  runNow (H := Fixture.runtime) 99 Fixture.answered 5 (initial Fixture.data)
  = (Returned {| success := false; message := "Schedule not found" |}, initial Fixture.data).
Proof.
  apply (proj1 (proj2 (runNow_touches_no_job (H := Fixture.runtime)
                         (initial Fixture.data) 99 Fixture.answered 5))).
  reflexivity.
Defined.



Lemma loadSchedules_registers_enabled_only_witness :
  exists j,
    timers (loadSchedules (H := Fixture.runtime) 0 (initial Fixture.data)) !! 0%nat = Some j
    /\ id (record (job_sched j)) = 1 /\ enabled (record (job_sched j)) = true.
Proof.
  destruct (loadSchedules_registers_enabled_only (H := Fixture.runtime) Fixture.data 0 1 0%nat
              ltac:(vm_compute; reflexivity)) as (j & Hj & _ & Hid & He & _).
  exists j. auto.
Defined.

End PipelineMore.

(** ** The handlers: manual commands, device updates, deleting and
    disabling schedules *)

Module IpcFacts.

Import Database Scheduler Store Ipc DatabaseFacts RegistryFacts Wellformed SchedulerMore.

Lemma apply_device_patch_id (p : DevicePatch) (d : DeviceRecord) :
  dev_id (apply_device_patch p d) = dev_id d.
Proof. reflexivity. Qed.

Lemma find_update_first_device (i : Z) (p : DevicePatch) (l : list DeviceRecord) :
  find (fun d => dev_id d =? i) (update_first_device i p l)
  = apply_device_patch p <$> find (fun d => dev_id d =? i) l.
Proof.
  induction l as [|d l IH]; [reflexivity|]. cbn [update_first_device find].
  destruct (dev_id d =? i) eqn:E; cbn [find].
  - rewrite apply_device_patch_id, E. reflexivity.
  - rewrite E. exact IH.
Qed.

Lemma getDevice_updateDevice (data : DatabaseData) (i : Z) (p : DevicePatch) :
  getDevice (updateDevice data i p) i = apply_device_patch p <$> getDevice data i.
Proof. unfold getDevice, updateDevice. cbn [devices]. apply find_update_first_device. Qed.

Lemma update_first_device_missing (i : Z) (p : DevicePatch) (l : list DeviceRecord) :
  find (fun d => dev_id d =? i) l = None -> update_first_device i p l = l.
Proof.
  induction l as [|d l IH]; [reflexivity|]. cbn [find update_first_device].
  destruct (dev_id d =? i); [discriminate|]. intros Hn. rewrite IH by exact Hn. reflexivity.
Qed.

(** Where the commands of a device go after a request through the line
    pool: to its registered client, else to the address given. *)
Lemma sendTake_address (d : Z) (h : string) (p : Z) (tid : Z) (io : Outcome string)
    (pool : Pool.t RossTalk.Client) :
  Pool.address d (snd (RossTalkPool_sendTake d h p tid io pool))
  = match Pool.address d pool with
    | Some a => Some a
    | None => Some (h, p)
    end.
Proof.
  unfold RossTalkPool_sendTake, Pool.request, Pool.getClient, Pool.address.
  destruct (Pool.clients pool !! d) as [[ref c]|] eqn:Hd.
  - destruct (link_perform _ c) as [r c'] eqn:Hq. cbn [snd Pool.clients].
    rewrite lookup_insert_eq.
    pose proof (PoolFacts.RossTalk_perform_address
                  (RossTalkLink.SendTake tid io) c) as [Hh Hp].
    cbn [link_perform RossTalk_Link] in Hq. rewrite Hq in Hh, Hp. cbn [snd] in Hh, Hp.
    cbn [link_host link_port RossTalk_Link]. rewrite Hh, Hp. reflexivity.
  - destruct (link_perform _ (link_new h p)) as [r c'] eqn:Hq. cbn [snd Pool.clients].
    rewrite lookup_insert_eq.
    pose proof (PoolFacts.RossTalk_perform_address
                  (RossTalkLink.SendTake tid io) (RossTalk.new h p)) as [Hh Hp].
    cbn [link_perform link_new RossTalk_Link] in Hq. rewrite Hq in Hh, Hp.
    cbn [snd] in Hh, Hp.
    cbn [link_host link_port RossTalk_Link]. rewrite Hh, Hp. reflexivity.
Qed.

Lemma disconnect_gone {C : Type} `{Link C} (i : Z) (pool : Pool.t C) :
  Pool.clients (Pool.disconnect i pool) !! i = None.
Proof.
  unfold Pool.disconnect. destruct (Pool.clients pool !! i) eqn:E; [|exact E].
  cbn [Pool.clients]. apply lookup_delete_eq.
Qed.

Section WithRuntime.
Context `{Runtime}.

(** X22. The manual take.  For a device that is not in the store, or is
    not an Xpression, the handler returns a failure and nothing is logged,
    no link is created, nothing changes.  For an Xpression it returns what
    [sendTake] made of the client's [sendCommand], which never settles with
    a line: the result is a failure, whose message is the error of
    [connect()] or of the write, else [Command timeout], also when the
    device answers.  One row is logged, without schedule reference, with
    status [error] and that message; its command is [TAKE] and the digits
    of the id, for a safe integer.  No notification is sent and no job or
    schedule is touched. *)
Theorem commands_sendTake_reports_failure (st : State) (deviceId tid : Z)
    (link : Outcome unit) (write_error : option string) (arrivals : list string)
    (now : Z) :
  match getDevice (db st) deviceId with
  | None =>
      forall io, commands_sendTake deviceId tid io now st
                 = ({| success := false; message := "Device not found" |}, st)
  | Some device =>
      match dev_type device with
      | ultrix =>
          forall io, commands_sendTake deviceId tid io now st
                     = ({| success := false; message := "Device is not an Xpression" |}, st)
      | xpression =>
          let io := RossTalkPool_take_promise deviceId (dev_host device) (dev_port device)
                      tid link write_error arrivals (rossTalkPool st) in
          let r := fst (commands_sendTake deviceId tid io now st) in
          let st' := snd (commands_sendTake deviceId tid io now st) in
          success r = false
          /\ (link = Failed (message r) \/ write_error = Some (message r)
              \/ message r = "Command timeout"%string)
          /\ (exists row,
                command_log (db st') = pushed_log (command_log (db st)) row
                /\ log_schedule_id row = None
                /\ log_device_id row = deviceId
                /\ log_status row = status_error
                /\ log_response row = Some (message r)
                /\ (Js.isSafeInteger tid = true ->
                    log_command row = ("TAKE " ++ Js.num_to_string tid)%string))
          /\ sent st' = sent st
          /\ jobs st' = jobs st /\ timers st' = timers st
          /\ schedules (db st') = schedules (db st)
      end
  end.
Proof.
  destruct (getDevice (db st) deviceId) as [device|] eqn:Hd;
    [|intros io; unfold commands_sendTake; rewrite Hd; reflexivity].
  destruct (dev_type device) eqn:Ht;
    [|intros io; unfold commands_sendTake; rewrite Hd, Ht; reflexivity].
  cbv zeta.
  set (io := RossTalkPool_take_promise _ _ _ _ _ _ _ _).
  assert (Hio : exists m, io = Failed m
                          /\ (link = Failed m \/ write_error = Some m
                              \/ m = "Command timeout"%string)).
  { unfold io, RossTalkPool_take_promise, RossTalk.sendCommand.
    destruct (Pool.getClient _ _ _ _) as [[ref c] pool1]. cbn [fst snd].
    destruct (RossTalk.connected c) eqn:Hc.
    - rewrite RossTalkFacts.dispatch_connected. cbn [fst snd RossTalk.awaitResponse].
      destruct write_error as [m|]; eexists; split; try reflexivity; auto.
    - destruct link as [[]|m].
      + rewrite RossTalkFacts.dispatch_connected. cbn [fst snd RossTalk.awaitResponse].
        destruct write_error as [m|]; eexists; split; try reflexivity; auto.
      + cbn [fst snd]. eexists; split; [reflexivity | auto]. }
  destruct Hio as (m & -> & Hm).
  unfold commands_sendTake. rewrite Hd, Ht.
  unfold RossTalkPool_sendTake, Pool.request.
  destruct (Pool.getClient _ _ _ _) as [[ref c] pool1].
  cbn [link_perform RossTalk_Link RossTalkLink.perform RossTalk.sendTake].
  unfold createLog. cbn [fst snd db sent jobs timers command_log schedules success message].
  split; [reflexivity|]. split; [exact Hm|]. split; [|auto].
  eexists. split; [reflexivity|]. cbn. auto.
Qed.

(** X23. ['devices:update'] with a host or port for a device of the store:
    the record read back is the stored one with the given fields replaced,
    and the pool of the device's (new) type holds no client for it any
    more; for an Xpression the next manual take then goes to the address
    now in the store.  The jobs are not touched. *)
Theorem devices_update_evicts_link (st : State) (i : Z) (device : DeviceRecord)
    (p : DevicePatch) (tid : Z) (io : Outcome string) (now : Z) :
  getDevice (db st) i = Some device ->
  address_given p = true ->
  let device' := apply_device_patch p device in
  let st1 := snd (devices_update i p st) in
  fst (devices_update i p st) = Returned (Some device')
  /\ getDevice (db st1) i = Some device'
  /\ match dev_type device' with
     | xpression => Pool.clients (rossTalkPool st1) !! i = None
     | ultrix => Pool.clients (swp08Pool st1) !! i = None
     end
  /\ (dev_type device' = xpression ->
      Pool.address i (rossTalkPool (snd (commands_sendTake i tid io now st1)))
      = Some (dev_host device', dev_port device'))
  /\ jobs st1 = jobs st /\ timers st1 = timers st.
Proof.
  intros Hd Ha. cbv zeta. unfold devices_update. rewrite Ha.
  unfold with_db. cbn [db]. rewrite getDevice_updateDevice, Hd.
  cbn [fmap option_fmap option_map].
  destruct (dev_type (apply_device_patch p device)) eqn:Ht; cbn [fst snd].
  - split; [reflexivity|]. unfold with_pools. cbn [db rossTalkPool swp08Pool jobs timers].
    rewrite getDevice_updateDevice, Hd. split; [reflexivity|].
    split; [apply disconnect_gone|]. split; [|auto]. intros _.
    unfold commands_sendTake. cbn [db]. rewrite getDevice_updateDevice, Hd.
    cbn [fmap option_fmap option_map]. rewrite Ht. cbn [rossTalkPool].
    pose proof (sendTake_address i (dev_host (apply_device_patch p device))
                  (dev_port (apply_device_patch p device)) tid io
                  (Pool.disconnect i (rossTalkPool st))) as Hadr.
    destruct (RossTalkPool_sendTake _ _ _ _ _ _) as [result pool]. cbn [snd] in Hadr.
    unfold createLog. cbn [snd rossTalkPool]. rewrite Hadr.
    unfold Pool.address. rewrite disconnect_gone. reflexivity.
  - split; [reflexivity|]. unfold with_pools. cbn [db rossTalkPool swp08Pool jobs timers].
    rewrite getDevice_updateDevice, Hd. split; [reflexivity|].
    split; [apply disconnect_gone|]. split; [discriminate | auto].
Qed.

(** X24. ['devices:update'] for an id that is not in the store changes no
    record; given a host or port it then throws a [TypeError] (it reads the
    type of the missing device), and without them it returns [null]. *)
Theorem devices_update_missing_device (st : State) (i : Z) (p : DevicePatch) :
  getDevice (db st) i = None ->
  db (snd (devices_update i p st)) = db st
  /\ rossTalkPool (snd (devices_update i p st)) = rossTalkPool st
  /\ swp08Pool (snd (devices_update i p st)) = swp08Pool st
  /\ fst (devices_update i p st)
     = if address_given p
       then Thrown "Cannot read properties of null (reading 'type')"
       else Returned None.
Proof.
  intros Hd. unfold devices_update, with_db. cbn [db].
  rewrite getDevice_updateDevice, Hd. cbn [fmap option_fmap option_map].
  assert (Hsame : updateDevice (db st) i p = db st).
  { unfold updateDevice. unfold getDevice in Hd.
    rewrite update_first_device_missing by exact Hd. destruct (db st). reflexivity. }
  destruct (address_given p); cbn [fst snd db rossTalkPool swp08Pool]; rewrite Hsame; auto.
Qed.

(** A job object that was cancelled does nothing when its timer fires. *)
Lemma fire_cancelled (st : State) (job : nat) (net : Net) (now : Z) :
  nextInvocation st job = None -> fire job net now st = st.
Proof.
  unfold nextInvocation, fire. destruct (timers st !! job) as [j|]; [|reflexivity].
  cbn [mbind option_bind]. intros ->. reflexivity.
Qed.

Lemma cancelJob_silences (st : State) (sid : Z) (job : nat) :
  jobs st !! sid = Some job -> nextInvocation (cancelJob sid st) job = None.
Proof.
  intros Hj. unfold cancelJob, nextInvocation. rewrite Hj. cbn [timers].
  rewrite lookup_alter_eq. destruct (timers st !! job); reflexivity.
Qed.

Lemma cancelJob_entry (st : State) (sid : Z) : jobs (cancelJob sid st) !! sid = None.
Proof.
  unfold cancelJob. destruct (jobs st !! sid) eqn:Hj; [|exact Hj].
  cbn [jobs]. apply lookup_delete_eq.
Qed.

Lemma cancelJob_db (st : State) (sid : Z) : db (cancelJob sid st) = db st.
Proof. unfold cancelJob. destruct (jobs st !! sid); reflexivity. Qed.

(** X25. ['schedules:delete'] on a running scheduler removes the schedule
    for good: the store has no record and the registry no entry for the id,
    no timer of that schedule is live and the job that was registered does
    nothing when it fires; afterwards [runNow] reports that the schedule
    is not found and [enableSchedule] registers nothing.  The pools are not
    touched. *)
Theorem schedules_delete_removes_schedule (data : DatabaseData) (ops : list Op) (i : Z) :
  let st := run (initial data) ops in
  let st' := schedules_delete i st in
  getSchedule (db st') i = None
  /\ jobs st' !! i = None
  /\ (forall job, live st' job i = false)
  /\ (forall job net now, jobs st !! i = Some job -> fire job net now st' = st')
  /\ (forall net now,
        runNow i net now st'
        = (Returned {| success := false; message := "Schedule not found" |}, st'))
  /\ (forall now, enableSchedule i now st' = st')
  /\ rossTalkPool st' = rossTalkPool st /\ swp08Pool st' = swp08Pool st.
Proof.
  cbv zeta. destruct (reachable_ok data ops) as [Hok Hs].
  set (st := run (initial data) ops) in *. unfold schedules_delete.
  assert (Hgone : getSchedule (deleteSchedule (db (cancelJob i st)) i) i = None).
  { unfold getSchedule, deleteSchedule. cbn [schedules]. apply StoreFacts.find_filter_same. }
  split; [exact Hgone|]. split; [apply cancelJob_entry|].
  split; [intros job; apply (cancelJob_not_live st i job Hok)|].
  split; [intros job net now Hj; apply fire_cancelled; apply (cancelJob_silences st i job Hj)|].
  split; [intros net now; unfold runNow, with_db; cbn [db]; rewrite Hgone; reflexivity|].
  split; [|unfold cancelJob; destruct (jobs st !! i); auto].
  intros now. unfold enableSchedule, addSchedule, with_db. cbn [db].
  destruct (find _ _) as [sched|] eqn:Hf; [exfalso|reflexivity].
  apply find_some in Hf as [Hin Hid]. apply list_elem_of_In in Hin.
  apply StoreFacts.getEnabledSchedules_elem in Hin as (Hrec & _).
  apply list_elem_of_In in Hrec. unfold deleteSchedule in Hrec. cbn [schedules] in Hrec.
  apply filter_In in Hrec as [_ Hne]. rewrite Hid in Hne. discriminate.
Qed.

(** X26. ['schedules:toggle'] with [enabled = false] on a running
    scheduler: the stored record of the schedule has its flag cleared and
    nothing else changed, the registry has no entry for it, none of its
    timers is live, and the job that was registered does nothing when it
    fires.  The records and the registry entries of the other schedules
    stay as they are. *)
Theorem schedules_toggle_off_silences_schedule (data : DatabaseData) (ops : list Op)
    (i : Z) (now : Z) :
  let st := run (initial data) ops in
  let st' := schedules_toggle i false now st in
  getSchedule (db st') i = apply_patch (patch_enabled false) <$> getSchedule (db st) i
  /\ (forall s', getSchedule (db st') i = Some s' -> enabled s' = false)
  /\ jobs st' !! i = None
  /\ (forall job, live st' job i = false)
  /\ (forall job net t, jobs st !! i = Some job -> fire job net t st' = st')
  /\ (forall i', i' <> i ->
        getSchedule (db st') i' = getSchedule (db st) i'
        /\ jobs st' !! i' = jobs st !! i').
Proof.
  cbv zeta. destruct (reachable_ok data ops) as [Hok Hs].
  set (st := run (initial data) ops) in *. unfold schedules_toggle, disableSchedule.
  set (st1 := with_db st (Database.updateSchedule (db st) i (patch_enabled false))).
  assert (Hok1 : registry_ok st1) by (apply (registry_ok_same st); auto).
  assert (Hdb : db (cancelJob i st1) = Database.updateSchedule (db st) i (patch_enabled false))
    by (rewrite cancelJob_db; reflexivity).
  assert (Hread : getSchedule (db (cancelJob i st1)) i
                  = apply_patch (patch_enabled false) <$> getSchedule (db st) i).
  { rewrite Hdb, getSchedule_updateSchedule, Z.eqb_refl. reflexivity. }
  split; [exact Hread|]. split.
  { intros s'. rewrite Hread. destruct (getSchedule (db st) i); [|discriminate].
    cbn [fmap option_fmap option_map]. intros [= <-]. reflexivity. }
  split; [apply cancelJob_entry|].
  split; [intros job; apply (cancelJob_not_live st1 i job Hok1)|].
  split; [intros job net t Hj; apply fire_cancelled; apply (cancelJob_silences st1 i job Hj)|].
  intros i' Hne. split.
  - rewrite Hdb, getSchedule_updateSchedule. destruct (Z.eqb_spec i' i); [contradiction|reflexivity].
  - unfold cancelJob. destruct (jobs st1 !! i); [|reflexivity]. cbn [jobs].
    rewrite lookup_delete_ne by congruence. reflexivity.
Qed.

End WithRuntime.

Lemma devices_update_evicts_link_witness :
  Pool.address 1 (rossTalkPool IpcFixture.linked) = Some ("10.0.0.7"%string, 7788)
  /\ Pool.address 1
       (rossTalkPool
          (snd (commands_sendTake (H := Fixture.runtime) 1 8 (Failed "Command timeout"%string) 5
                  (snd (devices_update 1 IpcFixture.new_host IpcFixture.linked)))))
     = Some ("10.0.0.9"%string, 7788).
Proof.
  split; [vm_compute; reflexivity|].
  apply (proj1 (proj2 (proj2 (proj2
           (devices_update_evicts_link (H := Fixture.runtime)
              IpcFixture.linked 1 Fixture.xpression1 IpcFixture.new_host 8
              (Failed "Command timeout"%string) 5
              ltac:(vm_compute; reflexivity) ltac:(reflexivity)))))).
  reflexivity.
Defined.

Lemma devices_update_missing_device_witness :
  fst (devices_update 99 IpcFixture.new_host (initial Fixture.data))
  = Thrown "Cannot read properties of null (reading 'type')"%string.
Proof.
  apply (proj2 (proj2 (proj2
           (devices_update_missing_device (initial Fixture.data) 99 IpcFixture.new_host
              ltac:(reflexivity))))).
Defined.

End IpcFacts.

(** ** Deleting a device, clearing the log *)

Module CascadeFacts.

Import Database Scheduler Store Ipc Wellformed.

Lemma find_filter_device (i : Z) (l : list DeviceRecord) :
  find (fun d => dev_id d =? i) (List.filter (fun d => negb (dev_id d =? i)) l) = None.
Proof.
  induction l as [|d l IH]; [reflexivity|]. cbn [List.filter].
  destruct (dev_id d =? i) eqn:E; cbn [negb find]; [exact IH|]. rewrite E. exact IH.
Qed.

Lemma devices_delete_db (i : Z) (st : State) :
  db (devices_delete i st) = deleteDevice (db st) i.
Proof.
  unfold devices_delete. destruct (getDevice (db st) i) as [d|]; [|reflexivity].
  destruct (dev_type d); reflexivity.
Qed.

(** X27. ['devices:delete'] removes the device from the store together with
    every schedule and every log row of it, and evicts its pooled link; the
    schedules of other devices and their rows stay.  It cancels no job: the
    registry and the timers are as before, so a timer of a schedule deleted
    this way is still live, while [getEnabledSchedules] no longer returns
    any schedule of the device. *)
Theorem devices_delete_cascades_but_keeps_jobs (st : State) (i : Z) :
  let st' := devices_delete i st in
  getDevice (db st') i = None
  /\ (forall s, In s (schedules (db st')) <-> In s (schedules (db st)) /\ device_id s <> i)
  /\ (forall l, In l (command_log (db st'))
                <-> In l (command_log (db st)) /\ log_device_id l <> i)
  /\ (forall s, s ∈ getEnabledSchedules (db st') -> device_id (record s) <> i)
  /\ match getDevice (db st) i with
     | Some device =>
         match dev_type device with
         | xpression => Pool.clients (rossTalkPool st') !! i = None
                        /\ swp08Pool st' = swp08Pool st
         | ultrix => Pool.clients (swp08Pool st') !! i = None
                     /\ rossTalkPool st' = rossTalkPool st
         end
     | None => rossTalkPool st' = rossTalkPool st /\ swp08Pool st' = swp08Pool st
     end
  /\ jobs st' = jobs st
  /\ (forall job sid, live st' job sid = live st job sid)
  /\ (forall sid, getNextRun sid st' = getNextRun sid st).
Proof.
  cbv zeta.
  assert (Hsched : forall s, In s (schedules (db (devices_delete i st)))
                             <-> In s (schedules (db st)) /\ device_id s <> i).
  { intros s. rewrite devices_delete_db. unfold deleteDevice. cbn [schedules].
    rewrite filter_In, negb_true_iff, Z.eqb_neq. reflexivity. }
  split; [rewrite devices_delete_db; apply find_filter_device|].
  split; [exact Hsched|].
  split.
  { intros l. rewrite devices_delete_db. unfold deleteDevice. cbn [command_log].
    rewrite filter_In, negb_true_iff, Z.eqb_neq. reflexivity. }
  split.
  { intros s Hs. apply StoreFacts.getEnabledSchedules_elem in Hs as (Hrec & _).
    apply list_elem_of_In, Hsched in Hrec. apply Hrec. }
  assert (Hjobs : jobs (devices_delete i st) = jobs st
                  /\ timers (devices_delete i st) = timers st).
  { unfold devices_delete. destruct (getDevice (db st) i) as [d|]; [|auto].
    destruct (dev_type d); auto. }
  destruct Hjobs as [Hj Ht].
  split.
  { unfold devices_delete. destruct (getDevice (db st) i) as [d|]; [|auto].
    destruct (dev_type d); cbn [with_db with_pools rossTalkPool swp08Pool];
      (split; [apply IpcFacts.disconnect_gone | reflexivity]). }
  split; [exact Hj|].
  split; [intros job sid; unfold live; rewrite Ht; reflexivity|].
  intros sid. unfold getNextRun, nextInvocation. rewrite Hj, Ht. reflexivity.
Qed.

(** X5. [clearLogs] empties the log and leaves everything else, the id
    counter included: the row logged next gets an id greater than that of
    every row there was before, so ids are not given twice. *)
Theorem clearLogs_keeps_id_counter (data : DatabaseData) (log : LogEntry) (t : string) :
  log_ids_ok data ->
  let created := createLog (clearLogs data) log t in
  command_log (clearLogs data) = []
  /\ devices (clearLogs data) = devices data
  /\ schedules (clearLogs data) = schedules data
  /\ log_id (fst created) = nextId_command_log data
  /\ command_log (snd created) = [fst created]
  /\ Forall (fun l => log_id l < log_id (fst created)) (command_log data).
Proof.
  intros [_ Hbelow]. cbv zeta. unfold createLog, clearLogs.
  cbn [fst snd command_log devices schedules nextId_command_log log_id app length].
  repeat split; exact Hbelow.
Qed.

Lemma clearLogs_keeps_id_counter_witness :
  let entry := {| entry_schedule_id := None; entry_device_id := 1;
                  entry_command := "TAKE 7"%string; entry_status := status_success;
                  entry_response := Some "OK"%string |} in
  let logged := snd (createLog Fixture.data entry (Fixture.iso 0)) in
  log_id (fst (createLog (clearLogs logged) entry (Fixture.iso 1000))) = 2.
Proof.
  intros entry logged.
  apply (proj1 (proj2 (proj2 (proj2 (clearLogs_keeps_id_counter logged entry (Fixture.iso 1000)
                                       ltac:(vm_compute; repeat constructor)))))).
Defined.

End CascadeFacts.
